(** * cc_dynamodb: a shallow embedding of [cc_dynamodb/__init__.py]

    The module is a configuration-driven adapter between a YAML schema
    description and boto's DynamoDB table API.  The embedding has two layers.

    - The value layer (this first part of the file) follows the module
      function by function.  Python code that reads the process-wide cache,
      the environment, the configuration file or the remote service is
      written in a state-and-exception monad [M] over a [World]; every call
      that the module makes on a boto table handle is appended to the world's
      [calls] trace and answered by the world's [remote] service.
    - The object layer ([Module Store], further down) models the Python heap
      of dict and list objects, and is where the copying done by
      [get_config] is studied. *)

From stdpp Require Import gmap strings list fin_maps sorting.
From Stdlib Require Import ZArith String Ascii Lia.

Open Scope string_scope.
Open Scope Z_scope.

(** ** Python scalars *)

(** The scalar values that reach [set_config] through keyword arguments and
    through [os.environ]: [None], booleans, integers and byte strings. *)
Inductive pyval :=
  | PNone
  | PBool (b : bool)
  | PInt (n : Z)
  | PStr (s : string).

Global Instance pyval_eq_dec : EqDecision pyval.
Proof. solve_decision. Defined.

(** Python truth value: [None], [False], [0] and the empty string are falsy. *)
Definition truthy (v : pyval) : bool :=
  match v with
  | PNone => false
  | PBool b => b
  | PInt n => negb (n =? 0)
  | PStr s => negb (String.eqb s "")
  end.

(** Python [a or b]: [a] when it is truthy, [b] otherwise. *)
Definition py_or (a b : pyval) : pyval := if truthy a then a else b.

(** ** Exceptions and results *)

Inductive exn :=
  | ConfigurationError (msg : string)
  | UnknownTableException (msg : string)
  | TableAlreadyExistsException (body : string)
  | UpdateTableException (msg : string)
  | JSONResponseError (status : Z) (error_code : option string) (body : string)
  | IOError (path : string)
  | KeyError (key : string)
  | AttributeError (name : string)
  | TypeError (what : string)
  | ValueError (what : string)
  | TransportError (what : string).

Global Instance exn_eq_dec : EqDecision exn.
Proof. solve_decision. Defined.

Inductive result (A : Type) :=
  | Ok (a : A)
  | Raise (e : exn).
Arguments Ok {A} a.
Arguments Raise {A} e.

(** ** [int(...)] on scalars

    Python 2's [int] on a byte string accepts a decimal literal: optional
    surrounding whitespace, an optional sign, and at least one digit. *)

Definition is_space (c : ascii) : bool :=
  let n := N_of_ascii c in
  ((9 <=? n) && (n <=? 13))%N || (n =? 32)%N.

Definition digit_of (c : ascii) : option Z :=
  let n := Z.of_N (N_of_ascii c) in
  if (48 <=? n) && (n <=? 57) then Some (n - 48) else None.

Fixpoint parse_digits (acc : Z) (s : string) : option Z :=
  match s with
  | EmptyString => Some acc
  | String c r =>
      match digit_of c with
      | Some d => parse_digits (10 * acc + d) r
      | None => None
      end
  end.

Fixpoint lstrip (s : string) : string :=
  match s with
  | EmptyString => EmptyString
  | String c r => if is_space c then lstrip r else s
  end.

Fixpoint rstrip (s : string) : string :=
  match s with
  | EmptyString => EmptyString
  | String c r =>
      match rstrip r with
      | EmptyString => if is_space c then EmptyString else String c EmptyString
      | r' => String c r'
      end
  end.

Definition parse_unsigned (s : string) : option Z :=
  match s with
  | EmptyString => None
  | _ => parse_digits 0 s
  end.

Definition int_of_str (s : string) : option Z :=
  match rstrip (lstrip s) with
  | String "-" r => Z.opp <$> parse_unsigned r
  | String "+" r => parse_unsigned r
  | r => parse_unsigned r
  end.

(** [int(v)]: a [ValueError] for a string that is not a literal, a
    [TypeError] for [None]. *)
Definition py_int (v : pyval) : result Z :=
  match v with
  | PNone => Raise (TypeError "int() argument must be a string or a number")
  | PBool b => Ok (if b then 1 else 0)
  | PInt n => Ok n
  | PStr s =>
      match int_of_str s with
      | Some n => Ok n
      | None => Raise (ValueError "invalid literal for int() with base 10")
      end
  end.

(** ** boto.dynamodb2: the part the module touches *)

(** Provisioned capacity, the dict [{'read': r, 'write': w}]. *)
Record Throughput := { read : Z; write : Z }.

Global Instance Throughput_eq_dec : EqDecision Throughput.
Proof. solve_decision. Defined.

(** The [throughput] argument of [create_table] and [update_table]: the
    default [False], or a capacity dict. *)
Inductive throughput_arg :=
  | ThroughputFalse
  | ThroughputDict (t : Throughput).

Global Instance throughput_arg_eq_dec : EqDecision throughput_arg.
Proof. solve_decision. Defined.

(** A built key field ([HashKey] / [RangeKey] instance).  [key_attr_type] is
    the class attribute [attr_type]: a string, or [None] for the base class
    [BaseSchemaField]. *)
Record Key := {
  key_attr_type : pyval;
  key_name : string;
  key_data_type : string;
}.

Global Instance Key_eq_dec : EqDecision Key.
Proof. solve_decision. Defined.

(** A built secondary index.  Only the [Global*] index classes carry a
    [throughput] attribute. *)
Record Index := {
  index_class : string;
  index_name : string;
  index_parts : list Key;
  index_throughput : option Throughput;
}.

Global Instance Index_eq_dec : EqDecision Index.
Proof. solve_decision. Defined.

Module fields.
(** The public attributes of [boto.dynamodb2.fields]: the key classes with
    their [attr_type] ([BaseSchemaField] has [None]), the index classes, of
    which the [Global*] ones carry a throughput, and the constant [STRING]
    that the module imports from [boto.dynamodb2.types].  The attributes
    that every module object has (the names in double underscores) are left
    out: the statements about what is built are about entries that name
    an attribute of this table. *)
Inductive attr :=
  | KeyClass (attr_type : pyval)
  | IndexClass (name : string) (is_global : bool)
  | Constant (value : string).

Definition getattr (name : string) : option attr :=
  if String.eqb name "HashKey" then Some (KeyClass (PStr "HASH"))
  else if String.eqb name "RangeKey" then Some (KeyClass (PStr "RANGE"))
  else if String.eqb name "BaseSchemaField" then Some (KeyClass PNone)
  else if String.eqb name "AllIndex" then Some (IndexClass name false)
  else if String.eqb name "KeysOnlyIndex" then Some (IndexClass name false)
  else if String.eqb name "IncludeIndex" then Some (IndexClass name false)
  else if String.eqb name "BaseIndexField" then Some (IndexClass name false)
  else if String.eqb name "GlobalAllIndex" then Some (IndexClass name true)
  else if String.eqb name "GlobalKeysOnlyIndex" then Some (IndexClass name true)
  else if String.eqb name "GlobalIncludeIndex" then Some (IndexClass name true)
  else if String.eqb name "GlobalBaseIndexField" then Some (IndexClass name true)
  else if String.eqb name "STRING" then Some (Constant "S")
  else None.

(** The class-level default of [GlobalBaseIndexField.throughput]. *)
Definition default_index_throughput : Throughput := {| read := 5; write := 5 |}.
End fields.

Module types.
(** The data type constants of [boto.dynamodb2.types].  The module's other
    attributes (the [Dynamizer] classes, the two operator tables and what
    every module object has) are not data types and are left out: the
    statements about what is built or returned are about entries that name
    a constant of this table. *)
Definition getattr (name : string) : option string :=
  if String.eqb name "STRING" then Some "S"
  else if String.eqb name "NUMBER" then Some "N"
  else if String.eqb name "BINARY" then Some "B"
  else if String.eqb name "STRING_SET" then Some "SS"
  else if String.eqb name "NUMBER_SET" then Some "NS"
  else if String.eqb name "BINARY_SET" then Some "BS"
  else if String.eqb name "NULL" then Some "NULL"
  else if String.eqb name "BOOLEAN" then Some "BOOL"
  else if String.eqb name "MAP" then Some "M"
  else if String.eqb name "LIST" then Some "L"
  else None.
End types.

(** [item.schema()] and [item.definition()] of a key field. *)
Record KeySchemaElement := { ks_AttributeName : string; ks_KeyType : pyval }.
Record AttributeDefinition := { ad_AttributeName : string; ad_AttributeType : string }.

Global Instance KeySchemaElement_eq_dec : EqDecision KeySchemaElement.
Proof. solve_decision. Defined.
Global Instance AttributeDefinition_eq_dec : EqDecision AttributeDefinition.
Proof. solve_decision. Defined.

Definition key_schema (k : Key) : KeySchemaElement :=
  {| ks_AttributeName := key_name k; ks_KeyType := key_attr_type k |}.

Definition key_definition (k : Key) : AttributeDefinition :=
  {| ad_AttributeName := key_name k; ad_AttributeType := key_data_type k |}.

(** The answer of [describe()]: the ['Table'] entry of the service's
    description. *)
Record UpstreamIndex := {
  IndexName : string;
  ProvisionedThroughput : Throughput;
}.

Record TableDescription := {
  KeySchema : list KeySchemaElement;
  AttributeDefinitions : list AttributeDefinition;
  GlobalSecondaryIndexes : option (list UpstreamIndex);
}.

(** A connection object; building one does no network traffic. *)
Inductive Connection :=
  | DynamoDBConnection (aws_access_key_id aws_secret_access_key host port is_secure : pyval)
  | RegionConnection (region : string) (aws_access_key_id aws_secret_access_key : pyval).

Global Instance Connection_eq_dec : EqDecision Connection.
Proof. solve_decision. Defined.

(** The table handle [table.Table], as it is built from the init data.  A
    value of this type is the handle by what it was built from: boto keeps
    the handle's attributes up to date on its own (its [describe] puts the
    throughput and the global indexes of the answer into the handle), and
    that later state of the object is not followed here. *)
Module table.
Record Table := {
  table_name : string;
  connection : Connection;
  throughput : Throughput;
  schema : list Key;
  global_indexes : list Index;
  indexes : list Index;
}.
End table.
Abbreviation Table := table.Table.

Global Instance Table_eq_dec : EqDecision Table.
Proof. solve_decision. Defined.

(** The calls the module makes on a table handle.  What boto sends to the
    service for each of them is boto's business; the module's behaviour is
    the sequence of these calls and what it does with their outcome. *)
Inductive Call :=
  | Create (init_data : Table)
  | Describe (table : string)
  | Update (table : string) (throughput : throughput_arg)
  | CreateGlobalSecondaryIndex (table : string) (index : Index)
  | UpdateGlobalSecondaryIndex (table : string) (index_name : string) (throughput : Throughput)
  | DeleteGlobalSecondaryIndex (table : string) (index_name : string).

Global Instance Call_eq_dec : EqDecision Call.
Proof. solve_decision. Defined.

(** The remote service, as seen from the module: what it answers to a call,
    given the calls made before.  [None] from [response] is success. *)
Record Service := {
  describe_response : list Call -> string -> result TableDescription;
  response : list Call -> Call -> option exn;
}.

(** ** Configuration *)

Record KeyDetails := {
  kd_type : string;
  kd_name : string;
  kd_data_type : string;
}.

(** An entry of an index section.  [id_throughput] is a [throughput] entry,
    which boto's [Global*] classes take as a keyword argument; the builder
    below reads [type], [name] and [parts] only. *)
Record IndexDetails := {
  id_type : string;
  id_name : string;
  id_parts : option (list KeyDetails);
  id_throughput : option Throughput;
}.

Global Instance KeyDetails_eq_dec : EqDecision KeyDetails.
Proof. solve_decision. Defined.
Global Instance IndexDetails_eq_dec : EqDecision IndexDetails.
Proof. solve_decision. Defined.

(** The parsed YAML file.  A top-level section that is absent is [None]. *)
Record Yaml := {
  yaml_schemas : option (gmap string (list KeyDetails));
  yaml_global_indexes : option (gmap string (list IndexDetails));
  yaml_indexes : option (gmap string (list IndexDetails));
  yaml_columns : option (gmap string (gmap string string));
  yaml_default_throughput : option Throughput;
}.

(** The [Bunch] kept in [_cached_config]. *)
Record Config := {
  yaml : Yaml;
  namespace : pyval;
  aws_access_key_id : pyval;
  aws_secret_access_key : pyval;
  host : pyval;
  port : pyval;
  is_secure : pyval;
}.

Definition with_port (p : pyval) (c : Config) : Config :=
  {| yaml := yaml c; namespace := namespace c;
     aws_access_key_id := aws_access_key_id c;
     aws_secret_access_key := aws_secret_access_key c;
     host := host c; port := p; is_secure := is_secure c |}.

(** ** The world and the monad *)

(** What is logged, with the names that are interpolated. *)
Inductive LogRecord :=
  | LogEvent (name : string)
  | LogInfo (fmt : string) (args : list string)
  | LogException (name : string).

(** Everything outside the function bodies: the module global
    [_cached_config], [os.environ], the readable YAML files, the default
    path [config['CONFIG_PATH']] of the package's own [Config], the remote
    service with the trace of calls made on it, and the log. *)
Record World := {
  _cached_config : option Config;
  environ : gmap string string;
  files : gmap string Yaml;
  CONFIG_PATH : string;
  remote : Service;
  calls : list Call;
  log : list LogRecord;
}.

Definition set__cached_config (c : option Config) (w : World) : World :=
  {| _cached_config := c; environ := environ w; files := files w;
     CONFIG_PATH := CONFIG_PATH w; remote := remote w; calls := calls w;
     log := log w |}.

Definition add_call (c : Call) (w : World) : World :=
  {| _cached_config := _cached_config w; environ := environ w; files := files w;
     CONFIG_PATH := CONFIG_PATH w; remote := remote w; calls := (calls w ++ [c])%list;
     log := log w |}.

Definition add_log (r : LogRecord) (w : World) : World :=
  {| _cached_config := _cached_config w; environ := environ w; files := files w;
     CONFIG_PATH := CONFIG_PATH w; remote := remote w; calls := calls w;
     log := (log w ++ [r])%list |}.

(** State and exceptions; the state survives a raised exception. *)
Definition M (A : Type) : Type := World -> World * result A.

Global Instance M_ret : MRet M := fun A a w => (w, Ok a).

Global Instance M_bind : MBind M := fun A B f m w =>
  match m w with
  | (w', Ok a) => f a w'
  | (w', Raise e) => (w', Raise e)
  end.

Definition raise {A} (e : exn) : M A := fun w => (w, Raise e).

Definition lift {A} (r : result A) : M A := fun w => (w, r).

Definition get_world : M World := fun w => (w, Ok w).

Definition modify (f : World -> World) : M unit := fun w => (f w, Ok tt).

(** [try: body except <exceptions the handler takes>: handler]. *)
Definition try_except {A} (body : M A) (handler : exn -> M A) : M A := fun w =>
  match body w with
  | (w', Ok a) => (w', Ok a)
  | (w', Raise e) => handler e w'
  end.

(** [if cond: raise e]. *)
Definition raise_if (cond : bool) (e : exn) : M unit :=
  if cond then raise e else mret tt.

(** [for x in xs: body x]. *)
Fixpoint for_each {A} (xs : list A) (body : A -> M unit) : M unit :=
  match xs with
  | [] => mret tt
  | x :: xs' => body x;; for_each xs' body
  end.

Definition logger (r : LogRecord) : M unit := modify (add_log r).

(** A call on the table handle: recorded, then answered by the service. *)
Definition service_call (c : Call) : M unit := fun w =>
  (add_call c w,
   match response (remote w) (calls w) c with
   | None => Ok tt
   | Some e => Raise e
   end).

(** [db_table.describe()]: the call, and the description the service
    answers with.  What boto writes into the handle from the answer is not
    modelled (see [table.Table]). *)
Definition describe (table : string) : M TableDescription := fun w =>
  (add_call (Describe table) w, describe_response (remote w) (calls w) table).

(** The [result] type is the exception monad of the pure helpers. *)
Global Instance result_ret : MRet result := fun A a => Ok a.

Global Instance result_bind : MBind result := fun A B f r =>
  match r with
  | Ok a => f a
  | Raise e => Raise e
  end.

(** A list comprehension whose element expression may raise. *)
Fixpoint comprehension {A B} (f : A -> result B) (xs : list A) : result (list B) :=
  match xs with
  | [] => Ok []
  | x :: xs' =>
      match f x with
      | Ok y =>
          match comprehension f xs' with
          | Ok ys => Ok (y :: ys)
          | Raise e => Raise e
          end
      | Raise e => Raise e
      end
  end.

(** [dict(pairs)]: a later pair with the same key replaces an earlier one. *)
Definition dict_of_pairs {V} (pairs : list (string * V)) : gmap string V :=
  foldl (fun m p => <[p.1 := p.2]> m) ∅ pairs.

(** [s[n:]] *)
Fixpoint slice_from (n : nat) (s : string) : string :=
  match n, s with
  | O, _ => s
  | S n', String _ r => slice_from n' r
  | S _, EmptyString => EmptyString
  end.

(** [sorted(l, key=key)] on string keys: stable, ascending. *)
Fixpoint insert_by {A} (key : A -> string) (x : A) (l : list A) : list A :=
  match l with
  | [] => [x]
  | y :: l' =>
      if String.leb (key x) (key y) then x :: y :: l'
      else y :: insert_by key x l'
  end.

Definition sorted {A} (key : A -> string) (l : list A) : list A :=
  foldr (insert_by key) [] l.

(** ** The module *)

Section cc_dynamodb.

(** Iteration order of a Python 2 dict ([items()], [keys()]): unspecified,
    so it is a parameter of the embedding.  The proofs assume of it only
    that every item of the dict comes once. *)
Variable dict_items : forall V, gmap string V -> list (string * V).
Arguments dict_items {V} _.

Definition dict_keys {V} (m : gmap string V) : list string := (dict_items m).*1.

Definition kwargs_get (kwargs : gmap string pyval) (k : string) : pyval :=
  default PNone (kwargs !! k).

(** [os.environ.get(k)] *)
Definition environ_get (environ : gmap string string) (k : string) : pyval :=
  match environ !! k with
  | Some s => PStr s
  | None => PNone
  end.

(** [yaml.load(open(config_path))] *)
Definition load_yaml (config_path : pyval) : M Yaml := fun w =>
  match config_path with
  | PStr p =>
      match files w !! p with
      | Some y => (w, Ok y)
      | None => (w, Raise (IOError p))
      end
  | _ => (w, Raise (TypeError "coercing to Unicode: need string or buffer"))
  end.

Definition set_config (kwargs : gmap string pyval) : M unit :=
  w ← get_world;
  let config_path := default (PStr (CONFIG_PATH w)) (kwargs !! "table_config") in
  yaml_config ← load_yaml config_path;
  let c :=
    {| yaml := yaml_config;
       namespace := py_or (kwargs_get kwargs "namespace")
                          (environ_get (environ w) "CC_DYNAMODB_NAMESPACE");
       aws_access_key_id := py_or (kwargs_get kwargs "aws_access_key_id")
                                  (environ_get (environ w) "CC_DYNAMODB_ACCESS_KEY_ID");
       aws_secret_access_key := py_or (kwargs_get kwargs "aws_secret_access_key")
                                      (environ_get (environ w) "CC_DYNAMODB_SECRET_ACCESS_KEY");
       host := py_or (kwargs_get kwargs "host") (environ_get (environ w) "CC_DYNAMODB_HOST");
       port := py_or (kwargs_get kwargs "port") (environ_get (environ w) "CC_DYNAMODB_PORT");
       is_secure := py_or (kwargs_get kwargs "is_secure")
                          (environ_get (environ w) "CC_DYNAMODB_IS_SECURE") |} in
  modify (set__cached_config (Some c));;
  raise_if (negb (truthy (namespace c)))
    (ConfigurationError
       "Missing namespace kwarg OR environment variable CC_DYNAMODB_NAMESPACE");;
  raise_if (negb (truthy (aws_access_key_id c)))
    (ConfigurationError
       "Missing aws_access_key_id kwarg OR environment variable CC_DYNAMODB_ACCESS_KEY_ID");;
  raise_if (negb (truthy (aws_secret_access_key c)))
    (ConfigurationError
       "Missing aws_secret_access_key kwarg OR environment variable CC_DYNAMODB_SECRET_ACCESS_KEY");;
  (if truthy (port c) then
     match py_int (port c) with
     | Ok n => modify (set__cached_config (Some (with_port (PInt n) c)))
     | Raise (ValueError _) =>
         raise (ConfigurationError
                  "Integer value expected for port OR environment variable CC_DYNAMODB_PORT")
     | Raise e => raise e
     end
   else mret tt);;
  logger (LogEvent "cc_dynamodb.set_config").

(** The value returned is [Bunch(copy.deepcopy(_cached_config.toDict()))]:
    at this layer configurations are immutable values, so the copy is the
    value itself.  The copying is modelled in [Store.get_config]. *)
Definition get_config (kwargs : gmap string pyval) : M Config :=
  w ← get_world;
  match _cached_config w with
  | Some _ => mret tt
  | None => set_config kwargs
  end;;
  w ← get_world;
  match _cached_config w with
  | Some c => mret c
  | None => raise (AttributeError "toDict")
  end.

Definition _build_key (key_details : KeyDetails) : result Key :=
  match fields.getattr (kd_type key_details) with
  | None => Raise (AttributeError (kd_type key_details))
  | Some key_type =>
      match types.getattr (kd_data_type key_details) with
      | None => Raise (AttributeError (kd_data_type key_details))
      | Some data_type =>
          match key_type with
          | fields.KeyClass attr_type =>
              Ok {| key_attr_type := attr_type;
                    key_name := kd_name key_details;
                    key_data_type := data_type |}
          | fields.IndexClass _ _ =>
              Raise (TypeError "__init__() got an unexpected keyword argument 'data_type'")
          | fields.Constant _ => Raise (TypeError "'str' object is not callable")
          end
      end
  end.

Definition _build_keys (keys_config : list KeyDetails) : result (list Key) :=
  comprehension _build_key keys_config.

Definition _build_secondary_index (index_details : IndexDetails) : result Index :=
  match fields.getattr (id_type index_details) with
  | None => Raise (AttributeError (id_type index_details))
  | Some index_type =>
      parts ← comprehension _build_key (default [] (id_parts index_details));
      match index_type with
      | fields.IndexClass cls is_global =>
          Ok {| index_class := cls;
                index_name := id_name index_details;
                index_parts := parts;
                index_throughput :=
                  if is_global then Some fields.default_index_throughput else None |}
      | fields.KeyClass _ =>
          Raise (TypeError "__init__() got an unexpected keyword argument 'parts'")
      | fields.Constant _ => Raise (TypeError "'str' object is not callable")
      end
  end.

Definition _build_secondary_indexes (indexes_config : list IndexDetails)
  : result (list Index) :=
  comprehension _build_secondary_index indexes_config.

Record TableMetadata := {
  md_schema : list Key;
  md_global_indexes : list Index;
  md_indexes : list Index;
}.

Definition _get_table_metadata (table_name : string) : M TableMetadata :=
  c ← get_config ∅;
  let config := yaml c in
  keys_config ←
    match yaml_schemas config ≫= (fun schemas => schemas !! table_name) with
    | Some keys_config => mret keys_config
    | None =>
        logger (LogException "cc_dynamodb.UnknownTable");;
        raise (UnknownTableException ("Unknown table: " ++ table_name))
    end;
  schema ← lift (_build_keys keys_config);
  let global_indexes_config :=
    default [] (default ∅ (yaml_global_indexes config) !! table_name) in
  let indexes_config :=
    default [] (default ∅ (yaml_indexes config) !! table_name) in
  global_indexes ← lift (_build_secondary_indexes global_indexes_config);
  indexes ← lift (_build_secondary_indexes indexes_config);
  mret {| md_schema := schema;
          md_global_indexes := global_indexes;
          md_indexes := indexes |}.

Definition get_table_name (table_name : string) : M string :=
  c ← get_config ∅;
  match namespace c with
  | PStr ns => mret (ns ++ table_name)
  | _ => raise (TypeError "unsupported operand type(s) for +")
  end.

Definition get_reverse_table_name (table_name : string) : M string :=
  c ← get_config ∅;
  match namespace c with
  | PStr ns => mret (slice_from (String.length ns) table_name)
  | _ => raise (TypeError "object has no len()")
  end.

(** The two nested loops of [get_table_index]; falling off the end of the
    function returns [None]. *)
Fixpoint first_named (index_name : string) (table_indexes : list IndexDetails)
  : option IndexDetails :=
  match table_indexes with
  | [] => None
  | index :: rest =>
      if String.eqb (id_name index) index_name then Some index
      else first_named index_name rest
  end.

Fixpoint search_indexes (table_name index_name : string)
    (all_indexes : list (string * list IndexDetails)) : option IndexDetails :=
  match all_indexes with
  | [] => None
  | (config_table_name, table_indexes) :: rest =>
      if String.eqb config_table_name table_name then
        match first_named index_name table_indexes with
        | Some index => Some index
        | None => search_indexes table_name index_name rest
        end
      else search_indexes table_name index_name rest
  end.

Definition get_table_index (table_name index_name : string) : M (option IndexDetails) :=
  config ← get_config ∅;
  let all_indexes :=
    (dict_items (default ∅ (yaml_indexes (yaml config))) ++
     dict_items (default ∅ (yaml_global_indexes (yaml config))))%list in
  mret (search_indexes table_name index_name all_indexes).

Definition get_connection : M Connection :=
  config ← get_config ∅;
  if truthy (host config) then
    mret (DynamoDBConnection (aws_access_key_id config) (aws_secret_access_key config)
            (host config) (port config) (py_or (is_secure config) (PBool false)))
  else
    mret (RegionConnection "us-west-2"
            (aws_access_key_id config) (aws_secret_access_key config)).

Definition get_table_columns (table_name : string) : M (gmap string string) :=
  c ← get_config ∅;
  let config := yaml c in
  match yaml_columns config ≫= (fun columns => columns !! table_name) with
  | Some columns =>
      pairs ← lift (comprehension
                      (fun '(column_name, column_type) =>
                         match types.getattr column_type with
                         | Some t => Ok (column_name, t)
                         | None => Raise (AttributeError column_type)
                         end)
                      (dict_items columns));
      mret (dict_of_pairs pairs)
  | None =>
      logger (LogException "UnknownTable");;
      raise (UnknownTableException ("Unknown table: " ++ table_name))
  end.

(** [connection or get_connection()] *)
Definition connection_or_default (connection : option Connection) : M Connection :=
  match connection with
  | Some conn => mret conn
  | None => get_connection
  end.

(** The handle is built without a throughput, so it has boto's default. *)
Definition get_table (table_name : string) (connection : option Connection) : M Table :=
  name ← get_table_name table_name;
  conn ← connection_or_default connection;
  md ← _get_table_metadata table_name;
  mret {| table.table_name := name; table.connection := conn;
          table.throughput := {| read := 5; write := 5 |};
          table.schema := md_schema md;
          table.global_indexes := md_global_indexes md;
          table.indexes := md_indexes md |}.

Definition list_table_names : M (list string) :=
  c ← get_config ∅;
  match yaml_schemas (yaml c) with
  | Some schemas => mret (dict_keys schemas)
  | None => raise (KeyError "schemas")
  end.

Definition _get_or_default_throughput (throughput : throughput_arg) : M Throughput :=
  match throughput with
  | ThroughputFalse =>
      config ← get_config ∅;
      match yaml_default_throughput (yaml config) with
      | Some t => mret t
      | None => raise (KeyError "default_throughput")
      end
  | ThroughputDict t => mret t
  end.

Definition _get_table_init_data (table_name : string) (connection : option Connection)
    (throughput : throughput_arg) : M Table :=
  name ← get_table_name table_name;
  conn ← connection_or_default connection;
  thr ← _get_or_default_throughput throughput;
  md ← _get_table_metadata table_name;
  mret {| table.table_name := name; table.connection := conn;
          table.throughput := thr;
          table.schema := md_schema md;
          table.global_indexes := md_global_indexes md;
          table.indexes := md_indexes md |}.

Definition create_table (table_name : string) (connection : option Connection)
    (throughput : throughput_arg) : M Table :=
  try_except
    (init_data ← _get_table_init_data table_name connection throughput;
     service_call (Create init_data);;
     mret init_data)
    (fun e =>
       match e with
       | JSONResponseError status error_code body =>
           if (status =? 400) && bool_decide (error_code = Some "ResourceInUseException")
           then raise (TableAlreadyExistsException body)
           else raise e
       | _ => raise e
       end).

(** The interpolated reprs of the two lists are left out of the messages. *)
Definition _validate_schema (schema : list Key) (table_metadata : TableDescription)
  : result unit :=
  let upstream_schema := KeySchema table_metadata in
  let upstream_schema_attributes := ks_AttributeName <$> upstream_schema in
  let upstream_attributes :=
    filter (fun item => ad_AttributeName item ∈ upstream_schema_attributes)
           (AttributeDefinitions table_metadata) in
  let local_schema := key_schema <$> schema in
  let local_schema_attributes := ks_AttributeName <$> local_schema in
  let local_attributes :=
    key_definition <$>
      filter (fun item => ad_AttributeName (key_definition item) ∈ local_schema_attributes)
             schema in
  if bool_decide (sorted ks_AttributeName upstream_schema
                  ≠ sorted ks_AttributeName local_schema)
  then Raise (UpdateTableException "Mismatched schema")
  else if bool_decide (sorted ad_AttributeName upstream_attributes
                       ≠ sorted ad_AttributeName local_attributes)
  then Raise (UpdateTableException "Mismatched attributes")
  else Ok tt.

(** The body of the first loop of [update_table]. *)
Definition reconcile_local (db_table : Table) (table_name : string)
    (upstream_global_indexes_by_name : gmap string UpstreamIndex)
    (item : string * Index) : M unit :=
  let '(index_name, index) := item in
  match upstream_global_indexes_by_name !! index_name with
  | None =>
      service_call (CreateGlobalSecondaryIndex (table.table_name db_table) index);;
      logger (LogInfo "Creating GSI %s for %s" [index_name; table_name])
  | Some _ =>
      match index_throughput index with
      | Some thr =>
          service_call
            (UpdateGlobalSecondaryIndex (table.table_name db_table) index_name thr);;
          logger (LogInfo "Updating GSI %s throughput for %s to %s" [index_name; table_name])
      | None => raise (AttributeError "throughput")
      end
  end.

(** The body of the second loop of [update_table]. *)
Definition reconcile_upstream (db_table : Table) (table_name : string)
    (local_global_indexes_by_name : gmap string Index)
    (index_name : string) : M unit :=
  match local_global_indexes_by_name !! index_name with
  | None =>
      service_call (DeleteGlobalSecondaryIndex (table.table_name db_table) index_name);;
      logger (LogInfo "Deleting GSI %s for %s" [index_name; table_name])
  | Some _ => mret tt
  end.

Definition update_table (table_name : string) (connection : option Connection)
    (throughput : throughput_arg) : M Table :=
  db_table ← _get_table_init_data table_name connection throughput;
  let local_global_indexes_by_name :=
    dict_of_pairs ((fun index => (index_name index, index)) <$> table.global_indexes db_table) in
  try_except
    (table_metadata ← describe (table.table_name db_table);
     lift (_validate_schema (table.schema db_table) table_metadata);;
     service_call (Update (table.table_name db_table) throughput);;
     let upstream_global_indexes_by_name :=
       dict_of_pairs ((fun index => (IndexName index, index)) <$>
                        default [] (GlobalSecondaryIndexes table_metadata)) in
     for_each (dict_items local_global_indexes_by_name)
       (reconcile_local db_table table_name upstream_global_indexes_by_name);;
     for_each (dict_keys upstream_global_indexes_by_name)
       (reconcile_upstream db_table table_name local_global_indexes_by_name))
    (fun e =>
       match e with
       | JSONResponseError status error_code body =>
           if (status =? 400) && bool_decide (error_code = Some "ResourceNotFoundException")
           then raise (UnknownTableException ("Unknown table: " ++ table_name))
           else mret tt
       | _ => raise e
       end);;
  mret db_table.

End cc_dynamodb.

(** ** Vocabulary of the statements *)

(** *** Configuration loading *)

(** The path [set_config] opens. *)
Definition config_path_of (kwargs : gmap string pyval) (w : World) : pyval :=
  default (PStr (CONFIG_PATH w)) (kwargs !! "table_config").

(** The value a field resolves to: the keyword argument, else the
    environment variable. *)
Definition resolved (kwargs : gmap string pyval) (w : World) (key var : string) : pyval :=
  py_or (kwargs_get kwargs key) (environ_get (environ w) var).

(** Neither source gives the field a value: the keyword argument is absent
    or falsy, and so is the environment variable. *)
Definition no_value (kwargs : gmap string pyval) (w : World) (key var : string) : Prop :=
  truthy (kwargs_get kwargs key) = false /\ truthy (environ_get (environ w) var) = false.

(** A port is supplied and [int] does not accept it. *)
Definition malformed_port (kwargs : gmap string pyval) (w : World) : Prop :=
  let p := py_or (kwargs_get kwargs "port") (environ_get (environ w) "CC_DYNAMODB_PORT") in
  truthy p = true /\ forall n, py_int p <> Ok n.

(** The [Bunch] that [set_config] stores before it validates it. *)
Definition resolved_config (kwargs : gmap string pyval) (w : World) (y : Yaml) : Config :=
  {| yaml := y;
     namespace := resolved kwargs w "namespace" "CC_DYNAMODB_NAMESPACE";
     aws_access_key_id := resolved kwargs w "aws_access_key_id" "CC_DYNAMODB_ACCESS_KEY_ID";
     aws_secret_access_key :=
       resolved kwargs w "aws_secret_access_key" "CC_DYNAMODB_SECRET_ACCESS_KEY";
     host := resolved kwargs w "host" "CC_DYNAMODB_HOST";
     port := resolved kwargs w "port" "CC_DYNAMODB_PORT";
     is_secure := resolved kwargs w "is_secure" "CC_DYNAMODB_IS_SECURE" |}.

(** A computation that neither talks to the service nor replaces it. *)
Definition quiet {A} (m : M A) : Prop :=
  forall w, calls (m w).1 = calls w /\ remote (m w).1 = remote w.

(** *** Index lookup *)

Definition section_declares (sec : option (gmap string (list IndexDetails)))
    (table_name index_name : string) : Prop :=
  exists m table_indexes index,
    sec = Some m /\ m !! table_name = Some table_indexes /\
    index ∈ table_indexes /\ id_name index = index_name.

(** The configuration declares an index [index_name] for [table_name], in
    the local or in the global section. *)
Definition declares_index (y : Yaml) (table_name index_name : string) : Prop :=
  section_declares (yaml_indexes y) table_name index_name \/
  section_declares (yaml_global_indexes y) table_name index_name.

(** *** Table creation *)

(** The service's "table already exists" answer. *)
Definition in_use (e : exn) : Prop :=
  exists body, e = JSONResponseError 400 (Some "ResourceInUseException") body.

(** *** Primary key validation *)

(** The upstream attribute definitions of the key attributes. *)
Definition upstream_key_attributes (meta : TableDescription) : list AttributeDefinition :=
  filter (fun item => ad_AttributeName item ∈ (ks_AttributeName <$> KeySchema meta))
         (AttributeDefinitions meta).

(** The local primary key differs from the upstream one: in the key schema
    (name and kind) or in the attribute definitions (name and data type),
    each compared after sorting by attribute name. *)
Definition schema_differs (local : list Key) (meta : TableDescription) : Prop :=
  sorted ks_AttributeName (KeySchema meta) <> sorted ks_AttributeName (key_schema <$> local)
  \/ sorted ad_AttributeName (upstream_key_attributes meta)
     <> sorted ad_AttributeName (key_definition <$> local).

(** *** Index reconciliation *)

(** A service on which every call on the handle succeeds. *)
Definition accepting (s : Service) : Prop :=
  forall hist c, response s hist c = None.

(** The local and the upstream global secondary indexes, by name. *)
Definition local_indexes_by_name (db_table : Table) : gmap string Index :=
  dict_of_pairs ((fun index => (index_name index, index)) <$> table.global_indexes db_table).

Definition upstream_indexes_by_name (meta : TableDescription) : gmap string UpstreamIndex :=
  dict_of_pairs ((fun index => (IndexName index, index)) <$>
                   default [] (GlobalSecondaryIndexes meta)).

(** The index operations that the three-way comparison of [L] and [U] asks
    for: create what is only local, with the local descriptor; update the
    throughput of what is on both sides, to the local throughput; delete
    what is only upstream. *)
Inductive planned (tn : string) (L : gmap string Index) (U : gmap string UpstreamIndex)
  : Call -> Prop :=
  | planned_create n idx :
      L !! n = Some idx -> U !! n = None ->
      planned tn L U (CreateGlobalSecondaryIndex tn idx)
  | planned_update n idx thr :
      L !! n = Some idx -> is_Some (U !! n) -> index_throughput idx = Some thr ->
      planned tn L U (UpdateGlobalSecondaryIndex tn n thr)
  | planned_delete n :
      is_Some (U !! n) -> L !! n = None ->
      planned tn L U (DeleteGlobalSecondaryIndex tn n).

(** The call one iteration of the first loop makes, and the call one
    iteration of the second loop makes, if any. *)
Definition local_call (tn : string) (U : gmap string UpstreamIndex)
    (item : string * Index) : option Call :=
  match U !! item.1 with
  | None => Some (CreateGlobalSecondaryIndex tn item.2)
  | Some _ => UpdateGlobalSecondaryIndex tn item.1 <$> index_throughput item.2
  end.

Definition upstream_call (tn : string) (L : gmap string Index) (n : string) : option Call :=
  match L !! n with
  | None => Some (DeleteGlobalSecondaryIndex tn n)
  | Some _ => None
  end.

(** The service's "table not found" answer. *)
Definition not_found (e : exn) : Prop :=
  exists body, e = JSONResponseError 400 (Some "ResourceNotFoundException") body.

(** * The object layer: what [get_config] hands out

    [get_config] returns [Bunch(copy.deepcopy(_cached_config.toDict()))].
    Whether a caller can reach the cached configuration through the object
    it is given is a question about object identity, so this layer has a
    heap: dicts and lists are objects at locations, values are scalars or
    references, and the module global [_cached_config] holds a reference. *)

Module Store.
Local Open Scope list_scope.
Local Open Scope nat_scope.
Set Warnings "-register-all".

Abbreviation loc := nat.

(** A value: a scalar, or a reference to a dict or list object. *)
Inductive val :=
  | VScalar (p : pyval)
  | VRef (l : loc).

(** A dict keeps its items in insertion order; keys are strings. *)
Inductive obj :=
  | ODict (items : list (string * val))
  | OList (items : list val).

Abbreviation heap := (list obj).

(** A value without identity: what a YAML document is, and what an object
    graph without cycles unfolds to. *)
Inductive tree :=
  | TScalar (p : pyval)
  | TDict (items : list (string * tree))
  | TList (items : list tree).

(** The values an object holds. *)
Definition obj_vals (o : obj) : list val :=
  match o with
  | ODict items => items.*2
  | OList items => items
  end.

(** All of them, if none is missing. *)
Fixpoint option_list {A} (l : list (option A)) : option (list A) :=
  match l with
  | [] => Some []
  | x :: r =>
      match x, option_list r with
      | Some a, Some r' => Some (a :: r')
      | _, _ => None
      end
  end.

(** The tree below an object, given the trees below its elements. *)
Definition reify_obj (rec : val -> option tree) (o : obj) : option tree :=
  match o with
  | ODict items =>
      TDict <$> option_list (map (fun kv => pair kv.1 <$> rec kv.2) items)
  | OList items =>
      TList <$> option_list (map rec items)
  end.

(** The tree that the object graph below [v] unfolds to; [None] when the
    fuel runs out (on a cyclic graph: for every fuel) or a reference
    dangles. *)
Fixpoint reify (fuel : nat) (h : heap) (v : val) : option tree :=
  match v with
  | VScalar p => Some (TScalar p)
  | VRef l =>
      match fuel with
      | O => None
      | S fuel' =>
          match h !! l with
          | None => None
          | Some o => reify_obj (reify fuel' h) o
          end
      end
  end.

(** Build [t] out of new objects, children first. *)
Fixpoint alloc (t : tree) (h : heap) : heap * val :=
  match t with
  | TScalar p => (h, VScalar p)
  | TDict items =>
      let '(h1, vs) :=
        (fix alloc_items (its : list (string * tree)) (h : heap)
           : heap * list (string * val) :=
           match its with
           | [] => (h, [])
           | kt :: rest =>
               let '(h1, v) := alloc kt.2 h in
               let '(h2, vs) := alloc_items rest h1 in
               (h2, (kt.1, v) :: vs)
           end) items h in
      (h1 ++ [ODict vs], VRef (List.length h1))
  | TList items =>
      let '(h1, vs) :=
        (fix alloc_list (ts : list tree) (h : heap) : heap * list val :=
           match ts with
           | [] => (h, [])
           | t' :: rest =>
               let '(h1, v) := alloc t' h in
               let '(h2, vs) := alloc_list rest h1 in
               (h2, v :: vs)
           end) items h in
      (h1 ++ [OList vs], VRef (List.length h1))
  end.

(** The two inner loops of [alloc], on their own. *)
Fixpoint alloc_items (its : list (string * tree)) (h : heap)
  : heap * list (string * val) :=
  match its with
  | [] => (h, [])
  | kt :: rest =>
      let '(h1, v) := alloc kt.2 h in
      let '(h2, vs) := alloc_items rest h1 in
      (h2, (kt.1, v) :: vs)
  end.

Fixpoint alloc_list (ts : list tree) (h : heap) : heap * list val :=
  match ts with
  | [] => (h, [])
  | t' :: rest =>
      let '(h1, v) := alloc t' h in
      let '(h2, vs) := alloc_list rest h1 in
      (h2, v :: vs)
  end.

(** A structural copy: unfold the graph below [v], allocate the tree. *)
Definition copy (fuel : nat) (h : heap) (v : val) : option (heap * val) :=
  t ← reify fuel h v; Some (alloc t h).

(** [d[k]], [d[k] = v] and [del d[k]] on the items of a dict. *)
Fixpoint dict_lookup (k : string) (items : list (string * val)) : option val :=
  match items with
  | [] => None
  | (k', v) :: rest => if String.eqb k' k then Some v else dict_lookup k rest
  end.

Fixpoint dict_set (k : string) (v : val) (items : list (string * val))
  : list (string * val) :=
  match items with
  | [] => [(k, v)]
  | (k', v') :: rest =>
      if String.eqb k' k then (k, v) :: rest else (k', v') :: dict_set k v rest
  end.

Fixpoint dict_del (k : string) (items : list (string * val))
  : option (list (string * val)) :=
  match items with
  | [] => None
  | (k', v') :: rest =>
      if String.eqb k' k then Some rest else cons (k', v') <$> dict_del k rest
  end.

(** The part of the process state this layer needs. *)
Record State := {
  heap_of : heap;
  _cached_config : option loc;
  environ : gmap string string;
  files : gmap string tree;
  CONFIG_PATH : string;
}.

Definition with_heap (h : heap) (s : State) : State :=
  {| heap_of := h; _cached_config := _cached_config s; environ := environ s;
     files := files s; CONFIG_PATH := CONFIG_PATH s |}.

Definition with_cache (c : option loc) (s : State) : State :=
  {| heap_of := heap_of s; _cached_config := c; environ := environ s;
     files := files s; CONFIG_PATH := CONFIG_PATH s |}.

(** [set_config]: the YAML document is loaded into new objects, the
    [Bunch] is allocated and stored in the global before the checks run,
    and a numeric port is written back into the [Bunch].  The dict literal
    that [Bunch] is built from is dropped at once and is not allocated. *)
Definition set_config (kwargs : gmap string pyval) (s : State) : State * result unit :=
  match default (PStr (CONFIG_PATH s)) (kwargs !! "table_config") with
  | PStr p =>
      match files s !! p with
      | None => (s, Raise (IOError p))
      | Some document =>
          let '(h1, yaml_config) := alloc document (heap_of s) in
          let field key var :=
            py_or (kwargs_get kwargs key) (environ_get (environ s) var) in
          let namespace := field "namespace" "CC_DYNAMODB_NAMESPACE" in
          let aws_access_key_id := field "aws_access_key_id" "CC_DYNAMODB_ACCESS_KEY_ID" in
          let aws_secret_access_key :=
            field "aws_secret_access_key" "CC_DYNAMODB_SECRET_ACCESS_KEY" in
          let port := field "port" "CC_DYNAMODB_PORT" in
          let items :=
            [("yaml", yaml_config);
             ("namespace", VScalar namespace);
             ("aws_access_key_id", VScalar aws_access_key_id);
             ("aws_secret_access_key", VScalar aws_secret_access_key);
             ("host", VScalar (field "host" "CC_DYNAMODB_HOST"));
             ("port", VScalar port);
             ("is_secure", VScalar (field "is_secure" "CC_DYNAMODB_IS_SECURE"))] in
          let c := List.length h1 in
          let s1 := with_cache (Some c) (with_heap (h1 ++ [ODict items]) s) in
          if negb (truthy namespace) then
            (s1, Raise (ConfigurationError
                          "Missing namespace kwarg OR environment variable CC_DYNAMODB_NAMESPACE"))
          else if negb (truthy aws_access_key_id) then
            (s1, Raise (ConfigurationError
                          "Missing aws_access_key_id kwarg OR environment variable CC_DYNAMODB_ACCESS_KEY_ID"))
          else if negb (truthy aws_secret_access_key) then
            (s1, Raise (ConfigurationError
                          "Missing aws_secret_access_key kwarg OR environment variable CC_DYNAMODB_SECRET_ACCESS_KEY"))
          else if truthy port then
            match py_int port with
            | Ok n =>
                (with_heap
                   (<[c := ODict (dict_set "port" (VScalar (PInt n)) items)]> (heap_of s1))
                   s1,
                 Ok tt)
            | Raise (ValueError _) =>
                (s1, Raise (ConfigurationError
                              "Integer value expected for port OR environment variable CC_DYNAMODB_PORT"))
            | Raise e => (s1, Raise e)
            end
          else (s1, Ok tt)
      end
  | _ => (s, Raise (TypeError "coercing to Unicode: need string or buffer"))
  end.

(** [Bunch(d)]: a new mapping object holding the items of [d]. *)
Definition Bunch (h : heap) (d : val) : heap * result val :=
  match d with
  | VRef l =>
      match h !! l with
      | Some (ODict items) => (h ++ [ODict items], Ok (VRef (List.length h)))
      | _ => (h, Raise (TypeError "cannot convert dictionary update sequence"))
      end
  | VScalar _ => (h, Raise (TypeError "object is not iterable"))
  end.

(** [get_config]: [Bunch(copy.deepcopy(_cached_config.toDict()))].

    [toDict] rebuilds every dict and list below the [Bunch] as a new object
    and recurses without a memo table, so it is [copy]: unfold the graph,
    allocate the tree.  [copy.deepcopy] keeps a memo table, which is never
    hit on the tree-shaped result of [toDict], so on this argument it is
    [copy] as well.  The outer [option] is [None] when the fuel does not
    suffice for the unfolding. *)
Definition get_config (fuel : nat) (kwargs : gmap string pyval) (s : State)
  : option (State * result val) :=
  let '(s1, r) :=
    match _cached_config s with
    | Some _ => (s, Ok tt)
    | None => set_config kwargs s
    end in
  match r with
  | Raise e => Some (s1, Raise e)
  | Ok _ =>
      match _cached_config s1 with
      | None => Some (s1, Raise (AttributeError "toDict"))
      | Some c =>
          '(h1, d) ← copy fuel (heap_of s1) (VRef c);
          '(h2, d') ← copy fuel h1 d;
          let '(h3, b) := Bunch h2 d' in
          Some (with_heap h3 s1, b)
      end
  end.

(** The state in which the configuration that [get_config] copies is
    cached: the state itself, or the one [set_config] leaves when
    [get_config] has to load first. *)
Definition loaded (kwargs : gmap string pyval) (s : State) : State :=
  match _cached_config s with
  | Some _ => s
  | None => (set_config kwargs s).1
  end.

(** *** What a caller can do to the object it was given *)

Inductive step :=
  | Key (k : string)
  | Idx (i : nat).

(** [v[s1][s2]...] *)
Fixpoint resolve (h : heap) (v : val) (p : list step) : option val :=
  match p with
  | [] => Some v
  | s :: p' =>
      match v with
      | VRef l =>
          match h !! l, s with
          | Some (ODict items), Key k => x ← dict_lookup k items; resolve h x p'
          | Some (OList items), Idx i => x ← items !! i; resolve h x p'
          | _, _ => None
          end
      | VScalar _ => None
      end
  end.

(** The values a caller can store: a scalar, something reached from the
    object it holds, or a literal it builds. *)
Inductive expr :=
  | EScalar (p : pyval)
  | EPath (p : list step)
  | ENew (t : tree).

(** [target[k] = e], [del target[k]], [target[i] = e], [target.append(e)]
    and emptying [target], where [target] is reached from the object by a
    path of keys and indexes. *)
Inductive mutation :=
  | SetItem (target : list step) (k : string) (e : expr)
  | DelItem (target : list step) (k : string)
  | SetIndex (target : list step) (i : nat) (e : expr)
  | Append (target : list step) (e : expr)
  | Clear (target : list step).

(** Evaluating needs the heap only to follow a path; a literal allocates. *)
Definition eval (r : val) (e : expr) (h : heap) : option (heap * val) :=
  match e with
  | EScalar p => Some (h, VScalar p)
  | EPath p => v ← resolve h r p; Some (h, v)
  | ENew t => Some (alloc t h)
  end.

(** Replace the contents of the object that [target] leads to. *)
Definition update_obj (r : val) (target : list step) (f : obj -> option obj) (h : heap)
  : option heap :=
  match resolve h r target with
  | Some (VRef l) => o ← h !! l; o' ← f o; Some (<[l := o']> h)
  | _ => None
  end.

Definition set_item (k : string) (v : val) (o : obj) : option obj :=
  match o with
  | ODict items => Some (ODict (dict_set k v items))
  | OList _ => None
  end.

Definition del_item (k : string) (o : obj) : option obj :=
  match o with
  | ODict items => ODict <$> dict_del k items
  | OList _ => None
  end.

Definition set_index (i : nat) (v : val) (o : obj) : option obj :=
  match o with
  | OList items =>
      if decide (i < List.length items) then Some (OList (<[i := v]> items)) else None
  | ODict _ => None
  end.

Definition append (v : val) (o : obj) : option obj :=
  match o with
  | OList items => Some (OList (items ++ [v]))
  | ODict _ => None
  end.

Definition clear (o : obj) : option obj :=
  match o with
  | OList _ => Some (OList [])
  | ODict _ => Some (ODict [])
  end.

(** One statement of the caller, run on the object [r]; [None] when the
    statement raises. *)
Definition mutate (r : val) (m : mutation) (h : heap) : option heap :=
  match m with
  | SetItem target k e => '(h1, v) ← eval r e h; update_obj r target (set_item k v) h1
  | DelItem target k => update_obj r target (del_item k) h
  | SetIndex target i e => '(h1, v) ← eval r e h; update_obj r target (set_index i v) h1
  | Append target e => '(h1, v) ← eval r e h; update_obj r target (append v) h1
  | Clear target => update_obj r target clear h
  end.

(** A statement that raises leaves every existing object as it was. *)
Definition apply_mutation (r : val) (h : heap) (m : mutation) : heap :=
  default h (mutate r m h).

Definition apply_mutations (r : val) (ms : list mutation) (h : heap) : heap :=
  foldl (apply_mutation r) h ms.

(** *** Invariants

    Heaps have no dangling references. *)
Definition val_below (n : nat) (v : val) : bool :=
  match v with
  | VScalar _ => true
  | VRef l => bool_decide (l < n)%nat
  end.

Definition closed (h : heap) : bool :=
  forallb (fun o => forallb (val_below (List.length h)) (obj_vals o)) h.

(** [v] denotes the tree [t] in [h]. *)
Definition snapshot (h : heap) (v : val) (t : tree) : Prop :=
  exists fuel, reify fuel h v = Some t.


(** Every reference is at or above [n]: the value cannot lead below [n]. *)
Definition val_from (n : nat) (v : val) : Prop :=
  match v with
  | VScalar _ => True
  | VRef l => n <= l
  end.

(** The objects at or above [n] only refer to objects at or above [n]. *)
Definition separated (n : nat) (h : heap) : Prop :=
  forall l o, n <= l -> h !! l = Some o -> Forall (val_from n) (obj_vals o).

(** What an allocation does to the heap. *)
Definition alloc_ok (n : nat) (h h' : heap) : Prop :=
  h `prefix_of` h' /\ separated n h'.

(** Every reference is below [n]. *)
Definition val_lt (n : nat) (v : val) : Prop :=
  match v with
  | VScalar _ => True
  | VRef l => l < n
  end.

(** No object of the heap refers to a location at or above [n]. *)
Definition closed_lt (n : nat) (h : heap) : Prop :=
  forall l o, h !! l = Some o -> Forall (val_lt n) (obj_vals o).

(** The caller's invariant: the heap below [n] is that of [h0], and nothing
    at or above [n] refers below [n]. *)
Definition inv (n : nat) (h0 h : heap) : Prop :=
  (forall l, l < n -> h !! l = h0 !! l) /\ separated n h /\ n <= List.length h.


End Store.

(** * Examples

    A table [users] with hash key [id] and two global indexes [A] and [B];
    upstream the table has the indexes [B] and [C]. *)

(** One iteration order: that of the finite map. *)
Definition items_in_map_order : forall V, gmap string V -> list (string * V) :=
  fun V m => map_to_list m.

(** Another one: the reverse. *)
Definition items_in_reverse_order : forall V, gmap string V -> list (string * V) :=
  fun V m => reverse (map_to_list m).

Definition example_yaml : Yaml :=
  {| yaml_schemas :=
       Some {[ "users" :=
                 [ {| kd_type := "HashKey"; kd_name := "id"; kd_data_type := "STRING" |} ] ]};
     yaml_global_indexes :=
       Some {[ "users" :=
                 [ {| id_type := "GlobalAllIndex"; id_name := "A";
                      id_parts := Some [ {| kd_type := "HashKey"; kd_name := "email";
                                            kd_data_type := "STRING" |} ];
                      id_throughput := None |};
                   {| id_type := "GlobalAllIndex"; id_name := "B"; id_parts := None; id_throughput := None |} ] ]};
     yaml_indexes := None;
     yaml_columns := None;
     yaml_default_throughput := Some {| read := 10; write := 10 |} |}.

Definition example_upstream : TableDescription :=
  {| KeySchema := [ {| ks_AttributeName := "id"; ks_KeyType := PStr "HASH" |} ];
     AttributeDefinitions :=
       [ {| ad_AttributeName := "id"; ad_AttributeType := "S" |};
         {| ad_AttributeName := "email"; ad_AttributeType := "S" |} ];
     GlobalSecondaryIndexes :=
       Some [ {| IndexName := "B"; ProvisionedThroughput := {| read := 1; write := 1 |} |};
              {| IndexName := "C"; ProvisionedThroughput := {| read := 1; write := 1 |} |} ] |}.

(** Upstream, the hash key [id] is a number. *)
Definition example_upstream_number : TableDescription :=
  {| KeySchema := [ {| ks_AttributeName := "id"; ks_KeyType := PStr "HASH" |} ];
     AttributeDefinitions := [ {| ad_AttributeName := "id"; ad_AttributeType := "N" |} ];
     GlobalSecondaryIndexes := None |}.

Definition example_service : Service :=
  {| describe_response := fun _ _ => Ok example_upstream;
     response := fun _ _ => None |}.

Definition example_service_number : Service :=
  {| describe_response := fun _ _ => Ok example_upstream_number;
     response := fun _ _ => None |}.

(** The table exists already. *)
Definition example_service_in_use : Service :=
  {| describe_response := fun _ _ => Ok example_upstream;
     response := fun _ c =>
       match c with
       | Create _ =>
           Some (JSONResponseError 400 (Some "ResourceInUseException")
                   "Table already exists: dev_users")
       | _ => None
       end |}.

(** The service fails the throughput update of the table. *)
Definition example_internal_error : exn :=
  JSONResponseError 500 (Some "InternalServerError") "internal error".

Definition example_service_failing : Service :=
  {| describe_response := fun _ _ => Ok example_upstream;
     response := fun _ c =>
       match c with
       | Update _ _ => Some example_internal_error
       | _ => None
       end |}.

Definition example_environ : gmap string string :=
  {[ "CC_DYNAMODB_NAMESPACE" := "dev_";
     "CC_DYNAMODB_ACCESS_KEY_ID" := "key";
     "CC_DYNAMODB_SECRET_ACCESS_KEY" := "secret";
     "CC_DYNAMODB_PORT" := "8000" ]}.

Definition example_world (s : Service) : World :=
  {| _cached_config := None;
     environ := example_environ;
     files := {[ "/etc/cc_dynamodb.yaml" := example_yaml ]};
     CONFIG_PATH := "/etc/cc_dynamodb.yaml";
     remote := s;
     calls := [];
     log := [] |}.

Definition example_config : Config :=
  {| yaml := example_yaml;
     namespace := PStr "dev_";
     aws_access_key_id := PStr "key";
     aws_secret_access_key := PStr "secret";
     host := PNone;
     port := PInt 8000;
     is_secure := PNone |}.

(** The world once the configuration is loaded. *)
Definition example_loaded (s : Service) : World :=
  {| _cached_config := Some example_config;
     environ := example_environ;
     files := {[ "/etc/cc_dynamodb.yaml" := example_yaml ]};
     CONFIG_PATH := "/etc/cc_dynamodb.yaml";
     remote := s;
     calls := [];
     log := [] |}.

Definition example_index_A : Index :=
  {| index_class := "GlobalAllIndex"; index_name := "A";
     index_parts := [ {| key_attr_type := PStr "HASH"; key_name := "email";
                         key_data_type := "S" |} ];
     index_throughput := Some {| read := 5; write := 5 |} |}.

Definition example_index_B : Index :=
  {| index_class := "GlobalAllIndex"; index_name := "B"; index_parts := [];
     index_throughput := Some {| read := 5; write := 5 |} |}.

(** The handle for [users]. *)
Definition example_table_with (thr : Throughput) : Table :=
  {| table.table_name := "dev_users";
     table.connection := RegionConnection "us-west-2" (PStr "key") (PStr "secret");
     table.throughput := thr;
     table.schema := [ {| key_attr_type := PStr "HASH"; key_name := "id"; key_data_type := "S" |} ];
     table.global_indexes := [ example_index_A; example_index_B ];
     table.indexes := [] |}.

(** The handle when the default throughput of the configuration is used. *)
Definition example_table : Table := example_table_with {| read := 10; write := 10 |}.

(** A world without the secret key. *)
Definition example_world_no_secret : World :=
  {| _cached_config := None;
     environ := {[ "CC_DYNAMODB_NAMESPACE" := "dev_";
                   "CC_DYNAMODB_ACCESS_KEY_ID" := "key" ]};
     files := {[ "/etc/cc_dynamodb.yaml" := example_yaml ]};
     CONFIG_PATH := "/etc/cc_dynamodb.yaml";
     remote := example_service;
     calls := [];
     log := [] |}.

(** The object layer: a loaded cache, and what a caller does to its copy. *)
Definition example_document : Store.tree :=
  Store.TDict
    [ ("schemas",
       Store.TDict
         [ ("users",
            Store.TList
              [ Store.TDict [ ("type", Store.TScalar (PStr "HashKey"));
                              ("name", Store.TScalar (PStr "id"));
                              ("data_type", Store.TScalar (PStr "STRING")) ] ]) ]);
      ("default_throughput",
       Store.TDict [ ("read", Store.TScalar (PInt 10));
                     ("write", Store.TScalar (PInt 10)) ]) ].

Definition example_state : Store.State :=
  (Store.set_config ∅
     {| Store.heap_of := [];
        Store._cached_config := None;
        Store.environ := example_environ;
        Store.files := {[ "/etc/cc_dynamodb.yaml" := example_document ]};
        Store.CONFIG_PATH := "/etc/cc_dynamodb.yaml" |}).1.

Definition example_mutations : list Store.mutation :=
  [ Store.SetItem [] "namespace" (Store.EScalar (PStr "prod_"));
    Store.SetItem [Store.Key "yaml"; Store.Key "default_throughput"] "read"
      (Store.EScalar (PInt 1));
    Store.Append [Store.Key "yaml"; Store.Key "schemas"; Store.Key "users"]
      (Store.ENew (Store.TDict [ ("name", Store.TScalar (PStr "extra")) ]));
    Store.DelItem [Store.Key "yaml"] "schemas";
    Store.SetItem [Store.Key "yaml"] "self" (Store.EPath []) ].

(** The state after a first [get_config], and the copy it returned. *)
Definition example_state_after : Store.State :=
  match Store.get_config 10 ∅ example_state with
  | Some (s1, _) => s1
  | None => example_state
  end.

Definition example_copy : Store.val := Store.VRef 18.

(** The cached configuration of [example_state], as a tree. *)
Definition example_cached_tree : Store.tree :=
  Store.TDict
    [ ("yaml", example_document);
      ("namespace", Store.TScalar (PStr "dev_"));
      ("aws_access_key_id", Store.TScalar (PStr "key"));
      ("aws_secret_access_key", Store.TScalar (PStr "secret"));
      ("host", Store.TScalar PNone);
      ("port", Store.TScalar (PInt 8000));
      ("is_secure", Store.TScalar PNone) ].

(** Keyword arguments with falsy overrides. *)
Definition example_falsy_kwargs : gmap string pyval :=
  {[ "namespace" := PStr ""; "port" := PInt 0; "host" := PNone ]}.


(** * Vocabulary of the further properties *)

(** The configuration declares a schema for the table. *)
Definition declares_table (c : Config) (table_name : string) : Prop :=
  is_Some (yaml_schemas (yaml c) ≫= (fun schemas => schemas !! table_name)).

(** [index] is one of the indexes the configuration declares for the table,
    in the local or in the global section. *)
Definition declared_for (y : Yaml) (table_name : string) (index : IndexDetails) : Prop :=
  exists m table_indexes,
    (yaml_indexes y = Some m \/ yaml_global_indexes y = Some m) /\
    m !! table_name = Some table_indexes /\ index ∈ table_indexes.

(** The index that a lookup by table and by name finds: the local section
    comes first. *)
Definition found_index (y : Yaml) (table_name index_name : string) : option IndexDetails :=
  match first_named index_name (default [] (default ∅ (yaml_indexes y) !! table_name)) with
  | Some index => Some index
  | None =>
      first_named index_name (default [] (default ∅ (yaml_global_indexes y) !! table_name))
  end.

(** The entry names a key class and a data type that boto knows. *)
Definition buildable_key (d : KeyDetails) : Prop :=
  (exists attr_type, fields.getattr (kd_type d) = Some (fields.KeyClass attr_type)) /\
  is_Some (types.getattr (kd_data_type d)).

(** The key field that an entry is built into. *)
Definition built_from (d : KeyDetails) (k : Key) : Prop :=
  fields.getattr (kd_type d) = Some (fields.KeyClass (key_attr_type k)) /\
  key_name k = kd_name d /\
  types.getattr (kd_data_type d) = Some (key_data_type k).

(** The description with other attribute definitions. *)
Definition with_attribute_definitions (defs : list AttributeDefinition)
    (meta : TableDescription) : TableDescription :=
  {| KeySchema := KeySchema meta;
     AttributeDefinitions := defs;
     GlobalSecondaryIndexes := GlobalSecondaryIndexes meta |}.

(** The kinds of index calls. *)
Definition is_delete (c : Call) : Prop :=
  exists tn n, c = DeleteGlobalSecondaryIndex tn n.

Definition is_create_or_update (c : Call) : Prop :=
  (exists tn idx, c = CreateGlobalSecondaryIndex tn idx) \/
  (exists tn n thr, c = UpdateGlobalSecondaryIndex tn n thr).

(** The throughput that [_get_or_default_throughput] resolves to. *)
Definition resolves_to (thr : throughput_arg) (c : Config) (t : Throughput) : Prop :=
  match thr with
  | ThroughputDict t' => t' = t
  | ThroughputFalse => yaml_default_throughput (yaml c) = Some t
  end.

(** Further examples: a configuration with columns, and one in which the
    local and the global section both name an index [A] for [users]. *)
Definition example_yaml_columns : Yaml :=
  {| yaml_schemas := yaml_schemas example_yaml;
     yaml_global_indexes := yaml_global_indexes example_yaml;
     yaml_indexes :=
       Some {[ "users" :=
                 [ {| id_type := "AllIndex"; id_name := "A"; id_parts := None; id_throughput := None |} ] ]};
     yaml_columns :=
       Some {[ "users" := {[ "age" := "NUMBER"; "email" := "STRING" ]} ]};
     yaml_default_throughput := None |}.

Definition example_config_columns : Config :=
  {| yaml := example_yaml_columns;
     namespace := PStr "dev_";
     aws_access_key_id := PStr "key";
     aws_secret_access_key := PStr "secret";
     host := PNone;
     port := PNone;
     is_secure := PNone |}.

Definition example_loaded_columns : World :=
  {| _cached_config := Some example_config_columns;
     environ := example_environ;
     files := ∅;
     CONFIG_PATH := "/etc/cc_dynamodb.yaml";
     remote := example_service;
     calls := [];
     log := [] |}.

(** Upstream already has the local indexes [A] and [B]. *)
Definition example_upstream_in_sync : TableDescription :=
  {| KeySchema := KeySchema example_upstream;
     AttributeDefinitions := AttributeDefinitions example_upstream;
     GlobalSecondaryIndexes :=
       Some [ {| IndexName := "A"; ProvisionedThroughput := {| read := 1; write := 1 |} |};
              {| IndexName := "B"; ProvisionedThroughput := {| read := 1; write := 1 |} |} ] |}.

Definition example_service_in_sync : Service :=
  {| describe_response := fun _ _ => Ok example_upstream_in_sync;
     response := fun _ _ => None |}.

(** The table is not there: describe says so. *)
Definition example_not_found : exn :=
  JSONResponseError 400 (Some "ResourceNotFoundException") "Requested resource not found".

Definition example_service_not_found : Service :=
  {| describe_response := fun _ _ => Raise example_not_found;
     response := fun _ _ => None |}.

(** A table with a hash and a range key, and its description upstream with
    the entries in another order and one more attribute. *)
Definition example_keys : list Key :=
  [ {| key_attr_type := PStr "HASH"; key_name := "id"; key_data_type := "S" |};
    {| key_attr_type := PStr "RANGE"; key_name := "created"; key_data_type := "N" |} ].

Definition example_upstream_keys : TableDescription :=
  {| KeySchema :=
       [ {| ks_AttributeName := "created"; ks_KeyType := PStr "RANGE" |};
         {| ks_AttributeName := "id"; ks_KeyType := PStr "HASH" |} ];
     AttributeDefinitions :=
       [ {| ad_AttributeName := "email"; ad_AttributeType := "S" |};
         {| ad_AttributeName := "created"; ad_AttributeType := "N" |};
         {| ad_AttributeName := "id"; ad_AttributeType := "S" |} ];
     GlobalSecondaryIndexes := None |}.


(** The handle with another throughput. *)
Definition with_throughput (t : Throughput) (d : Table) : Table :=
  {| table.table_name := table.table_name d;
     table.connection := table.connection d;
     table.throughput := t;
     table.schema := table.schema d;
     table.global_indexes := table.global_indexes d;
     table.indexes := table.indexes d |}.

(** The table a call is made on. *)
Definition call_table (c : Call) : string :=
  match c with
  | Create init_data => table.table_name init_data
  | Describe t => t
  | Update t _ => t
  | CreateGlobalSecondaryIndex t _ => t
  | UpdateGlobalSecondaryIndex t _ _ => t
  | DeleteGlobalSecondaryIndex t _ => t
  end.

(** The index class is one of the [Global*] classes. *)
Definition global_class (name : string) : Prop :=
  exists cls, fields.getattr name = Some (fields.IndexClass cls true).

(** A computation whose calls on the service all satisfy [P], and which
    does not replace the service. *)
Definition calling (P : Call -> Prop) {A} (m : M A) : Prop :=
  forall w, remote (m w).1 = remote w /\
    exists made, calls (m w).1 = (calls w ++ made)%list /\ Forall P made.

(** A call on the existing table [tn]: any call on [tn] but its creation. *)
Definition on_existing_table (tn : string) (c : Call) : Prop :=
  call_table c = tn /\ forall init_data, c <> Create init_data.

(** The exception [create_table] raises for an exception [e] of its body. *)
Definition raised_by_create_table (e : exn) : exn :=
  match e with
  | JSONResponseError status error_code body =>
      if (status =? 400) && bool_decide (error_code = Some "ResourceInUseException")
      then TableAlreadyExistsException body
      else e
  | _ => e
  end.

(** A world in which the configuration file is not there. *)
Definition example_world_no_file : World :=
  {| _cached_config := None;
     environ := example_environ;
     files := ∅;
     CONFIG_PATH := "/etc/cc_dynamodb.yaml";
     remote := example_service;
     calls := [];
     log := [] |}.

(** The columns of [users] in [example_yaml_columns]. *)
Definition example_columns : gmap string string :=
  {[ "age" := "NUMBER"; "email" := "STRING" ]}.

(** The local index [A] of [users] in [example_yaml_columns]. *)
Definition example_local_index_A : IndexDetails :=
  {| id_type := "AllIndex"; id_name := "A"; id_parts := None; id_throughput := None |}.

(** The order that [sorted] sorts by. *)
Definition key_le {A} (key : A -> string) (x y : A) : Prop :=
  String.leb (key x) (key y) = true.

(** Keyword arguments that override the namespace and the port. *)
Definition example_kwargs : gmap string pyval :=
  {[ "namespace" := PStr "prod_"; "port" := PStr "9000" ]}.

(** The throughput update of one index to the throughput it was built with. *)
Definition throughput_update (tn : string) (index : Index) : option Call :=
  UpdateGlobalSecondaryIndex tn (index_name index) <$> index_throughput index.

(** The index calls that the comparison by name of the local global indexes
    with the upstream ones asks for, read off the two lists: a creation for
    each local index whose name is not upstream, with the index as it was
    built; a throughput update for each local index whose name is upstream,
    with the throughput of the built index; a deletion for each upstream
    name that is not local. *)
Definition planned_calls (tn : string) (locals : list Index) (upstream : list UpstreamIndex)
  : list Call :=
  let upstream_names := IndexName <$> upstream in
  let local_names := index_name <$> locals in
  ((CreateGlobalSecondaryIndex tn <$>
      filter (fun index => index_name index ∉ upstream_names) locals)
   ++ omap (throughput_update tn)
        (filter (fun index => index_name index ∈ upstream_names) locals)
   ++ (DeleteGlobalSecondaryIndex tn <$>
         filter (fun n => n ∉ local_names) upstream_names))%list.

(** A configuration in which the entry of the index [B] declares a
    throughput of its own, read 20 and write 20. *)
Definition example_index_B_declared : IndexDetails :=
  {| id_type := "GlobalAllIndex"; id_name := "B"; id_parts := None;
     id_throughput := Some {| read := 20; write := 20 |} |}.

Definition example_yaml_declared : Yaml :=
  {| yaml_schemas := yaml_schemas example_yaml;
     yaml_global_indexes :=
       Some {[ "users" :=
                 [ {| id_type := "GlobalAllIndex"; id_name := "A";
                      id_parts := Some [ {| kd_type := "HashKey"; kd_name := "email";
                                            kd_data_type := "STRING" |} ];
                      id_throughput := None |};
                   example_index_B_declared ] ]};
     yaml_indexes := None;
     yaml_columns := None;
     yaml_default_throughput := Some {| read := 10; write := 10 |} |}.

Definition example_loaded_declared : World :=
  {| _cached_config :=
       Some {| yaml := example_yaml_declared;
               namespace := PStr "dev_";
               aws_access_key_id := PStr "key";
               aws_secret_access_key := PStr "secret";
               host := PNone;
               port := PInt 8000;
               is_secure := PNone |};
     environ := example_environ;
     files := {[ "/etc/cc_dynamodb.yaml" := example_yaml_declared ]};
     CONFIG_PATH := "/etc/cc_dynamodb.yaml";
     remote := example_service;
     calls := [];
     log := [] |}.

(** A world with nothing in it: no configuration file, no environment. *)
Definition example_world_unconfigured : World :=
  {| _cached_config := None;
     environ := ∅;
     files := ∅;
     CONFIG_PATH := "/etc/cc_dynamodb.yaml";
     remote := example_service;
     calls := [];
     log := [] |}.

(** A port that is not a number. *)
Definition example_kwargs_bad_port : gmap string pyval :=
  {[ "port" := PStr "eight" ]}.

(** * Proofs *)

(** Unfolds the monad operations, so that a run can be followed by
    rewriting with what is known about each step. *)
Ltac unfold_monad :=
  unfold raise_if, logger in *;
  unfold mbind, M_bind, mret, M_ret, raise, lift, get_world, modify in *.

(** ** The helpers on small inputs *)

Example int_of_str_port : int_of_str " 8000" = Some 8000.
Proof. reflexivity. Qed.

Example int_of_str_signed : int_of_str "-12" = Some (-12).
Proof. reflexivity. Qed.

Example int_of_str_rejects_words : int_of_str "eight" = None.
Proof. reflexivity. Qed.

Example int_of_str_rejects_empty : int_of_str "" = None.
Proof. reflexivity. Qed.

Example sorted_is_ascending :
  sorted ks_AttributeName
    [ {| ks_AttributeName := "ts"; ks_KeyType := PStr "RANGE" |};
      {| ks_AttributeName := "id"; ks_KeyType := PStr "HASH" |} ]
  = [ {| ks_AttributeName := "id"; ks_KeyType := PStr "HASH" |};
      {| ks_AttributeName := "ts"; ks_KeyType := PStr "RANGE" |} ].
Proof. reflexivity. Qed.

Example sorted_is_stable :
  sorted ks_AttributeName
    [ {| ks_AttributeName := "id"; ks_KeyType := PStr "RANGE" |};
      {| ks_AttributeName := "a"; ks_KeyType := PStr "HASH" |};
      {| ks_AttributeName := "id"; ks_KeyType := PStr "HASH" |} ]
  = [ {| ks_AttributeName := "a"; ks_KeyType := PStr "HASH" |};
      {| ks_AttributeName := "id"; ks_KeyType := PStr "RANGE" |};
      {| ks_AttributeName := "id"; ks_KeyType := PStr "HASH" |} ].
Proof. reflexivity. Qed.

Example dict_of_pairs_last_wins :
  dict_of_pairs [("a", 1); ("b", 2); ("a", 3)] !! "a" = Some 3.
Proof. vm_compute. reflexivity. Qed.

Example slice_from_prefix : slice_from 4 "dev_users" = "users".
Proof. reflexivity. Qed.

(** ** Loading the configuration *)

Lemma truthy_py_or_false a b :
  truthy (py_or a b) = false <-> truthy a = false /\ truthy b = false.
Proof.
  unfold py_or. destruct (truthy a) eqn:Ha; split.
  - intros H. congruence.
  - intros [H _]. discriminate.
  - intros H. auto.
  - intros [_ H]. exact H.
Qed.

Lemma py_int_truthy v :
  truthy v = true -> (exists n, py_int v = Ok n) \/ (exists msg, py_int v = Raise (ValueError msg)).
Proof.
  destruct v; simpl; try discriminate; eauto.
  destruct (int_of_str s); eauto.
Qed.

(** When the file cannot be read, that error is the outcome and the cache
    is left as it was. *)
Lemma set_config_file_error (kwargs : gmap string pyval) (w : World) (e : exn) :
  load_yaml (config_path_of kwargs w) w = (w, Raise e) ->
  set_config kwargs w = (w, Raise e).
Proof.
  intros Hload. unfold config_path_of in Hload. unfold set_config. unfold_monad.
  by rewrite Hload.
Qed.

(** C6: provided the configuration file is read, [set_config] raises
    [ConfigurationError] exactly when the namespace, the access key id or
    the secret access key has no value from its keyword argument or its
    environment variable, or a port is supplied that [int] rejects.  It
    raises nothing else, and it makes no call on the service. *)
Theorem set_config_ConfigurationError_iff (kwargs : gmap string pyval) (w : World) (y : Yaml) :
  load_yaml (config_path_of kwargs w) w = (w, Ok y) ->
  ((exists msg, (set_config kwargs w).2 = Raise (ConfigurationError msg)) <->
     (no_value kwargs w "namespace" "CC_DYNAMODB_NAMESPACE"
      \/ no_value kwargs w "aws_access_key_id" "CC_DYNAMODB_ACCESS_KEY_ID"
      \/ no_value kwargs w "aws_secret_access_key" "CC_DYNAMODB_SECRET_ACCESS_KEY"
      \/ malformed_port kwargs w))
  /\ ((set_config kwargs w).2 = Ok tt \/
      exists msg, (set_config kwargs w).2 = Raise (ConfigurationError msg))
  /\ calls (set_config kwargs w).1 = calls w.
Proof.
  intros Hload. unfold config_path_of in Hload.
  unfold set_config, no_value, malformed_port. unfold_monad. rewrite Hload. cbn [namespace aws_access_key_id aws_secret_access_key port].
  rewrite <- !truthy_py_or_false.
  destruct (truthy (py_or (kwargs_get kwargs "namespace") _)) eqn:Hns; cbn.
  2:{ split; [|eauto]. split; eauto. }
  destruct (truthy (py_or (kwargs_get kwargs "aws_access_key_id") _)) eqn:Hak; cbn.
  2:{ split; [|eauto]. split; eauto. }
  destruct (truthy (py_or (kwargs_get kwargs "aws_secret_access_key") _)) eqn:Hsk; cbn.
  2:{ split; [|eauto]. split; eauto 6. }
  destruct (truthy (py_or (kwargs_get kwargs "port") _)) eqn:Hp; cbn.
  - destruct (py_int_truthy _ Hp) as [[n Hn]|[msg Hn]]; rewrite Hn; cbn.
    + split; [|eauto]. split.
      * intros [m Hm]. discriminate.
      * intros [H|[H|[H|[_ H]]]]; try discriminate. destruct (H n). reflexivity.
    + split; [|eauto]. split; [|eauto]. intros _. right; right; right. split; [reflexivity|].
      intros n; discriminate.
  - split; [|eauto]. split.
    + intros [m Hm]. discriminate.
    + intros [H|[H|[H|[H _]]]]; discriminate.
Qed.

Lemma set_config_cached (kwargs : gmap string pyval) (w : World) (y : Yaml) :
  load_yaml (config_path_of kwargs w) w = (w, Ok y) ->
  let c := resolved_config kwargs w y in
  _cached_config (set_config kwargs w).1 = Some c
  \/ exists n, py_int (port c) = Ok n /\
       _cached_config (set_config kwargs w).1 = Some (with_port (PInt n) c).
Proof.
  intros Hload c. unfold config_path_of in Hload.
  unfold set_config. unfold_monad. rewrite Hload.
  fold (resolved kwargs w "namespace" "CC_DYNAMODB_NAMESPACE").
  fold (resolved kwargs w "aws_access_key_id" "CC_DYNAMODB_ACCESS_KEY_ID").
  fold (resolved kwargs w "aws_secret_access_key" "CC_DYNAMODB_SECRET_ACCESS_KEY").
  fold (resolved kwargs w "host" "CC_DYNAMODB_HOST").
  fold (resolved kwargs w "port" "CC_DYNAMODB_PORT").
  fold (resolved kwargs w "is_secure" "CC_DYNAMODB_IS_SECURE").
  fold (resolved_config kwargs w y). fold c.
  clearbody c.
  destruct (truthy (namespace c)); cbn; [|by left].
  destruct (truthy (aws_access_key_id c)); cbn; [|by left].
  destruct (truthy (aws_secret_access_key c)); cbn; [|by left].
  destruct (truthy (port c)); cbn; [|by left].
  destruct (py_int (port c)) as [n|e] eqn:Hn; cbn.
  - right. exists n. split; reflexivity.
  - destruct e; cbn; by left.
Qed.

Lemma resolved_falsy (kwargs : gmap string pyval) (w : World) (key var : string) :
  truthy (kwargs_get kwargs key) = false ->
  resolved kwargs w key var = environ_get (environ w) var.
Proof. intros H. unfold resolved, py_or. by rewrite H. Qed.

(** C10: a falsy keyword argument counts as absent.  For each of the six
    fields, when the override is falsy the cached field is the value of the
    environment variable; for the port it is that value or, when [int]
    accepts it, its integer. *)
Theorem set_config_falsy_override_reads_environment
    (kwargs : gmap string pyval) (w : World) (y : Yaml) :
  load_yaml (config_path_of kwargs w) w = (w, Ok y) ->
  exists c, _cached_config (set_config kwargs w).1 = Some c /\
    (truthy (kwargs_get kwargs "namespace") = false ->
       namespace c = environ_get (environ w) "CC_DYNAMODB_NAMESPACE") /\
    (truthy (kwargs_get kwargs "aws_access_key_id") = false ->
       aws_access_key_id c = environ_get (environ w) "CC_DYNAMODB_ACCESS_KEY_ID") /\
    (truthy (kwargs_get kwargs "aws_secret_access_key") = false ->
       aws_secret_access_key c = environ_get (environ w) "CC_DYNAMODB_SECRET_ACCESS_KEY") /\
    (truthy (kwargs_get kwargs "host") = false ->
       host c = environ_get (environ w) "CC_DYNAMODB_HOST") /\
    (truthy (kwargs_get kwargs "port") = false ->
       port c = environ_get (environ w) "CC_DYNAMODB_PORT" \/
       exists n, py_int (environ_get (environ w) "CC_DYNAMODB_PORT") = Ok n /\ port c = PInt n) /\
    (truthy (kwargs_get kwargs "is_secure") = false ->
       is_secure c = environ_get (environ w) "CC_DYNAMODB_IS_SECURE").
Proof.
  intros Hload.
  destruct (set_config_cached kwargs w y Hload) as [Hc|[n [Hn Hc]]].
  - eexists; split; [exact Hc|]. cbn.
    repeat split; intros H; try (by apply resolved_falsy).
    left. by apply resolved_falsy.
  - eexists; split; [exact Hc|]. cbn.
    repeat split; intros H; try (by apply resolved_falsy).
    right. exists n. split; [|reflexivity].
    cbn in Hn. by rewrite resolved_falsy in Hn.
Qed.

(** ** Table names *)

Lemma get_config_cached (kwargs : gmap string pyval) (w : World) (c : Config) :
  _cached_config w = Some c -> get_config kwargs w = (w, Ok c).
Proof. intros H. unfold get_config. unfold_monad. rewrite H. cbn. by rewrite H. Qed.

Lemma slice_from_app (ns name : string) :
  slice_from (String.length ns) (ns ++ name) = name.
Proof. induction ns as [|a ns IH]; [reflexivity|exact IH]. Qed.

(** C7: with a loaded configuration whose namespace is the string [ns],
    [get_table_name] prefixes [ns] and [get_reverse_table_name] takes it off
    again, for every table name (whether or not it contains [ns]). *)
Theorem get_reverse_table_name_inverts_get_table_name
    (w : World) (c : Config) (ns name : string) :
  _cached_config w = Some c ->
  namespace c = PStr ns ->
  get_table_name name w = (w, Ok (ns ++ name)) /\
  (get_table_name name ≫= get_reverse_table_name) w = (w, Ok name).
Proof.
  intros Hc Hns. unfold get_table_name, get_reverse_table_name. unfold_monad.
  rewrite !(get_config_cached _ _ _ Hc), Hns. cbn.
  rewrite !(get_config_cached _ _ _ Hc), Hns. cbn.
  by rewrite slice_from_app.
Qed.

(** ** Computations that leave the service alone *)

Create HintDb quiet.

Lemma quiet_ret {A} (a : A) : quiet (mret a).
Proof. by intros w. Qed.

Lemma quiet_raise {A} (e : exn) : quiet (@raise A e).
Proof. by intros w. Qed.

Lemma quiet_lift {A} (r : result A) : quiet (lift r).
Proof. by intros w. Qed.

Lemma quiet_get_world : quiet get_world.
Proof. by intros w. Qed.

Lemma quiet_bind {A B} (m : M A) (f : A -> M B) :
  quiet m -> (forall a, quiet (f a)) -> quiet (m ≫= f).
Proof.
  intros Hm Hf w. unfold mbind, M_bind. specialize (Hm w).
  destruct (m w) as [w' [a|e]]; cbn in *.
  - destruct (Hf a w') as [-> ->]. exact Hm.
  - exact Hm.
Qed.

Lemma quiet_set__cached_config (c : option Config) : quiet (modify (set__cached_config c)).
Proof. by intros w. Qed.

Lemma quiet_logger (r : LogRecord) : quiet (logger r).
Proof. by intros w. Qed.

Lemma quiet_raise_if (b : bool) (e : exn) : quiet (raise_if b e).
Proof. destruct b; by intros w. Qed.

Lemma quiet_load_yaml (p : pyval) : quiet (load_yaml p).
Proof. intros w. unfold load_yaml. destruct p; try done. by destruct (files w !! s). Qed.

Global Hint Resolve quiet_ret quiet_raise quiet_lift quiet_get_world quiet_bind
  quiet_set__cached_config quiet_logger quiet_raise_if quiet_load_yaml : quiet.

Ltac quiet_tac :=
  repeat first
    [ apply quiet_bind; [|intros ?]
    | progress eauto with quiet
    | match goal with
      | |- quiet (match ?x with _ => _ end) => destruct x
      | |- quiet (if ?b then _ else _) => destruct b
      | |- quiet (let '(_, _) := ?x in _) => destruct x
      end ].

Lemma quiet_set_config (kwargs : gmap string pyval) : quiet (set_config kwargs).
Proof. unfold set_config. quiet_tac. Qed.
Global Hint Resolve quiet_set_config : quiet.

Lemma quiet_get_config (kwargs : gmap string pyval) : quiet (get_config kwargs).
Proof. unfold get_config. quiet_tac. Qed.
Global Hint Resolve quiet_get_config : quiet.

Lemma quiet__get_table_metadata (table_name : string) : quiet (_get_table_metadata table_name).
Proof. unfold _get_table_metadata. quiet_tac. Qed.

Lemma quiet_get_table_name (table_name : string) : quiet (get_table_name table_name).
Proof. unfold get_table_name. quiet_tac. Qed.

Lemma quiet_get_connection : quiet get_connection.
Proof. unfold get_connection. quiet_tac. Qed.

Lemma quiet__get_or_default_throughput (t : throughput_arg) :
  quiet (_get_or_default_throughput t).
Proof. unfold _get_or_default_throughput. quiet_tac. Qed.

Global Hint Resolve quiet__get_table_metadata quiet_get_table_name quiet_get_connection
  quiet__get_or_default_throughput : quiet.

Lemma quiet__get_table_init_data (table_name : string) (conn : option Connection)
    (t : throughput_arg) : quiet (_get_table_init_data table_name conn t).
Proof. unfold _get_table_init_data, connection_or_default. quiet_tac. Qed.

(** ** Table creation *)

(** C5: when the service answers the create call with the "table already
    exists" error, [create_table] raises [TableAlreadyExistsException] with
    the body of that error; any other error of the create call is raised
    as it is. *)
Theorem create_table_error_translation
    (w w1 : World) (name : string) (conn : option Connection) (thr : throughput_arg)
    (init_data : Table) (e : exn) :
  _get_table_init_data name conn thr w = (w1, Ok init_data) ->
  response (remote w1) (calls w1) (Create init_data) = Some e ->
  (forall body, e = JSONResponseError 400 (Some "ResourceInUseException") body ->
     (create_table name conn thr w).2 = Raise (TableAlreadyExistsException body)) /\
  (~ in_use e -> (create_table name conn thr w).2 = Raise e).
Proof.
  intros Hinit Hresp. unfold create_table, try_except, service_call.
  unfold_monad. rewrite Hinit, Hresp. cbn. split.
  - intros body ->. reflexivity.
  - intros Hne. destruct e; try reflexivity.
    destruct (status =? 400) eqn:Hs; [|reflexivity]. cbn.
    case_bool_decide as Hc; [|reflexivity].
    destruct Hne. exists body. apply Z.eqb_eq in Hs. by subst.
Qed.

(** ** Primary key validation *)

Lemma local_attributes_all (local : list Key) :
  filter (fun item => ad_AttributeName (key_definition item)
                      ∈ (ks_AttributeName <$> (key_schema <$> local))) local = local.
Proof.
  assert (H : forall l : list Key, (forall k, k ∈ l -> k ∈ local) ->
     filter (fun item => ad_AttributeName (key_definition item)
                      ∈ (ks_AttributeName <$> (key_schema <$> local))) l = l).
  { induction l as [|k l IH]; intros Hsub; [reflexivity|].
    rewrite filter_cons. destruct (decide _) as [_|Hn].
    - f_equal. apply IH. intros k' Hk'. apply Hsub. by right.
    - destruct Hn. rewrite <- list_fmap_compose.
      apply (list_elem_of_fmap_2 (ks_AttributeName ∘ key_schema) local k).
      apply Hsub. left. }
  by apply H.
Qed.

Lemma _validate_schema_differs (local : list Key) (meta : TableDescription) :
  schema_differs local meta <->
  exists msg, _validate_schema local meta = Raise (UpdateTableException msg).
Proof.
  unfold schema_differs, _validate_schema, upstream_key_attributes.
  rewrite local_attributes_all.
  repeat case_bool_decide; split; intros Hx; eauto; try tauto.
  destruct Hx as [msg Hx]. discriminate.
Qed.

(** ** Index lookup and reconciliation, for every iteration order *)

Section iteration_order.

Variable dict_items : forall V, gmap string V -> list (string * V).

(** All that is known of the order in which a dict is iterated: each item
    comes once. *)
Hypothesis dict_items_perm : forall V (m : gmap string V), dict_items V m ≡ₚ map_to_list m.

Lemma first_named_None (index_name : string) (l : list IndexDetails) :
  (forall index, index ∈ l -> id_name index <> index_name) ->
  first_named index_name l = None.
Proof.
  induction l as [|x l IH]; intros H; [reflexivity|]. cbn.
  destruct (String.eqb_spec (id_name x) index_name) as [E|_].
  - destruct (H x); [left|exact E].
  - apply IH. intros i Hi. apply H. by right.
Qed.

Lemma search_indexes_None (table_name index_name : string)
    (l : list (string * list IndexDetails)) :
  (forall table_indexes index, (table_name, table_indexes) ∈ l ->
      index ∈ table_indexes -> id_name index <> index_name) ->
  search_indexes table_name index_name l = None.
Proof.
  induction l as [|[t ti] l IH]; intros H; [reflexivity|]. cbn.
  destruct (String.eqb_spec t table_name) as [->|_].
  - rewrite first_named_None.
    + apply IH. intros ti' i Hin. apply H. by right.
    + intros i Hi. apply (H ti); [left|exact Hi].
  - apply IH. intros ti' i Hin. apply H. by right.
Qed.

Lemma dict_items_lookup {V} (m : gmap string V) (k : string) (v : V) :
  (k, v) ∈ dict_items V m <-> m !! k = Some v.
Proof. rewrite dict_items_perm. apply elem_of_map_to_list. Qed.

(** C9: with a loaded configuration that declares no index [index_name]
    for [table_name], in the local or in the global section,
    [get_table_index] returns [None] and raises nothing. *)
Theorem get_table_index_undeclared_returns_None
    (w : World) (c : Config) (table_name index_name : string) :
  _cached_config w = Some c ->
  ~ declares_index (yaml c) table_name index_name ->
  get_table_index dict_items table_name index_name w = (w, Ok None).
Proof.
  intros Hc Hnot. unfold get_table_index. unfold_monad.
  rewrite (get_config_cached _ _ _ Hc).
  rewrite search_indexes_None; [reflexivity|].
  intros ti i Hin Hi Hname. apply Hnot.
  apply elem_of_app in Hin as [Hin|Hin]; apply dict_items_lookup in Hin.
  - left. destruct (yaml_indexes (yaml c)) as [m|] eqn:E; cbn in Hin.
    + by exists m, ti, i.
    + by rewrite lookup_empty in Hin.
  - right. destruct (yaml_global_indexes (yaml c)) as [m|] eqn:E; cbn in Hin.
    + by exists m, ti, i.
    + by rewrite lookup_empty in Hin.
Qed.
(** C2: when the description is obtained and the local primary key differs
    from it, in the sorted key schema or in the sorted attribute definitions
    of the key attributes, [update_table] raises [UpdateTableException], and
    the describe call is the only call it has made: no throughput update,
    no index call. *)
Theorem update_table_schema_mismatch
    (w w1 : World) (name : string) (conn : option Connection) (thr : throughput_arg)
    (db_table : Table) (meta : TableDescription) :
  _get_table_init_data name conn thr w = (w1, Ok db_table) ->
  describe_response (remote w1) (calls w1) (table.table_name db_table) = Ok meta ->
  schema_differs (table.schema db_table) meta ->
  (exists msg, (update_table dict_items name conn thr w).2 = Raise (UpdateTableException msg))
  /\ calls (update_table dict_items name conn thr w).1
     = (calls w ++ [Describe (table.table_name db_table)])%list.
Proof.
  intros Hinit Hdesc Hdiff.
  apply _validate_schema_differs in Hdiff as [msg Hmsg].
  pose proof (quiet__get_table_init_data name conn thr w) as [Hcalls _].
  rewrite Hinit in Hcalls. cbn in Hcalls.
  unfold update_table, try_except, describe. unfold_monad.
  rewrite Hinit, Hdesc, Hmsg. cbn. rewrite Hcalls. eauto.
Qed.

Lemma service_call_accepted (c : Call) (w : World) :
  accepting (remote w) -> service_call c w = (add_call c w, Ok tt).
Proof. intros H. unfold service_call. by rewrite H. Qed.

Lemma for_each_cons {A} (x : A) (xs : list A) (body : A -> M unit) (w : World) :
  for_each (x :: xs) body w =
  match body x w with
  | (w', Ok _) => for_each xs body w'
  | (w', Raise e) => (w', Raise e)
  end.
Proof. reflexivity. Qed.

Lemma reconcile_local_accepted (db_table : Table) (name : string)
    (U : gmap string UpstreamIndex) (item : string * Index) (w : World) :
  accepting (remote w) ->
  is_Some (index_throughput item.2) ->
  exists c r, local_call (table.table_name db_table) U item = Some c /\
    reconcile_local db_table name U item w = (add_log r (add_call c w), Ok tt).
Proof.
  intros Hacc [thr Hthr]. destruct item as [n idx]. cbn in Hthr.
  unfold local_call, reconcile_local. cbn [fst snd]. unfold_monad.
  destruct (U !! n); [rewrite Hthr|]; rewrite service_call_accepted by done;
    cbn; eauto.
Qed.

Lemma reconcile_upstream_accepted (db_table : Table) (name : string)
    (L : gmap string Index) (n : string) (w : World) :
  accepting (remote w) ->
  match upstream_call (table.table_name db_table) L n with
  | Some c => exists r, reconcile_upstream db_table name L n w
                        = (add_log r (add_call c w), Ok tt)
  | None => reconcile_upstream db_table name L n w = (w, Ok tt)
  end.
Proof.
  intros Hacc. unfold upstream_call, reconcile_upstream. unfold_monad.
  destruct (L !! n); [done|]. rewrite service_call_accepted by done. cbn. eauto.
Qed.

Lemma for_each_reconcile_local (db_table : Table) (name : string)
    (U : gmap string UpstreamIndex) (xs : list (string * Index)) (w : World) :
  accepting (remote w) ->
  (forall item, item ∈ xs -> is_Some (index_throughput item.2)) ->
  let r := for_each xs (reconcile_local db_table name U) w in
  r.2 = Ok tt /\ remote r.1 = remote w /\
  calls r.1 = (calls w ++ omap (local_call (table.table_name db_table) U) xs)%list.
Proof.
  revert w. induction xs as [|item xs IH]; intros w Hacc Hthr.
  { cbn. by rewrite app_nil_r. }
  destruct (reconcile_local_accepted db_table name U item w) as (c & r & Hc & Hstep).
  { done. }
  { apply Hthr. left. }
  cbv zeta. rewrite for_each_cons, Hstep. cbn [omap list_omap]. rewrite Hc.
  destruct (IH (add_log r (add_call c w))) as (-> & -> & ->).
  { done. }
  { intros i Hi. apply Hthr. by right. }
  cbn. by rewrite <- app_assoc.
Qed.

Lemma for_each_reconcile_upstream (db_table : Table) (name : string)
    (L : gmap string Index) (ns : list string) (w : World) :
  accepting (remote w) ->
  let r := for_each ns (reconcile_upstream db_table name L) w in
  r.2 = Ok tt /\ remote r.1 = remote w /\
  calls r.1 = (calls w ++ omap (upstream_call (table.table_name db_table) L) ns)%list.
Proof.
  revert w. induction ns as [|n ns IH]; intros w Hacc.
  { cbn. by rewrite app_nil_r. }
  pose proof (reconcile_upstream_accepted db_table name L n w Hacc) as Hstep.
  cbv zeta. rewrite for_each_cons. cbn [omap list_omap].
  destruct (upstream_call (table.table_name db_table) L n) as [c|].
  - destruct Hstep as [r ->].
    destruct (IH (add_log r (add_call c w))) as (-> & -> & ->); [done|].
    cbn. by rewrite <- app_assoc.
  - rewrite Hstep. by apply IH.
Qed.

Lemma dict_of_pairs_lookup {V} (key : V -> string) (l : list V) (k : string) (v : V) :
  dict_of_pairs ((fun x => (key x, x)) <$> l) !! k = Some v -> key v = k /\ v ∈ l.
Proof.
  unfold dict_of_pairs.
  assert (H : forall m : gmap string V,
    foldl (fun m p => <[p.1:=p.2]> m) m ((fun x => (key x, x)) <$> l) !! k = Some v ->
    (key v = k /\ v ∈ l) \/ m !! k = Some v).
  { induction l as [|x l IH]; intros m; cbn; [by right|].
    intros Hl. destruct (IH _ Hl) as [[E Hin]|Hm].
    - left. split; [done|by right].
    - destruct (decide (key x = k)) as [<-|Hne].
      + rewrite lookup_insert_eq in Hm. injection Hm as ->. left. split; [done|left].
      + rewrite lookup_insert_ne in Hm by done. by right. }
  intros Hl. destruct (H _ Hl) as [?|Hm]; [done|]. by rewrite lookup_empty in Hm.
Qed.

Lemma NoDup_omap_inj {A B} (f : A -> option B) (l : list A) :
  NoDup l ->
  (forall x y b, x ∈ l -> y ∈ l -> f x = Some b -> f y = Some b -> x = y) ->
  NoDup (omap f l).
Proof.
  induction 1 as [|x l Hx Hl IH]; intros Hinj; cbn; [constructor|].
  assert (IH' : NoDup (omap f l)).
  { apply IH. intros a b c Ha Hb. apply Hinj; by right. }
  destruct (f x) as [b|] eqn:Hfx; [|done].
  constructor; [|done]. intros Hin.
  apply list_elem_of_omap in Hin as (y & Hy & Hfy).
  assert (x = y) as <-; [|done].
  apply (Hinj x y b); [left|by right|done|done].
Qed.

Lemma dict_items_local (db_table : Table) (n : string) (idx : Index) :
  (n, idx) ∈ dict_items Index (local_indexes_by_name db_table) ->
  index_name idx = n /\ idx ∈ table.global_indexes db_table.
Proof. intros Hin. apply dict_items_lookup in Hin. by apply dict_of_pairs_lookup in Hin. Qed.

(** A run of [update_table] on an accepting service: the description is
    fetched, the table's throughput is updated with the argument as it was
    passed, then the two loops run to their end. *)
Lemma update_table_run
    (w w1 : World) (name : string) (conn : option Connection) (thr : throughput_arg)
    (db_table : Table) (meta : TableDescription) :
  _get_table_init_data name conn thr w = (w1, Ok db_table) ->
  describe_response (remote w1) (calls w1) (table.table_name db_table) = Ok meta ->
  _validate_schema (table.schema db_table) meta = Ok tt ->
  accepting (remote w1) ->
  Forall (fun index => is_Some (index_throughput index)) (table.global_indexes db_table) ->
  let tn := table.table_name db_table in
  let L := local_indexes_by_name db_table in
  let U := upstream_indexes_by_name meta in
  (update_table dict_items name conn thr w).2 = Ok db_table /\
  calls (update_table dict_items name conn thr w).1
    = (calls w ++ Describe tn :: Update tn thr ::
         (omap (local_call tn U) (dict_items Index L)
          ++ omap (upstream_call tn L) (dict_keys dict_items U)))%list.
Proof.
  intros Hinit Hdesc Hvalid Hacc Hthr tn L U.
  pose proof (quiet__get_table_init_data name conn thr w) as [Hcalls _].
  rewrite Hinit in Hcalls. cbn in Hcalls.
  rewrite Forall_forall in Hthr.
  unfold update_table, try_except, describe. unfold_monad.
  rewrite Hinit, Hdesc, Hvalid. cbn -[service_call for_each].
  rewrite service_call_accepted by done. cbn -[service_call for_each].
  fold (local_indexes_by_name db_table) (upstream_indexes_by_name meta).
  fold L U.
  match goal with |- context [for_each (dict_items Index L) ?b ?w'] =>
    destruct (for_each_reconcile_local db_table name U (dict_items Index L) w')
      as (E2 & Er & Ec) end.
  { done. }
  { intros [n idx] Hin. apply dict_items_local in Hin as [_ Hin]. by apply Hthr. }
  cbn in Ec, Er, E2.
  match type of E2 with (?x).2 = _ => destruct x as [w2 r2] end.
  cbn in Ec, Er, E2. subst r2. cbn.
  destruct (for_each_reconcile_upstream db_table name L (dict_keys dict_items U) w2)
      as (E3 & Er3 & Ec3).
  { by rewrite Er. }
  match type of E3 with (?x).2 = _ => destruct x as [w3 r3] end.
  cbn in Ec3, Er3, E3. subst r3. cbn. split; [reflexivity|].
  rewrite Ec3, Ec. cbn. rewrite Hcalls.
  rewrite <- !app_assoc. cbn. reflexivity.
Qed.

Lemma dict_keys_lookup {V} (m : gmap string V) (n : string) :
  n ∈ dict_keys dict_items m <-> is_Some (m !! n).
Proof.
  unfold dict_keys. rewrite list_elem_of_fmap. split.
  - intros ([k v] & -> & Hin). apply dict_items_lookup in Hin. by exists v.
  - intros [v Hv]. exists (n, v). split; [done|]. by apply dict_items_lookup.
Qed.

(** The calls of the two loops are the planned ones, each made once. *)
Lemma loops_make_the_planned_calls (tn : string) (db_table : Table)
    (U : gmap string UpstreamIndex) :
  Forall (fun index => is_Some (index_throughput index)) (table.global_indexes db_table) ->
  let L := local_indexes_by_name db_table in
  let ops := (omap (local_call tn U) (dict_items Index L)
              ++ omap (upstream_call tn L) (dict_keys dict_items U))%list in
  NoDup ops /\ forall c, c ∈ ops <-> planned tn L U c.
Proof.
  intros Hthr L ops. rewrite Forall_forall in Hthr.
  assert (HL : forall n idx, L !! n = Some idx ->
            index_name idx = n /\ is_Some (index_throughput idx)).
  { intros n idx Hl. apply dict_of_pairs_lookup in Hl as [E Hin]. split; [done|by apply Hthr]. }
  split.
  - apply NoDup_app. split; [|split].
    + apply NoDup_omap_inj.
      * rewrite dict_items_perm. apply NoDup_map_to_list.
      * intros [n idx] [n' idx'] b Hx Hy Hfx Hfy.
        apply dict_items_lookup in Hx, Hy. destruct (HL _ _ Hx) as [<- [t Ht]].
        destruct (HL _ _ Hy) as [<- [t' Ht']].
        unfold local_call in Hfx, Hfy. cbn in Hfx, Hfy.
        rewrite Ht in Hfx. rewrite Ht' in Hfy.
        destruct (U !! index_name idx), (U !! index_name idx'); cbn in *; simplify_eq.
        -- f_equal; [done|]. congruence.
        -- done.
    + intros c Hc Hc'.
      apply list_elem_of_omap in Hc as ([n idx] & _ & Hf).
      apply list_elem_of_omap in Hc' as (n' & _ & Hf').
      unfold local_call in Hf. unfold upstream_call in Hf'. cbn in Hf.
      destruct (L !! n'); [done|]. injection Hf' as <-.
      destruct (U !! n); [|done]. by destruct (index_throughput idx).
    + apply NoDup_omap_inj.
      * unfold dict_keys. rewrite dict_items_perm. apply NoDup_fst_map_to_list.
      * intros n n' b _ _ Hf Hf'. unfold upstream_call in *.
        destruct (L !! n), (L !! n'); congruence.
  - intros c. unfold ops. rewrite elem_of_app, !list_elem_of_omap. split.
    + intros [([n idx] & Hin & Hf)|(n & Hin & Hf)].
      * apply dict_items_lookup in Hin. destruct (HL _ _ Hin) as [_ [t Ht]].
        unfold local_call in Hf. cbn in Hf. rewrite Ht in Hf.
        destruct (U !! n) eqn:HU; cbn in Hf; injection Hf as <-.
        -- by eapply planned_update.
        -- by eapply planned_create.
      * apply dict_keys_lookup in Hin. unfold upstream_call in Hf.
        destruct (L !! n) eqn:Hl; [done|]. injection Hf as <-.
        by apply planned_delete.
    + intros [n idx Hl HU|n idx t Hl [u HU] Ht|n HU Hl].
      * left. exists (n, idx). split; [by apply dict_items_lookup|].
        unfold local_call. cbn. by rewrite HU.
      * left. exists (n, idx). split; [by apply dict_items_lookup|].
        unfold local_call. cbn. by rewrite HU, Ht.
      * right. exists n. split; [by apply dict_keys_lookup|].
        unfold upstream_call. by rewrite Hl.
Qed.

(** The throughput update of the table is made once, and with the
    [throughput] argument as the caller passed it. *)
Lemma update_table_update_call
    (w w1 : World) (name : string) (conn : option Connection) (thr : throughput_arg)
    (db_table : Table) (meta : TableDescription) :
  _get_table_init_data name conn thr w = (w1, Ok db_table) ->
  describe_response (remote w1) (calls w1) (table.table_name db_table) = Ok meta ->
  _validate_schema (table.schema db_table) meta = Ok tt ->
  accepting (remote w1) ->
  Forall (fun index => is_Some (index_throughput index)) (table.global_indexes db_table) ->
  exists ops,
    calls (update_table dict_items name conn thr w).1
      = (calls w ++ Describe (table.table_name db_table)
           :: Update (table.table_name db_table) thr :: ops)%list /\
    forall t' thr', Update t' thr' ∉ ops.
Proof.
  intros Hinit Hdesc Hvalid Hacc Hthr.
  destruct (update_table_run w w1 name conn thr db_table meta) as [Hres Hcalls]; try done.
  eexists. split; [exact Hcalls|].
  intros t' thr' Hin.
  destruct (loops_make_the_planned_calls (table.table_name db_table) db_table
              (upstream_indexes_by_name meta) Hthr) as [_ Hops].
  apply Hops in Hin. inversion Hin.
Qed.

(** An error of the table's throughput update that is a [JSONResponseError]
    but not the "table not found" one is caught and dropped: the handler
    has no [raise] for it, and [update_table] returns the handle. *)
Lemma update_table_swallows_update_error
    (w w1 : World) (name : string) (conn : option Connection) (thr : throughput_arg)
    (db_table : Table) (meta : TableDescription)
    (status : Z) (error_code : option string) (body : string) :
  _get_table_init_data name conn thr w = (w1, Ok db_table) ->
  describe_response (remote w1) (calls w1) (table.table_name db_table) = Ok meta ->
  _validate_schema (table.schema db_table) meta = Ok tt ->
  response (remote w1) (calls w1 ++ [Describe (table.table_name db_table)])%list
    (Update (table.table_name db_table) thr)
    = Some (JSONResponseError status error_code body) ->
  ~ not_found (JSONResponseError status error_code body) ->
  (update_table dict_items name conn thr w).2 = Ok db_table.
Proof.
  intros Hinit Hdesc Hvalid Hresp Hnf.
  unfold update_table, try_except, describe, service_call. unfold_monad.
  rewrite Hinit, Hdesc, Hvalid. cbn. rewrite Hresp. cbn.
  destruct (status =? 400) eqn:Hs; [|reflexivity]. cbn.
  case_bool_decide as Hc; [|reflexivity].
  destruct Hnf. exists body. apply Z.eqb_eq in Hs. by subst.
Qed.

(** The "table not found" answer to the describe call becomes
    [UnknownTableException]. *)
Lemma update_table_describe_not_found
    (w w1 : World) (name : string) (conn : option Connection) (thr : throughput_arg)
    (db_table : Table) (body : string) :
  _get_table_init_data name conn thr w = (w1, Ok db_table) ->
  describe_response (remote w1) (calls w1) (table.table_name db_table)
    = Raise (JSONResponseError 400 (Some "ResourceNotFoundException") body) ->
  (update_table dict_items name conn thr w).2
    = Raise (UnknownTableException ("Unknown table: " ++ name)).
Proof.
  intros Hinit Hdesc. unfold update_table, try_except, describe. unfold_monad.
  rewrite Hinit, Hdesc. cbn. by rewrite bool_decide_eq_true_2.
Qed.

(** An error of the describe call that is not a [JSONResponseError] is not
    for the handler, and reaches the caller. *)
Lemma update_table_propagates_other_exceptions
    (w w1 : World) (name : string) (conn : option Connection) (thr : throughput_arg)
    (db_table : Table) (e : exn) :
  _get_table_init_data name conn thr w = (w1, Ok db_table) ->
  describe_response (remote w1) (calls w1) (table.table_name db_table) = Raise e ->
  (forall status error_code body, e <> JSONResponseError status error_code body) ->
  (update_table dict_items name conn thr w).2 = Raise e.
Proof.
  intros Hinit Hdesc Hne. unfold update_table, try_except, describe. unfold_monad.
  rewrite Hinit, Hdesc. cbn. destruct e; try reflexivity. by destruct (Hne status error_code body).
Qed.

End iteration_order.

(** ** Two runs of [update_table] *)

(** Local indexes [A] and [B], upstream indexes [B] and [C]: [A] is created,
    [B] has its throughput updated, [C] is deleted. *)
Example update_table_A_B_against_B_C :
  calls (update_table items_in_map_order "users" None
           (ThroughputDict {| read := 20; write := 20 |})
           (example_loaded example_service)).1
  = [Describe "dev_users";
     Update "dev_users" (ThroughputDict {| read := 20; write := 20 |});
     CreateGlobalSecondaryIndex "dev_users" example_index_A;
     UpdateGlobalSecondaryIndex "dev_users" "B" {| read := 5; write := 5 |};
     DeleteGlobalSecondaryIndex "dev_users" "C"].
Proof. vm_compute. reflexivity. Qed.

(** The same with the dicts iterated the other way round: the same three
    index calls, in another order. *)
Example update_table_A_B_against_B_C_reversed :
  calls (update_table items_in_reverse_order "users" None
           (ThroughputDict {| read := 20; write := 20 |})
           (example_loaded example_service)).1
  = [Describe "dev_users";
     Update "dev_users" (ThroughputDict {| read := 20; write := 20 |});
     UpdateGlobalSecondaryIndex "dev_users" "B" {| read := 5; write := 5 |};
     CreateGlobalSecondaryIndex "dev_users" example_index_A;
     DeleteGlobalSecondaryIndex "dev_users" "C"].
Proof. vm_compute. reflexivity. Qed.

(** C1: the service answers the throughput update of the table with an
    internal error (HTTP 500), which is not the "table not found" answer;
    [update_table] returns the handle as if nothing had happened, and the
    indexes are left as they were. *)
Theorem update_table_swallows_service_error :
  let w := example_loaded example_service_failing in
  let thr := ThroughputDict {| read := 20; write := 20 |} in
  response (remote w) [Describe "dev_users"] (Update "dev_users" thr)
    = Some example_internal_error /\
  ~ not_found example_internal_error /\
  (update_table items_in_map_order "users" None thr w).2
    = Ok (example_table_with {| read := 20; write := 20 |}) /\
  calls (update_table items_in_map_order "users" None thr w).1
    = [Describe "dev_users"; Update "dev_users" thr].
Proof.
  cbv zeta. split; [reflexivity|]. split; [|split; vm_compute; reflexivity].
  intros [body Hbody]. discriminate.
Qed.

(** C4: [update_table] is called without a throughput.  The configured
    default, read 10 and write 10, is what the handle is built with; the
    throughput update of the table is made once, but with [False]. *)
Theorem update_table_passes_unresolved_throughput :
  let w := example_loaded example_service in
  (_get_or_default_throughput ThroughputFalse w).2 = Ok {| read := 10; write := 10 |} /\
  (update_table items_in_map_order "users" None ThroughputFalse w).2 = Ok example_table /\
  table.throughput example_table = {| read := 10; write := 10 |} /\
  calls (update_table items_in_map_order "users" None ThroughputFalse w).1
    = [Describe "dev_users";
       Update "dev_users" ThroughputFalse;
       CreateGlobalSecondaryIndex "dev_users" example_index_A;
       UpdateGlobalSecondaryIndex "dev_users" "B" {| read := 5; write := 5 |};
       DeleteGlobalSecondaryIndex "dev_users" "C"].
Proof. cbv zeta. repeat split; vm_compute; reflexivity. Qed.


(** * The copy handed out by [get_config] *)

Module StoreFacts.
Import Store.
Local Open Scope list_scope.
Local Open Scope nat_scope.

(** Induction on trees, with the hypothesis for every child. *)
Lemma tree_rect' (P : tree -> Prop) :
  (forall p, P (TScalar p)) ->
  (forall items, Forall (fun kt => P kt.2) items -> P (TDict items)) ->
  (forall items, Forall P items -> P (TList items)) ->
  forall t, P t.
Proof.
  intros Hs Hd Hl. fix IH 1. intros [p|items|items].
  - apply Hs.
  - apply Hd. induction items as [|kt items IHi]; constructor; [apply IH|exact IHi].
  - apply Hl. induction items as [|t items IHi]; constructor; [apply IH|exact IHi].
Qed.

Lemma alloc_TDict (items : list (string * tree)) (h : heap) :
  alloc (TDict items) h =
  let '(h1, vs) := alloc_items items h in (h1 ++ [ODict vs], VRef (List.length h1)).
Proof.
  cbn [alloc].
  match goal with |- (let '(_, _) := ?f items h in _) = _ =>
    assert (E : forall its h', f its h' = alloc_items its h') end.
  { induction its as [|kt its IH]; intros h'; [reflexivity|].
    cbn [alloc_items]. destruct (alloc kt.2 h') as [h1 v]. by rewrite IH. }
  by rewrite E.
Qed.

Lemma alloc_TList (items : list tree) (h : heap) :
  alloc (TList items) h =
  let '(h1, vs) := alloc_list items h in (h1 ++ [OList vs], VRef (List.length h1)).
Proof.
  cbn [alloc].
  match goal with |- (let '(_, _) := ?f items h in _) = _ =>
    assert (E : forall its h', f its h' = alloc_list its h') end.
  { induction its as [|kt its IH]; intros h'; [reflexivity|].
    cbn [alloc_list]. destruct (alloc kt h') as [h1 v]. by rewrite IH. }
  by rewrite E.
Qed.

Lemma separated_snoc (n : nat) (h : heap) (o : obj) :
  separated n h -> Forall (val_from n) (obj_vals o) -> separated n (h ++ [o]).
Proof.
  intros Hs Ho l o' Hl Hlook.
  apply lookup_app_Some in Hlook as [Hlook|[_ Hlook]].
  - by apply (Hs l).
  - apply list_lookup_singleton_Some in Hlook as [_ <-]. exact Ho.
Qed.

Lemma alloc_separated (n : nat) (t : tree) :
  forall h h' v, alloc t h = (h', v) -> n <= List.length h -> separated n h ->
    alloc_ok n h h' /\ val_from n v.
Proof.
  induction t as [p|items IH|items IH] using tree_rect'; intros h h' v Ha Hn Hs.
  - injection Ha as <- <-. by repeat split.
  - rewrite alloc_TDict in Ha.
    assert (Hitems : forall h h1 vs, alloc_items items h = (h1, vs) ->
              n <= List.length h -> separated n h ->
              alloc_ok n h h1 /\ Forall (val_from n) vs.*2).
    { clear h h' v Ha Hn Hs. induction IH as [|kt items Hkt _ IHi]; intros h h1 vs Ha Hn Hs.
      - injection Ha as <- <-. by repeat split.
      - cbn [alloc_items] in Ha.
        destruct (alloc kt.2 h) as [ha va] eqn:Ea.
        destruct (alloc_items items ha) as [hb vb] eqn:Eb.
        injection Ha as <- <-.
        destruct (Hkt _ _ _ Ea Hn Hs) as [[Hp1 Hs1] Hv].
        destruct (IHi _ _ _ Eb) as [[Hp2 Hs2] Hvs]; [|done|].
        { apply prefix_length in Hp1. lia. }
        repeat split; [by etrans|done|]. cbn. by constructor. }
    destruct (alloc_items items h) as [h1 vs] eqn:E. injection Ha as <- <-.
    destruct (Hitems _ _ _ E Hn Hs) as [[Hp Hs1] Hvs].
    repeat split.
    + etrans; [exact Hp|]. by apply prefix_app_r.
    + by apply separated_snoc.
    + cbn. apply prefix_length in Hp. lia.
  - rewrite alloc_TList in Ha.
    assert (Hitems : forall h h1 vs, alloc_list items h = (h1, vs) ->
              n <= List.length h -> separated n h ->
              alloc_ok n h h1 /\ Forall (val_from n) vs).
    { clear h h' v Ha Hn Hs. induction IH as [|kt items Hkt _ IHi]; intros h h1 vs Ha Hn Hs.
      - injection Ha as <- <-. by repeat split.
      - cbn [alloc_list] in Ha.
        destruct (alloc kt h) as [ha va] eqn:Ea.
        destruct (alloc_list items ha) as [hb vb] eqn:Eb.
        injection Ha as <- <-.
        destruct (Hkt _ _ _ Ea Hn Hs) as [[Hp1 Hs1] Hv].
        destruct (IHi _ _ _ Eb) as [[Hp2 Hs2] Hvs]; [|done|].
        { apply prefix_length in Hp1. lia. }
        repeat split; [by etrans|done|]. by constructor. }
    destruct (alloc_list items h) as [h1 vs] eqn:E. injection Ha as <- <-.
    destruct (Hitems _ _ _ E Hn Hs) as [[Hp Hs1] Hvs].
    repeat split.
    + etrans; [exact Hp|]. by apply prefix_app_r.
    + by apply separated_snoc.
    + cbn. apply prefix_length in Hp. lia.
Qed.

Lemma separated_0 (h : heap) : separated 0 h.
Proof.
  intros l o _ _. apply Forall_forall. intros [p|l'] _; cbn; [done|lia].
Qed.

Lemma alloc_prefix (t : tree) (h h' : heap) (v : val) :
  alloc t h = (h', v) -> h `prefix_of` h'.
Proof.
  intros Ha. destruct (alloc_separated 0 t h h' v Ha) as [[Hp _] _]; [lia| |done].
  apply separated_0.
Qed.

Lemma alloc_items_prefix (items : list (string * tree)) :
  forall h h' vs, alloc_items items h = (h', vs) -> h `prefix_of` h'.
Proof.
  induction items as [|kt items IH]; intros h h' vs Ha; cbn [alloc_items] in Ha.
  - by injection Ha as <- <-.
  - destruct (alloc kt.2 h) as [ha va] eqn:Ea.
    destruct (alloc_items items ha) as [hb vb] eqn:Eb. injection Ha as <- <-.
    etrans; [by eapply alloc_prefix|by eapply IH].
Qed.

Lemma alloc_list_prefix (items : list tree) :
  forall h h' vs, alloc_list items h = (h', vs) -> h `prefix_of` h'.
Proof.
  induction items as [|kt items IH]; intros h h' vs Ha; cbn [alloc_list] in Ha.
  - by injection Ha as <- <-.
  - destruct (alloc kt h) as [ha va] eqn:Ea.
    destruct (alloc_list items ha) as [hb vb] eqn:Eb. injection Ha as <- <-.
    etrans; [by eapply alloc_prefix|by eapply IH].
Qed.

Lemma option_list_map_mono {A B} (f g : A -> option B) (l : list A) (r : list B) :
  (forall x b, x ∈ l -> f x = Some b -> g x = Some b) ->
  option_list (map f l) = Some r -> option_list (map g l) = Some r.
Proof.
  revert r. induction l as [|x l IH]; intros r Hfg; cbn; [done|].
  destruct (f x) as [b|] eqn:Hfx; [|done].
  destruct (option_list (map f l)) as [r'|] eqn:Hr; [|done].
  intros [= <-]. rewrite (Hfg x b); [|left|done].
  rewrite (IH r'); [done| |done]. intros y c Hy. apply Hfg. by right.
Qed.

Lemma option_list_map_ext {A B} (f g : A -> option B) (l : list A) :
  (forall x, x ∈ l -> f x = g x) ->
  option_list (map f l) = option_list (map g l).
Proof.
  induction l as [|x l IH]; intros Hfg; cbn; [done|].
  rewrite (Hfg x) by left. rewrite IH; [done|]. intros y Hy. apply Hfg. by right.
Qed.

Lemma reify_obj_mono (rec rec' : val -> option tree) (o : obj) (t : tree) :
  (forall v t', v ∈ obj_vals o -> rec v = Some t' -> rec' v = Some t') ->
  reify_obj rec o = Some t -> reify_obj rec' o = Some t.
Proof.
  intros Hrec. destruct o as [items|items]; cbn in *; intros Hr.
  - destruct (option_list (map _ items)) as [r|] eqn:E; [|done].
    erewrite option_list_map_mono; [exact Hr| |exact E].
    intros [k v] [k' t'] Hin. cbn.
    destruct (rec v) as [tv|] eqn:Ev; [|done]. cbn. intros [= <- <-].
    rewrite (Hrec v tv); [done| |done].
    apply list_elem_of_fmap. by exists (k, v).
  - destruct (option_list (map _ items)) as [r|] eqn:E; [|done].
    erewrite option_list_map_mono; [exact Hr| |exact E].
    intros v t' Hin. by apply Hrec.
Qed.

Lemma reify_obj_ext (rec rec' : val -> option tree) (o : obj) :
  (forall v, v ∈ obj_vals o -> rec v = rec' v) ->
  reify_obj rec o = reify_obj rec' o.
Proof.
  intros Hrec. destruct o as [items|items]; cbn in *; f_equal.
  - apply option_list_map_ext. intros [k v] Hin. cbn. rewrite Hrec; [done|].
    apply list_elem_of_fmap. by exists (k, v).
  - by apply option_list_map_ext.
Qed.

Lemma reify_fuel_mono (h : heap) (fuel : nat) :
  forall v t fuel', reify fuel h v = Some t -> fuel <= fuel' -> reify fuel' h v = Some t.
Proof.
  induction fuel as [|fuel IH]; intros [p|x] t fuel' Hr Hle; cbn [reify] in Hr; try done;
    try (by destruct fuel').
  destruct fuel' as [|fuel']; [lia|]. cbn [reify].
  destruct (h !! x) as [o|]; [|done].
  eapply reify_obj_mono; [|exact Hr]. intros v t' _ Hv. apply IH; [done|lia].
Qed.

Lemma reify_prefix (h h' : heap) (fuel : nat) :
  h `prefix_of` h' ->
  forall v t, reify fuel h v = Some t -> reify fuel h' v = Some t.
Proof.
  intros Hp. induction fuel as [|fuel IH]; intros [p|x] t Hr; cbn [reify] in *; try done.
  destruct (h !! x) as [o|] eqn:Hl; [|done].
  rewrite (prefix_lookup_Some _ _ _ _ Hl Hp).
  eapply reify_obj_mono; [|exact Hr]. intros v t' _. apply IH.
Qed.

Lemma reify_det (h : heap) (v : val) (f1 f2 : nat) (t1 t2 : tree) :
  reify f1 h v = Some t1 -> reify f2 h v = Some t2 -> t1 = t2.
Proof.
  intros H1 H2.
  apply (reify_fuel_mono _ _ _ _ (f1 `max` f2)) in H1; [|lia].
  apply (reify_fuel_mono _ _ _ _ (f1 `max` f2)) in H2; [|lia].
  congruence.
Qed.

Lemma reify_alloc (t : tree) :
  forall h h' v, alloc t h = (h', v) -> exists fuel, reify fuel h' v = Some t.
Proof.
  induction t as [p|items IH|items IH] using tree_rect'; intros h h' v Ha.
  - injection Ha as <- <-. by exists 0.
  - rewrite alloc_TDict in Ha.
    assert (Hitems : forall h h1 vs, alloc_items items h = (h1, vs) ->
              exists fuel, option_list
                (map (fun kv => pair kv.1 <$> reify fuel h1 kv.2) vs) = Some items).
    { clear h h' v Ha. induction IH as [|kt items Hkt _ IHi]; intros h h1 vs Ha.
      - injection Ha as <- <-. by exists 0.
      - cbn [alloc_items] in Ha.
        destruct (alloc kt.2 h) as [ha va] eqn:Ea.
        destruct (alloc_items items ha) as [hb vb] eqn:Eb.
        injection Ha as <- <-.
        destruct (Hkt _ _ _ Ea) as [f1 H1]. destruct (IHi _ _ _ Eb) as [f2 H2].
        exists (f1 `max` f2). cbn.
        rewrite (reify_fuel_mono hb f1 va kt.2); [|by eapply reify_prefix, H1; eapply alloc_items_prefix|lia].
        cbn. erewrite option_list_map_mono; [|intros x b Hin Hx| exact H2].
        + by destruct kt.
        + cbn in Hx. destruct (reify f2 hb x.2) as [tx|] eqn:Ex; [|done].
          rewrite (reify_fuel_mono hb f2 x.2 tx); [done|done|lia]. }
    destruct (alloc_items items h) as [h1 vs] eqn:E. injection Ha as <- <-.
    destruct (Hitems _ _ _ E) as [fuel Hf]. exists (S fuel). cbn.
    rewrite lookup_app_r by done. rewrite Nat.sub_diag. cbn.
    erewrite option_list_map_mono; [done| |exact Hf].
    intros [k x] [k' t'] _. cbn.
    destruct (reify fuel h1 x) as [tx|] eqn:Ex; [|done].
    rewrite (reify_prefix h1 (h1 ++ [ODict vs]) fuel) with (t := tx); [done| |done].
    by apply prefix_app_r.
  - rewrite alloc_TList in Ha.
    assert (Hitems : forall h h1 vs, alloc_list items h = (h1, vs) ->
              exists fuel, option_list (map (reify fuel h1) vs) = Some items).
    { clear h h' v Ha. induction IH as [|kt items Hkt _ IHi]; intros h h1 vs Ha.
      - injection Ha as <- <-. by exists 0.
      - cbn [alloc_list] in Ha.
        destruct (alloc kt h) as [ha va] eqn:Ea.
        destruct (alloc_list items ha) as [hb vb] eqn:Eb.
        injection Ha as <- <-.
        destruct (Hkt _ _ _ Ea) as [f1 H1]. destruct (IHi _ _ _ Eb) as [f2 H2].
        exists (f1 `max` f2). cbn.
        rewrite (reify_fuel_mono hb f1 va kt); [|by eapply reify_prefix, H1; eapply alloc_list_prefix|lia].
        erewrite option_list_map_mono; [done| |exact H2].
        intros x tx _ Hx. apply (reify_fuel_mono hb f2); [done|lia]. }
    destruct (alloc_list items h) as [h1 vs] eqn:E. injection Ha as <- <-.
    destruct (Hitems _ _ _ E) as [fuel Hf]. exists (S fuel). cbn.
    rewrite lookup_app_r by done. rewrite Nat.sub_diag. cbn.
    erewrite option_list_map_mono; [done| |exact Hf].
    intros x tx _. apply reify_prefix. by apply prefix_app_r.
Qed.

Lemma reify_frame (n : nat) (h h' : heap) :
  closed_lt n h ->
  (forall l, l < n -> h' !! l = h !! l) ->
  forall fuel v, val_lt n v -> reify fuel h' v = reify fuel h v.
Proof.
  intros Hc Hag. induction fuel as [|fuel IH]; intros [p|x] Hv; cbn [reify val_lt] in *; try done.
  rewrite Hag by done. destruct (h !! x) as [o|] eqn:Hl; [|done].
  apply reify_obj_ext. intros v Hin. apply IH.
  specialize (Hc x o Hl). rewrite Forall_forall in Hc. by apply Hc.
Qed.

Lemma closed_closed_lt (h : heap) : closed h = true -> closed_lt (List.length h) h.
Proof.
  unfold closed. intros Hc l o Hl.
  rewrite forallb_forall in Hc.
  assert (Hin : In o h). { apply list_elem_of_In. by eapply list_elem_of_lookup_2. }
  specialize (Hc o Hin). rewrite forallb_forall in Hc.
  apply Forall_forall. intros v Hv. apply list_elem_of_In in Hv. specialize (Hc v Hv).
  destruct v as [p|l']; cbn in *; [done|]. by apply bool_decide_eq_true in Hc.
Qed.

Lemma reify_alloc_fuel (fuel : nat) :
  forall h v t h0 h' v',
    reify fuel h v = Some t -> alloc t h0 = (h', v') -> reify fuel h' v' = Some t.
Proof.
  induction fuel as [|fuel IH]; intros h [p|x] t h0 h' v' Hr Ha; cbn [reify] in Hr; try done.
  - injection Hr as <-. by injection Ha as <- <-.
  - injection Hr as <-. by injection Ha as <- <-.
  - destruct (h !! x) as [[items|items]|]; [| |done]; cbn in Hr.
    + destruct (option_list _) as [ts|] eqn:E; [|done]. injection Hr as <-.
      rewrite alloc_TDict in Ha.
      assert (Hitems : forall ts h0 h1 vs,
                option_list (map (fun kv => pair kv.1 <$> reify fuel h kv.2) items) = Some ts ->
                alloc_items ts h0 = (h1, vs) ->
                option_list (map (fun kv => pair kv.1 <$> reify fuel h1 kv.2) vs) = Some ts).
      { clear ts E Ha. induction items as [|[k y] items IHi]; intros ts h2 h1 vs E Ha.
        - injection E as <-. by injection Ha as <- <-.
        - cbn in E. destruct (reify fuel h y) as [ty|] eqn:Ey; [|done]. cbn in E.
          destruct (option_list _) as [ts'|] eqn:E'; [|done]. injection E as <-.
          cbn [alloc_items] in Ha. cbn [snd fst] in Ha.
          destruct (alloc ty h2) as [ha va] eqn:Ea.
          destruct (alloc_items ts' ha) as [hb vb] eqn:Eb. injection Ha as <- <-.
          cbn. rewrite (reify_prefix ha hb fuel) with (t := ty);
            [|by eapply alloc_items_prefix|by eapply IH].
          cbn. by rewrite (IHi ts' ha hb vb). }
      destruct (alloc_items ts h0) as [h1 vs] eqn:Ei. injection Ha as <- <-.
      cbn [reify]. rewrite lookup_app_r by done. rewrite Nat.sub_diag. cbn.
      erewrite option_list_map_mono; [done| |by eapply Hitems].
      intros [k y] [k' t'] _. cbn.
      destruct (reify fuel h1 y) as [ty|] eqn:Ey; [|done].
      rewrite (reify_prefix h1 (h1 ++ [ODict vs]) fuel) with (t := ty); [done| |done].
      by apply prefix_app_r.
    + destruct (option_list _) as [ts|] eqn:E; [|done]. injection Hr as <-.
      rewrite alloc_TList in Ha.
      assert (Hitems : forall ts h0 h1 vs,
                option_list (map (reify fuel h) items) = Some ts ->
                alloc_list ts h0 = (h1, vs) ->
                option_list (map (reify fuel h1) vs) = Some ts).
      { clear ts E Ha. induction items as [|y items IHi]; intros ts h2 h1 vs E Ha.
        - injection E as <-. by injection Ha as <- <-.
        - cbn in E. destruct (reify fuel h y) as [ty|] eqn:Ey; [|done].
          destruct (option_list _) as [ts'|] eqn:E'; [|done]. injection E as <-.
          cbn [alloc_list] in Ha.
          destruct (alloc ty h2) as [ha va] eqn:Ea.
          destruct (alloc_list ts' ha) as [hb vb] eqn:Eb. injection Ha as <- <-.
          cbn. rewrite (reify_prefix ha hb fuel) with (t := ty);
            [|by eapply alloc_list_prefix|by eapply IH].
          by rewrite (IHi ts' ha hb vb). }
      destruct (alloc_list ts h0) as [h1 vs] eqn:Ei. injection Ha as <- <-.
      cbn [reify]. rewrite lookup_app_r by done. rewrite Nat.sub_diag. cbn.
      erewrite option_list_map_mono; [done| |by eapply Hitems].
      intros y ty _. apply reify_prefix. by apply prefix_app_r.
Qed.

(** ** The caller's side of the heap *)

Lemma inv_prefix (n : nat) (h0 h h' : heap) :
  inv n h0 h -> h `prefix_of` h' -> separated n h' -> inv n h0 h'.
Proof.
  intros (Hag & _ & Hlen) Hp Hs. split; [|split; [done|]].
  - intros l Hl. rewrite <- Hag by done.
    destruct Hp as [ext ->]. apply lookup_app_l. lia.
  - apply prefix_length in Hp. lia.
Qed.

Lemma dict_lookup_vals (k : string) (items : list (string * val)) (v : val) :
  dict_lookup k items = Some v -> v ∈ items.*2.
Proof.
  induction items as [|[k' v'] items IH]; cbn; [done|].
  destruct (String.eqb k' k).
  - intros [= <-]. left.
  - intros H. right. by apply IH.
Qed.

Lemma dict_set_vals (P : val -> Prop) (k : string) (v : val) (items : list (string * val)) :
  P v -> Forall P items.*2 -> Forall P (dict_set k v items).*2.
Proof.
  intros Hv. induction items as [|[k' v'] items IH]; cbn; intros Hi.
  - by constructor.
  - apply Forall_cons in Hi as [Hv' Hi]. destruct (String.eqb k' k); cbn.
    + by constructor.
    + constructor; [done|by apply IH].
Qed.

Lemma dict_del_vals (P : val -> Prop) (k : string) (items items' : list (string * val)) :
  dict_del k items = Some items' -> Forall P items.*2 -> Forall P items'.*2.
Proof.
  revert items'. induction items as [|[k' v'] items IH]; cbn; intros items' Hd Hi; [done|].
  apply Forall_cons in Hi as [Hv' Hi]. destruct (String.eqb k' k).
  - by injection Hd as <-.
  - destruct (dict_del k items) as [r|]; [|done]. injection Hd as <-.
    cbn. constructor; [done|by apply IH].
Qed.

Lemma resolve_from (n : nat) (h : heap) :
  separated n h ->
  forall p v x, val_from n v -> resolve h v p = Some x -> val_from n x.
Proof.
  intros Hs. induction p as [|st p IH]; intros v x Hv Hr; cbn in Hr.
  { by injection Hr as <-. }
  destruct v as [q|l]; [done|]. cbn in Hv.
  destruct (h !! l) as [[items|items]|] eqn:Hl; [| |done];
    specialize (Hs l _ Hv Hl); rewrite Forall_forall in Hs; cbn in Hs.
  - destruct st as [k|i]; [|done].
    destruct (dict_lookup k items) as [y|] eqn:Hk; [|done]. cbn in Hr.
    eapply IH; [|exact Hr]. apply Hs. by eapply dict_lookup_vals.
  - destruct st as [k|i]; [done|].
    destruct (items !! i) as [y|] eqn:Hi; [|done]. cbn in Hr.
    eapply IH; [|exact Hr]. apply Hs. by eapply list_elem_of_lookup_2.
Qed.

Lemma eval_inv (n : nat) (h0 h h1 : heap) (r v : val) (e : expr) :
  inv n h0 h -> val_from n r -> eval r e h = Some (h1, v) ->
  inv n h0 h1 /\ val_from n v.
Proof.
  intros Hinv Hr He. destruct e as [p|p|t]; cbn in He.
  - by injection He as <- <-.
  - destruct (resolve h r p) as [x|] eqn:Hx; [|done]. injection He as <- <-.
    split; [done|]. destruct Hinv as (_ & Hs & _). by eapply resolve_from.
  - injection He as He. destruct Hinv as (Hag & Hs & Hlen).
    destruct (alloc_separated n t h h1 v He Hlen Hs) as [[Hp Hs1] Hv].
    split; [|done]. by eapply inv_prefix.
Qed.

Lemma update_obj_inv (n : nat) (h0 h h' : heap) (r : val) (target : list step)
    (f : obj -> option obj) :
  inv n h0 h -> val_from n r ->
  (forall o o', f o = Some o' ->
     Forall (val_from n) (obj_vals o) -> Forall (val_from n) (obj_vals o')) ->
  update_obj r target f h = Some h' ->
  inv n h0 h'.
Proof.
  intros (Hag & Hs & Hlen) Hr Hf Hu. unfold update_obj in Hu.
  destruct (resolve h r target) as [[q|l]|] eqn:Hres; [done| |done].
  pose proof (resolve_from n h Hs _ _ _ Hr Hres) as Hl. cbn in Hl.
  destruct (h !! l) as [o|] eqn:Ho; [|done]. cbn in Hu.
  destruct (f o) as [o'|] eqn:Hfo; [|done]. injection Hu as <-.
  split; [|split].
  - intros l' Hl'. rewrite list_lookup_insert_ne by lia. by apply Hag.
  - intros l' o'' Hl' Hlook.
    destruct (decide (l = l')) as [<-|Hne].
    + rewrite list_lookup_insert_eq in Hlook by (by eapply lookup_lt_Some).
      injection Hlook as <-. eapply Hf; [exact Hfo|]. by apply (Hs l).
    + rewrite list_lookup_insert_ne in Hlook by done. by apply (Hs l').
  - by rewrite length_insert.
Qed.

Lemma mutate_inv (n : nat) (h0 h h' : heap) (r : val) (m : mutation) :
  inv n h0 h -> val_from n r -> mutate r m h = Some h' -> inv n h0 h'.
Proof.
  intros Hinv Hr Hm. destruct m as [target k e|target k|target i e|target e|target];
    cbn in Hm.
  - destruct (eval r e h) as [[h1 v]|] eqn:He; [|done]. cbn in Hm.
    destruct (eval_inv _ _ _ _ _ _ _ Hinv Hr He) as [Hinv1 Hv].
    eapply (update_obj_inv _ _ _ _ r); [exact Hinv1|exact Hr| |exact Hm].
    intros [items|items] o' Hf Ho; [|done]. injection Hf as <-.
    cbn in *. by apply dict_set_vals.
  - eapply (update_obj_inv _ _ _ _ r); [exact Hinv|exact Hr| |exact Hm].
    intros [items|items] o' Hf Ho; [|done]. cbn in Hf.
    destruct (dict_del k items) as [items'|] eqn:Hd; [|done]. injection Hf as <-.
    cbn in *. by eapply dict_del_vals.
  - destruct (eval r e h) as [[h1 v]|] eqn:He; [|done]. cbn in Hm.
    destruct (eval_inv _ _ _ _ _ _ _ Hinv Hr He) as [Hinv1 Hv].
    eapply (update_obj_inv _ _ _ _ r); [exact Hinv1|exact Hr| |exact Hm].
    intros [items|items] o' Hf Ho; [done|]. cbn in Hf.
    destruct (decide _); [|done]. injection Hf as <-.
    cbn in *. by apply Forall_insert.
  - destruct (eval r e h) as [[h1 v]|] eqn:He; [|done]. cbn in Hm.
    destruct (eval_inv _ _ _ _ _ _ _ Hinv Hr He) as [Hinv1 Hv].
    eapply (update_obj_inv _ _ _ _ r); [exact Hinv1|exact Hr| |exact Hm].
    intros [items|items] o' Hf Ho; [done|]. injection Hf as <-.
    cbn in *. apply Forall_app. split; [done|]. by constructor.
  - eapply (update_obj_inv _ _ _ _ r); [exact Hinv|exact Hr| |exact Hm].
    intros [items|items] o' Hf Ho; injection Hf as <-; constructor.
Qed.

Lemma apply_mutations_inv (n : nat) (h0 : heap) (r : val) (ms : list mutation) :
  val_from n r -> forall h, inv n h0 h -> inv n h0 (apply_mutations r ms h).
Proof.
  intros Hr. unfold apply_mutations.
  induction ms as [|m ms IH]; intros h Hinv; cbn; [done|].
  apply IH. unfold apply_mutation.
  destruct (mutate r m h) as [h'|] eqn:Hm; cbn; [|done]. by eapply mutate_inv.
Qed.

Lemma inv_start (h : heap) : inv (List.length h) h h.
Proof.
  split; [done|]. split; [|done].
  intros l o Hl Hlook. apply lookup_lt_Some in Hlook. lia.
Qed.

(** One run of [get_config] on a loaded cache. *)
Lemma get_config_cached_run (fuel : nat) (kwargs : gmap string pyval) (s : State)
    (c : loc) (t : tree) :
  _cached_config s = Some c ->
  reify fuel (heap_of s) (VRef c) = Some t ->
  exists h3 b,
    get_config fuel kwargs s = Some (with_heap h3 s, b) /\
    inv (List.length (heap_of s)) (heap_of s) h3 /\
    match t with
    | TDict _ =>
        exists r, b = Ok r /\ val_from (List.length (heap_of s)) r /\
                  reify fuel h3 r = Some t
    | _ => exists e, b = Raise e
    end.
Proof.
  intros Hc Hr. unfold get_config, copy. rewrite Hc. cbn. rewrite Hc, Hr. cbn.
  destruct (alloc t (heap_of s)) as [h1 d] eqn:E1.
  rewrite (reify_alloc_fuel _ _ _ _ _ _ _ Hr E1). cbn.
  destruct (alloc t h1) as [h2 d'] eqn:E2.
  pose proof (reify_alloc_fuel _ _ _ _ _ _ _ Hr E2) as Hr2.
  set (n := List.length (heap_of s)).
  destruct (alloc_separated n t _ _ _ E1) as [[Hp1 Hs1] Hd]; [done|apply inv_start|].
  assert (Hn1 : n <= List.length h1). { apply prefix_length in Hp1. done. }
  destruct (alloc_separated n t _ _ _ E2 Hn1 Hs1) as [[Hp2 Hs2] Hd'].
  assert (Hinv2 : inv n (heap_of s) h2).
  { eapply inv_prefix; [apply inv_start|by etrans|done]. }
  destruct t as [p|items|items].
  - exfalso. destruct fuel as [|fuel]; cbn [reify] in Hr; [discriminate|].
    destruct (heap_of s !! c) as [[its|its]|].
    + cbn in Hr. destruct (option_list (map _ its)); discriminate.
    + cbn in Hr. destruct (option_list (map _ its)); discriminate.
    + discriminate.
  - rewrite alloc_TDict in E2. destruct (alloc_items items h1) as [hx vs] eqn:Ex.
    injection E2 as <- <-. cbn.
    rewrite lookup_app_r by done. rewrite Nat.sub_diag. cbn.
    eexists _, _. split; [reflexivity|]. split.
    + eapply inv_prefix; [exact Hinv2|by apply prefix_app_r|].
      apply separated_snoc; [done|]. apply (Hs2 (List.length hx)); [done|].
      rewrite lookup_app_r by done. by rewrite Nat.sub_diag.
    + eexists. split; [reflexivity|]. split.
      * cbn. apply prefix_length in Hp2. unfold n in *. lia.
      * destruct fuel as [|fuel]; [done|]. cbn [reify] in Hr2 |- *.
        rewrite lookup_app_r in Hr2 by done. rewrite Nat.sub_diag in Hr2. cbn in Hr2.
        rewrite lookup_app_r by done. rewrite Nat.sub_diag. cbn.
        destruct (option_list _) as [ts|] eqn:Ets in Hr2; [|done].
        erewrite option_list_map_mono; [exact Hr2| |exact Ets].
        intros [k y] [k' t'] _. cbn.
        destruct (reify fuel (hx ++ [ODict vs]) y) as [ty|] eqn:Ey; [|done].
        rewrite (reify_prefix (hx ++ [ODict vs]) ((hx ++ [ODict vs]) ++ [ODict vs]) fuel)
          with (t := ty); [done|by apply prefix_app_r|done].
  - rewrite alloc_TList in E2. destruct (alloc_list items h1) as [hx vs] eqn:Ex.
    injection E2 as <- <-. cbn.
    rewrite lookup_app_r by done. rewrite Nat.sub_diag. cbn.
    eexists _, _. split; [reflexivity|]. split; [done|]. by eexists.
Qed.

Lemma get_config_cached_inv (fuel : nat) (kwargs : gmap string pyval) (s s1 : State)
    (c : loc) (r : val) :
  _cached_config s = Some c ->
  get_config fuel kwargs s = Some (s1, Ok r) ->
  exists t h3,
    reify fuel (heap_of s) (VRef c) = Some t /\
    s1 = with_heap h3 s /\
    inv (List.length (heap_of s)) (heap_of s) h3 /\
    val_from (List.length (heap_of s)) r /\
    reify fuel h3 r = Some t.
Proof.
  intros Hc Hg.
  destruct (reify fuel (heap_of s) (VRef c)) as [t|] eqn:Hr.
  - destruct (get_config_cached_run fuel kwargs s c t Hc Hr) as (h3 & b & Hg' & Hinv & Ht).
    rewrite Hg' in Hg. injection Hg as <- ->.
    destruct t as [p|items|items]; [by destruct Ht|..|by destruct Ht].
    destruct Ht as (r' & [= <-] & Hv & Hr'). by exists (TDict items), h3.
  - unfold get_config, copy in Hg. rewrite Hc in Hg. cbn in Hg.
    rewrite Hc in Hg. by rewrite Hr in Hg.
Qed.

(** ** Loading keeps the heap closed *)

Lemma val_lt_le (n m : nat) (v : val) : n <= m -> val_lt n v -> val_lt m v.
Proof. intros Hle. destruct v as [p|l]; cbn; [done|lia]. Qed.

Lemma closed_lt_snoc (h : heap) (o : obj) :
  closed_lt (List.length h) h ->
  Forall (val_lt (List.length h)) (obj_vals o) ->
  closed_lt (List.length (h ++ [o])) (h ++ [o]).
Proof.
  intros Hc Ho l o' Hlook. rewrite length_app. cbn.
  apply lookup_app_Some in Hlook as [Hlook|[_ Hlook]].
  - eapply Forall_impl; [by eapply Hc|]. intros v. apply val_lt_le. lia.
  - apply list_lookup_singleton_Some in Hlook as [_ <-].
    eapply Forall_impl; [exact Ho|]. intros v. apply val_lt_le. lia.
Qed.

Lemma alloc_closed (t : tree) :
  forall h h' v, alloc t h = (h', v) -> closed_lt (List.length h) h ->
    closed_lt (List.length h') h' /\ val_lt (List.length h') v.
Proof.
  induction t as [p|items IH|items IH] using tree_rect'; intros h h' v Ha Hc.
  - by injection Ha as <- <-.
  - rewrite alloc_TDict in Ha.
    assert (Hitems : forall h h1 vs, alloc_items items h = (h1, vs) ->
              closed_lt (List.length h) h ->
              closed_lt (List.length h1) h1 /\ Forall (val_lt (List.length h1)) vs.*2).
    { clear h h' v Ha Hc. induction IH as [|kt items Hkt _ IHi]; intros h h1 vs Ha Hc.
      - injection Ha as <- <-. by split.
      - cbn [alloc_items] in Ha.
        destruct (alloc kt.2 h) as [ha va] eqn:Ea.
        destruct (alloc_items items ha) as [hb vb] eqn:Eb.
        injection Ha as <- <-.
        destruct (Hkt _ _ _ Ea Hc) as [Hca Hva].
        destruct (IHi _ _ _ Eb Hca) as [Hcb Hvb].
        split; [done|]. cbn. constructor; [|done].
        eapply val_lt_le; [|exact Hva].
        apply prefix_length. by eapply alloc_items_prefix. }
    destruct (alloc_items items h) as [h1 vs] eqn:E. injection Ha as <- <-.
    destruct (Hitems _ _ _ E Hc) as [Hc1 Hvs]. split.
    + by apply closed_lt_snoc.
    + cbn. rewrite length_app. cbn. lia.
  - rewrite alloc_TList in Ha.
    assert (Hitems : forall h h1 vs, alloc_list items h = (h1, vs) ->
              closed_lt (List.length h) h ->
              closed_lt (List.length h1) h1 /\ Forall (val_lt (List.length h1)) vs).
    { clear h h' v Ha Hc. induction IH as [|kt items Hkt _ IHi]; intros h h1 vs Ha Hc.
      - injection Ha as <- <-. by split.
      - cbn [alloc_list] in Ha.
        destruct (alloc kt h) as [ha va] eqn:Ea.
        destruct (alloc_list items ha) as [hb vb] eqn:Eb.
        injection Ha as <- <-.
        destruct (Hkt _ _ _ Ea Hc) as [Hca Hva].
        destruct (IHi _ _ _ Eb Hca) as [Hcb Hvb].
        split; [done|]. constructor; [|done].
        eapply val_lt_le; [|exact Hva].
        apply prefix_length. by eapply alloc_list_prefix. }
    destruct (alloc_list items h) as [h1 vs] eqn:E. injection Ha as <- <-.
    destruct (Hitems _ _ _ E Hc) as [Hc1 Hvs]. split.
    + by apply closed_lt_snoc.
    + cbn. rewrite length_app. cbn. lia.
Qed.

Lemma closed_lt_closed (h : heap) : closed_lt (List.length h) h -> closed h = true.
Proof.
  intros Hc. unfold closed. apply forallb_forall. intros o Hin.
  apply list_elem_of_In, list_elem_of_lookup_1 in Hin as [l Hl].
  specialize (Hc l o Hl). rewrite Forall_forall in Hc.
  apply forallb_forall. intros v Hv. apply list_elem_of_In in Hv. specialize (Hc v Hv).
  destruct v as [p|l']; cbn in *; [done|]. by apply bool_decide_eq_true.
Qed.

Lemma closed_lt_insert (h : heap) (l : loc) (o : obj) :
  closed_lt (List.length h) h ->
  Forall (val_lt (List.length h)) (obj_vals o) ->
  closed_lt (List.length (<[l := o]> h)) (<[l := o]> h).
Proof.
  intros Hc Ho l' o' Hlook. rewrite length_insert.
  destruct (decide (l = l')) as [<-|Hne].
  - apply list_lookup_insert_Some in Hlook as [(_ & <- & _)|[? _]]; done.
  - rewrite list_lookup_insert_ne in Hlook by done. by eapply Hc.
Qed.

(** [set_config] leaves no dangling reference. *)
Lemma set_config_closed (kwargs : gmap string pyval) (s : State) :
  closed (heap_of s) = true -> closed (heap_of (set_config kwargs s).1) = true.
Proof.
  intros Hc. unfold set_config.
  destruct (default _ _) as [| | |p]; try done.
  destruct (files s !! p) as [document|]; [|done].
  destruct (alloc document (heap_of s)) as [h1 yaml_config] eqn:Ea.
  destruct (alloc_closed _ _ _ _ Ea (closed_closed_lt _ Hc)) as [Hc1 Hy].
  set (items := [("yaml", yaml_config); _; _; _; _; _; _]).
  assert (Hitems : Forall (val_lt (List.length h1)) (obj_vals (ODict items))).
  { cbn. repeat constructor. exact Hy. }
  assert (Hbunch : closed_lt (List.length (h1 ++ [ODict items])) (h1 ++ [ODict items])).
  { by apply closed_lt_snoc. }
  repeat (match goal with |- context [if ?b then _ else _] => destruct b end;
          cbn; try (by apply closed_lt_closed)).
  destruct (py_int _) as [n|e]; cbn.
  - apply closed_lt_closed, closed_lt_insert; [done|].
    cbn. rewrite length_app. cbn.
    constructor; [|repeat constructor].
    eapply val_lt_le; [|exact Hy]. lia.
  - destruct e; by apply closed_lt_closed.
Qed.

(** A first [get_config] is [set_config] followed by a [get_config] on the
    loaded cache. *)
Lemma get_config_loads_first (fuel : nat) (kwargs : gmap string pyval) (s s' : State) :
  _cached_config s = None ->
  set_config kwargs s = (s', Ok tt) ->
  is_Some (_cached_config s') /\
  get_config fuel kwargs s = get_config fuel kwargs s'.
Proof.
  intros Hnone Hset.
  assert (Hsome : is_Some (_cached_config s')).
  { unfold set_config in Hset.
    destruct (default _ _) as [| | |p]; try done.
    destruct (files s !! p) as [document|]; [|done].
    destruct (alloc document (heap_of s)) as [h1 yaml_config].
    repeat (match type of Hset with context [if ?b then _ else _] => destruct b end;
            try done); cbn in Hset.
    - destruct (py_int _) as [n|e]; [|by destruct e].
      injection Hset as <-. by eexists.
    - injection Hset as <-. by eexists. }
  split; [done|]. destruct Hsome as [c Hc].
  unfold get_config. rewrite Hnone, Hset, Hc. cbn. by rewrite Hc.
Qed.

(** [get_config] returns whenever the cached configuration unfolds, with
    the fuel of that unfolding. *)
Lemma get_config_returns (fuel : nat) (kwargs : gmap string pyval) (s : State)
    (c : loc) (items : list (string * tree)) :
  _cached_config s = Some c ->
  reify fuel (heap_of s) (VRef c) = Some (TDict items) ->
  exists s1 r, get_config fuel kwargs s = Some (s1, Ok r).
Proof.
  intros Hc Hr.
  destruct (get_config_cached_run fuel kwargs s c _ Hc Hr)
    as (h3 & b & Hg & _ & r & -> & _).
  by exists (with_heap h3 s), r.
Qed.

(** The copy made from a loaded cache shares nothing with it. *)
Lemma copy_is_independent_of_cache
    (fuel : nat) (kwargs : gmap string pyval) (s s1 : State) (c : loc) (r : val)
    (ms : list mutation) :
  closed (heap_of s) = true ->
  _cached_config s = Some c ->
  get_config fuel kwargs s = Some (s1, Ok r) ->
  let s2 := with_heap (apply_mutations r ms (heap_of s1)) s1 in
  _cached_config s2 = Some c /\
  (forall l, l < List.length (heap_of s) -> heap_of s2 !! l = heap_of s !! l) /\
  (forall fuel', reify fuel' (heap_of s2) (VRef c) = reify fuel' (heap_of s) (VRef c)) /\
  exists t,
    reify fuel (heap_of s) (VRef c) = Some t /\
    reify fuel (heap_of s1) r = Some t /\
    (forall kwargs', exists s3 r',
        get_config fuel kwargs' s2 = Some (s3, Ok r') /\
        reify fuel (heap_of s3) r' = Some t) /\
    (forall fuel' kwargs' s3 r',
        get_config fuel' kwargs' s2 = Some (s3, Ok r') -> snapshot (heap_of s3) r' t).
Proof.
  intros Hclosed Hc Hg s2.
  destruct (get_config_cached_inv _ _ _ _ _ _ Hc Hg) as (t & h3 & Hr & -> & Hinv & Hv & Hr3).
  set (n := List.length (heap_of s)) in *.
  assert (Hc2 : _cached_config s2 = Some c) by exact Hc.
  assert (Hinv2 : inv n (heap_of s) (heap_of s2)).
  { subst s2. cbn. by apply apply_mutations_inv. }
  assert (Hcn : c < n).
  { destruct fuel as [|fuel]; [done|]. cbn [reify] in Hr.
    destruct (heap_of s !! c) eqn:E; [|done]. by apply lookup_lt_Some in E. }
  assert (Hframe : forall fuel', reify fuel' (heap_of s2) (VRef c)
                                 = reify fuel' (heap_of s) (VRef c)).
  { intros fuel'. apply (reify_frame n); [by apply closed_closed_lt|by apply Hinv2|done]. }
  split; [done|]. split; [by apply Hinv2|]. split; [done|].
  exists t. split; [done|]. split; [done|]. split.
  - intros kwargs'.
    destruct (get_config_cached_run fuel kwargs' s2 c t Hc2) as (h' & b & Hg' & _ & Ht).
    { by rewrite Hframe. }
    destruct t as [p|items|items].
    + exfalso. destruct fuel as [|fuel]; [done|]. cbn [reify] in Hr.
      destruct (heap_of s !! c) as [[its|its]|]; cbn in Hr; [| |done];
        destruct (option_list (map _ its)); discriminate.
    + destruct Ht as (r' & -> & _ & Hr'). by exists (with_heap h' s2), r'.
    + exfalso.
      destruct (get_config_cached_run fuel kwargs s c _ Hc Hr) as (h'' & b' & Hg'' & _ & [e ->]).
      rewrite Hg'' in Hg. discriminate.
  - intros fuel' kwargs' s3 r' Hg'.
    destruct (get_config_cached_inv _ _ _ _ _ _ Hc2 Hg') as (t' & h' & Hr' & -> & _ & _ & Hr3').
    rewrite Hframe in Hr'. rewrite (reify_det _ _ _ _ _ _ Hr Hr'). by exists fuel'.
Qed.


(** C8: [get_config] hands out a deep copy of the cached configuration.
    Take the state in which the configuration is cached (the one the call
    starts in, or the one its own [set_config] leaves).  Whatever sequence
    of statements the caller runs on the object it was given (item
    assignment and deletion, list assignment, append, clear, at any depth,
    storing scalars, objects reached from the copy, or new literals), every
    object of that state is unchanged, the global still refers to the same
    object, the cached configuration unfolds to the same value as before,
    and a later [get_config] returns, with that same value. *)
Theorem get_config_copy_is_independent
    (fuel : nat) (kwargs : gmap string pyval) (s s1 : State) (r : val)
    (ms : list mutation) :
  closed (heap_of s) = true ->
  get_config fuel kwargs s = Some (s1, Ok r) ->
  let s0 := loaded kwargs s in
  let s2 := with_heap (apply_mutations r ms (heap_of s1)) s1 in
  exists c,
    _cached_config s0 = Some c /\
    _cached_config s2 = Some c /\
    (forall l, l < List.length (heap_of s0) -> heap_of s2 !! l = heap_of s0 !! l) /\
    (forall fuel', reify fuel' (heap_of s2) (VRef c) = reify fuel' (heap_of s0) (VRef c)) /\
    exists t,
      reify fuel (heap_of s0) (VRef c) = Some t /\
      reify fuel (heap_of s1) r = Some t /\
      (forall kwargs', exists s3 r',
          get_config fuel kwargs' s2 = Some (s3, Ok r') /\
          reify fuel (heap_of s3) r' = Some t) /\
      (forall fuel' kwargs' s3 r',
          get_config fuel' kwargs' s2 = Some (s3, Ok r') -> snapshot (heap_of s3) r' t).
Proof.
  intros Hclosed Hg s0 s2. unfold loaded in s0.
  destruct (_cached_config s) as [c|] eqn:Hc.
  - exists c. split; [exact Hc|].
    exact (copy_is_independent_of_cache fuel kwargs s s1 c r ms Hclosed Hc Hg).
  - destruct (set_config kwargs s) as [s' res] eqn:Hset.
    destruct res as [[]|e].
    + destruct (get_config_loads_first fuel kwargs s s' Hc Hset) as [[c Hc'] Heq].
      rewrite Heq in Hg.
      assert (Hclosed' : closed (heap_of s') = true).
      { pose proof (set_config_closed kwargs s Hclosed) as H. by rewrite Hset in H. }
      exists c. split; [exact Hc'|].
      exact (copy_is_independent_of_cache fuel kwargs s' s1 c r ms Hclosed' Hc' Hg).
    + unfold get_config in Hg. rewrite Hc, Hset in Hg. discriminate Hg.
Qed.

End StoreFacts.

(** * Further properties *)

(** ** The cache *)

Lemma get_config_caches (kwargs : gmap string pyval) (w w1 : World) (c : Config) :
  get_config kwargs w = (w1, Ok c) -> _cached_config w1 = Some c.
Proof.
  unfold get_config. unfold_monad.
  destruct (_cached_config w) as [c0|] eqn:Hc; cbn.
  - rewrite Hc. by intros [= <- <-].
  - destruct (set_config kwargs w) as [w' [[]|e]]; [|done].
    destruct (_cached_config w') as [c'|] eqn:Hc'; [|done].
    by intros [= <- <-].
Qed.

(** X1: once [get_config] has returned a configuration, every later call
    returns that same configuration and changes nothing, whatever keyword
    arguments it is given: they are only looked at on the first load. *)
Theorem get_config_keeps_first_configuration
    (kwargs kwargs' : gmap string pyval) (w w1 : World) (c : Config) :
  get_config kwargs w = (w1, Ok c) ->
  get_config kwargs' w1 = (w1, Ok c).
Proof. intros H. apply get_config_cached. by eapply get_config_caches. Qed.

Lemma load_yaml_world (p : pyval) (w : World) : (load_yaml p w).1 = w.
Proof. unfold load_yaml. destruct p; try done. by destruct (files w !! s). Qed.

(** Folds the record that [set_config] builds into [resolved_config]. *)
Ltac fold_resolved_config kwargs w y :=
  fold (resolved kwargs w "namespace" "CC_DYNAMODB_NAMESPACE");
  fold (resolved kwargs w "aws_access_key_id" "CC_DYNAMODB_ACCESS_KEY_ID");
  fold (resolved kwargs w "aws_secret_access_key" "CC_DYNAMODB_SECRET_ACCESS_KEY");
  fold (resolved kwargs w "host" "CC_DYNAMODB_HOST");
  fold (resolved kwargs w "port" "CC_DYNAMODB_PORT");
  fold (resolved kwargs w "is_secure" "CC_DYNAMODB_IS_SECURE");
  fold (resolved_config kwargs w y).

(** X2: [set_config] stores the configuration before it validates it.  When
    the file is read and the validation then fails, the rejected
    configuration stays in the cache, and [get_config] returns it from then
    on without raising. *)
Theorem set_config_failure_stays_cached
    (kwargs : gmap string pyval) (w : World) (y : Yaml) (e : exn) :
  load_yaml (config_path_of kwargs w) w = (w, Ok y) ->
  (set_config kwargs w).2 = Raise e ->
  let w' := (set_config kwargs w).1 in
  _cached_config w' = Some (resolved_config kwargs w y) /\
  forall kwargs', get_config kwargs' w' = (w', Ok (resolved_config kwargs w y)).
Proof.
  intros Hload Hres w'.
  assert (Hc : _cached_config w' = Some (resolved_config kwargs w y)).
  { subst w'. revert Hres. unfold config_path_of in Hload.
    unfold set_config. unfold_monad. rewrite Hload.
    fold_resolved_config kwargs w y.
    generalize (resolved_config kwargs w y). intros c.
    destruct (truthy (namespace c)); cbn; [|by intros _].
    destruct (truthy (aws_access_key_id c)); cbn; [|by intros _].
    destruct (truthy (aws_secret_access_key c)); cbn; [|by intros _].
    destruct (truthy (port c)); cbn; [|done].
    destruct (py_int (port c)) as [n|e']; cbn; [done|].
    by destruct e'; intros _. }
  split; [done|]. intros kwargs'. by apply get_config_cached.
Qed.

(** X3: when [set_config] returns, the cache holds a configuration with a
    namespace, an access key id and a secret access key that are not
    empty, and with a port that is an integer if it is set at all; the
    event [cc_dynamodb.set_config] has been logged, once. *)
Theorem set_config_success (kwargs : gmap string pyval) (w : World) :
  (set_config kwargs w).2 = Ok tt ->
  exists c,
    _cached_config (set_config kwargs w).1 = Some c /\
    truthy (namespace c) = true /\
    truthy (aws_access_key_id c) = true /\
    truthy (aws_secret_access_key c) = true /\
    (truthy (port c) = false \/ exists n, port c = PInt n) /\
    log (set_config kwargs w).1 = (log w ++ [LogEvent "cc_dynamodb.set_config"])%list.
Proof.
  unfold set_config. unfold_monad.
  pose proof (load_yaml_world (default (PStr (CONFIG_PATH w)) (kwargs !! "table_config")) w)
    as Hw.
  destruct (load_yaml _ w) as [w0 [y|e]]; cbn in Hw; subst w0; [|done].
  fold_resolved_config kwargs w y.
  generalize (resolved_config kwargs w y). intros c.
  destruct (truthy (namespace c)) eqn:Hns; cbn; [|done].
  destruct (truthy (aws_access_key_id c)) eqn:Hak; cbn; [|done].
  destruct (truthy (aws_secret_access_key c)) eqn:Hsk; cbn; [|done].
  destruct (truthy (port c)) eqn:Hp; cbn.
  - destruct (py_int (port c)) as [n|e'] eqn:Hn; cbn; [|by destruct e'].
    intros _. exists (with_port (PInt n) c). repeat split; eauto.
  - intros _. exists c. repeat split; eauto.
Qed.

(** X4: when the configuration file cannot be read, [get_config] on an empty
    cache raises the error of the read and changes nothing: the cache stays
    empty, and the next call reads the file again. *)
Theorem get_config_unreadable_file
    (kwargs : gmap string pyval) (w : World) (e : exn) :
  _cached_config w = None ->
  load_yaml (config_path_of kwargs w) w = (w, Raise e) ->
  get_config kwargs w = (w, Raise e).
Proof.
  intros Hc Hload. unfold get_config. unfold_monad. rewrite Hc.
  by rewrite (set_config_file_error _ _ _ Hload).
Qed.

Lemma resolved_truthy (kwargs : gmap string pyval) (w : World) (key var : string) :
  truthy (kwargs_get kwargs key) = true ->
  resolved kwargs w key var = kwargs_get kwargs key.
Proof. intros H. unfold resolved, py_or. by rewrite H. Qed.

(** X24: a keyword argument that is truthy wins over the environment.  For
    each of the six fields, when the keyword argument is truthy the cached
    field is that argument; for the port it is the argument or, when [int]
    accepts it, its integer. *)
Theorem set_config_keyword_arguments_win
    (kwargs : gmap string pyval) (w : World) (y : Yaml) :
  load_yaml (config_path_of kwargs w) w = (w, Ok y) ->
  exists c, _cached_config (set_config kwargs w).1 = Some c /\
    (truthy (kwargs_get kwargs "namespace") = true ->
       namespace c = kwargs_get kwargs "namespace") /\
    (truthy (kwargs_get kwargs "aws_access_key_id") = true ->
       aws_access_key_id c = kwargs_get kwargs "aws_access_key_id") /\
    (truthy (kwargs_get kwargs "aws_secret_access_key") = true ->
       aws_secret_access_key c = kwargs_get kwargs "aws_secret_access_key") /\
    (truthy (kwargs_get kwargs "host") = true -> host c = kwargs_get kwargs "host") /\
    (truthy (kwargs_get kwargs "port") = true ->
       port c = kwargs_get kwargs "port" \/
       exists n, py_int (kwargs_get kwargs "port") = Ok n /\ port c = PInt n) /\
    (truthy (kwargs_get kwargs "is_secure") = true ->
       is_secure c = kwargs_get kwargs "is_secure").
Proof.
  intros Hload.
  destruct (set_config_cached kwargs w y Hload) as [Hc|[n [Hn Hc]]].
  - eexists; split; [exact Hc|]. cbn.
    repeat split; intros H; try (by apply resolved_truthy).
    left. by apply resolved_truthy.
  - eexists; split; [exact Hc|]. cbn.
    repeat split; intros H; try (by apply resolved_truthy).
    right. exists n. split; [|reflexivity].
    cbn in Hn. by rewrite resolved_truthy in Hn.
Qed.

(** X25: [set_config] does not look at the cache.  Whatever is cached, it
    reads the file again and, when the file is read, has the outcome and
    leaves the state that it has on an empty cache. *)
Theorem set_config_reloads
    (kwargs : gmap string pyval) (w : World) (y : Yaml) (cached : option Config) :
  load_yaml (config_path_of kwargs w) w = (w, Ok y) ->
  set_config kwargs (set__cached_config cached w) = set_config kwargs w.
Proof.
  intros Hload. unfold config_path_of in Hload.
  unfold set_config. unfold_monad. rewrite Hload.
  assert (Hload' : load_yaml (default (PStr (CONFIG_PATH (set__cached_config cached w)))
                                (kwargs !! "table_config")) (set__cached_config cached w)
                   = (set__cached_config cached w, Ok y)).
  { revert Hload. unfold load_yaml. cbn.
    destruct (default (PStr (CONFIG_PATH w)) (kwargs !! "table_config")); try done.
    destruct (files w !! s); [|done]. by intros [= ->]. }
  rewrite Hload'. cbn [environ set__cached_config].
  fold_resolved_config kwargs w y.
  generalize (resolved_config kwargs w y). intros c.
  destruct (truthy (namespace c)); cbn; [|done].
  destruct (truthy (aws_access_key_id c)); cbn; [|done].
  destruct (truthy (aws_secret_access_key c)); cbn; [|done].
  destruct (truthy (port c)); cbn; [|done].
  destruct (py_int (port c)) as [n|e]; cbn; [done|]. by destruct e.
Qed.

(** ** Lookups in the configuration *)

Lemma first_named_Some (index_name : string) (l : list IndexDetails) (index : IndexDetails) :
  first_named index_name l = Some index -> index ∈ l /\ id_name index = index_name.
Proof.
  induction l as [|x l IH]; cbn; [done|].
  destruct (String.eqb_spec (id_name x) index_name) as [E|_].
  - intros [= <-]. split; [left|done].
  - intros H. destruct (IH H). split; [by right|done].
Qed.

Lemma first_named_is_Some (index_name : string) (l : list IndexDetails) (index : IndexDetails) :
  index ∈ l -> id_name index = index_name -> is_Some (first_named index_name l).
Proof.
  induction l as [|x l IH]; intros Hin E; [by apply elem_of_nil in Hin|]. cbn.
  destruct (String.eqb_spec (id_name x) index_name) as [_|Hne]; [done|].
  apply elem_of_cons in Hin as [->|Hin]; [done|]. by apply IH.
Qed.

Lemma search_indexes_app (table_name index_name : string)
    (l1 l2 : list (string * list IndexDetails)) :
  search_indexes table_name index_name (l1 ++ l2)
  = match search_indexes table_name index_name l1 with
    | Some index => Some index
    | None => search_indexes table_name index_name l2
    end.
Proof.
  induction l1 as [|[t ti] l1 IH]; cbn; [done|].
  destruct (String.eqb t table_name); [|done].
  by destruct (first_named index_name ti).
Qed.

Lemma search_indexes_absent (table_name index_name : string)
    (l : list (string * list IndexDetails)) :
  table_name ∉ l.*1 -> search_indexes table_name index_name l = None.
Proof.
  induction l as [|[t ti] l IH]; cbn; [done|]. intros Hn.
  apply not_elem_of_cons in Hn as [Hne Hn].
  destruct (String.eqb_spec t table_name) as [E|_]; [done|]. by apply IH.
Qed.

Lemma search_indexes_present (table_name index_name : string)
    (l : list (string * list IndexDetails)) (table_indexes : list IndexDetails) :
  NoDup (l.*1) -> (table_name, table_indexes) ∈ l ->
  search_indexes table_name index_name l = first_named index_name table_indexes.
Proof.
  induction l as [|[t ti] l IH]; cbn; intros Hnd Hin; [by apply elem_of_nil in Hin|].
  apply NoDup_cons in Hnd as [Ht Hnd].
  destruct (String.eqb_spec t table_name) as [->|Hne].
  - apply elem_of_cons in Hin as [[= ->]|Hin].
    + rewrite search_indexes_absent by done. by destruct (first_named _ _).
    + destruct Ht. by apply (list_elem_of_fmap_2 fst l (table_name, table_indexes)).
  - apply elem_of_cons in Hin as [[= E _]|Hin]; [done|]. by apply IH.
Qed.

Section lookups.

Variable dict_items : forall V, gmap string V -> list (string * V).
Hypothesis dict_items_perm : forall V (m : gmap string V), dict_items V m ≡ₚ map_to_list m.

Lemma dict_items_NoDup {V} (m : gmap string V) : NoDup (dict_items V m).*1.
Proof. rewrite dict_items_perm. apply NoDup_fst_map_to_list. Qed.

(** One section of indexes, searched in whatever order it is iterated, gives
    the first index of that name in the list of the table. *)
Lemma search_indexes_section (table_name index_name : string)
    (m : gmap string (list IndexDetails)) :
  search_indexes table_name index_name (dict_items _ m)
  = first_named index_name (default [] (m !! table_name)).
Proof.
  destruct (m !! table_name) as [ti|] eqn:E; cbn.
  - apply search_indexes_present; [apply dict_items_NoDup|].
    by apply (dict_items_lookup dict_items dict_items_perm).
  - apply search_indexes_absent. intros Hin.
    apply list_elem_of_fmap in Hin as ([t ti] & -> & Hin).
    apply (dict_items_lookup dict_items dict_items_perm) in Hin. cbn in E. congruence.
Qed.

(** X5: [get_table_index] does not depend on the order in which the
    dicts are iterated: it returns the first index of that name in the
    table's list of the local section, else the first one in the table's
    list of the global section, else [None]; it never raises. *)
Theorem get_table_index_is_a_lookup
    (w : World) (c : Config) (table_name index_name : string) :
  _cached_config w = Some c ->
  get_table_index dict_items table_name index_name w
  = (w, Ok (found_index (yaml c) table_name index_name)).
Proof.
  intros Hc. unfold get_table_index. unfold_monad.
  rewrite (get_config_cached _ _ _ Hc).
  by rewrite search_indexes_app, !search_indexes_section.
Qed.

Lemma found_index_declared (y : Yaml) (table_name index_name : string) (index : IndexDetails) :
  found_index y table_name index_name = Some index ->
  id_name index = index_name /\ declared_for y table_name index.
Proof.
  unfold found_index, declared_for.
  destruct (first_named index_name (default [] (default ∅ (yaml_indexes y) !! table_name)))
    as [i|] eqn:E1.
  - intros [= ->]. apply first_named_Some in E1 as [Hin Hn]. split; [done|].
    destruct (yaml_indexes y) as [m|]; cbn in Hin.
    + destruct (m !! table_name) as [ti|] eqn:Em; cbn in Hin; [|by apply elem_of_nil in Hin].
      exists m, ti. eauto.
    + rewrite lookup_empty in Hin. by apply elem_of_nil in Hin.
  - intros E2. apply first_named_Some in E2 as [Hin Hn]. split; [done|].
    destruct (yaml_global_indexes y) as [m|]; cbn in Hin.
    + destruct (m !! table_name) as [ti|] eqn:Em; cbn in Hin; [|by apply elem_of_nil in Hin].
      exists m, ti. eauto.
    + rewrite lookup_empty in Hin. by apply elem_of_nil in Hin.
Qed.

Lemma found_index_complete (y : Yaml) (table_name index_name : string) :
  declares_index y table_name index_name -> is_Some (found_index y table_name index_name).
Proof.
  unfold found_index.
  intros [(m & ti & i & -> & Hm & Hin & Hn)|(m & ti & i & -> & Hm & Hin & Hn)]; cbn.
  - rewrite Hm. cbn. by destruct (first_named_is_Some index_name ti i Hin Hn) as [x ->].
  - destruct (first_named index_name _) as [x|]; [done|].
    rewrite Hm. cbn. by apply (first_named_is_Some index_name ti i).
Qed.

(** X6: what [get_table_index] returns is an index that the configuration
    declares for that table under that name, and it returns one whenever
    the configuration declares one. *)
Theorem get_table_index_sound_and_complete
    (w : World) (c : Config) (table_name index_name : string) :
  _cached_config w = Some c ->
  exists r, get_table_index dict_items table_name index_name w = (w, Ok r) /\
    (forall index, r = Some index ->
       id_name index = index_name /\ declared_for (yaml c) table_name index) /\
    (declares_index (yaml c) table_name index_name -> is_Some r).
Proof.
  intros Hc. exists (found_index (yaml c) table_name index_name). split; [|split].
  - unfold get_table_index. unfold_monad.
    rewrite (get_config_cached _ _ _ Hc).
    by rewrite search_indexes_app, !search_indexes_section.
  - apply found_index_declared.
  - apply found_index_complete.
Qed.

End lookups.

(** ** Columns and table names *)

Lemma comprehension_Raise {A B} (f : A -> result B) (l : list A) (e : exn) :
  comprehension f l = Raise e -> exists x, x ∈ l /\ f x = Raise e.
Proof.
  induction l as [|x l IH]; cbn; [done|].
  destruct (f x) as [y|e'] eqn:E.
  - destruct (comprehension f l) as [ys|e']; [done|].
    intros [= ->]. destruct IH as (x' & Hin & Hx'); [done|]. exists x'. split; [by right|done].
  - intros [= ->]. exists x. split; [left|done].
Qed.

Lemma comprehension_Ok {A B} (f : A -> result B) (l : list A) (ys : list B) :
  comprehension f l = Ok ys <-> Forall2 (fun x y => f x = Ok y) l ys.
Proof.
  revert ys. induction l as [|x l IH]; intros ys; cbn.
  - split; [intros [= <-]; constructor|]. intros H. by apply Forall2_nil_inv_l in H as ->.
  - destruct (f x) as [y|e] eqn:E.
    + destruct (comprehension f l) as [ys'|e'].
      * split.
        -- intros [= <-]. constructor; [done|]. by apply IH.
        -- intros H. apply Forall2_cons_inv_l in H as (y' & ys'' & Hy & Hys & ->).
           apply IH in Hys. congruence.
      * split; [done|]. intros H.
        apply Forall2_cons_inv_l in H as (y' & ys'' & Hy & Hys & ->).
        by apply IH in Hys.
    + split; [done|]. intros H.
      apply Forall2_cons_inv_l in H as (y' & ys'' & Hy & Hys & ->). congruence.
Qed.

(** [dict(pairs)] of pairs with distinct keys has exactly these pairs. *)
Lemma dict_of_pairs_NoDup {V} (l : list (string * V)) (k : string) (v : V) :
  NoDup (l.*1) -> dict_of_pairs l !! k = Some v <-> (k, v) ∈ l.
Proof.
  unfold dict_of_pairs.
  assert (H : forall m : gmap string V, NoDup (l.*1) ->
    foldl (fun m p => <[p.1:=p.2]> m) m l !! k = Some v <->
    (k, v) ∈ l \/ ((k ∉ l.*1) /\ m !! k = Some v)).
  { induction l as [|[k' v'] l IH]; intros m Hnd; cbn.
    - split; [intros H; right; split; [apply not_elem_of_nil|done]|].
      intros [H|[_ H]]; [by apply elem_of_nil in H|done].
    - apply NoDup_cons in Hnd as [Hk' Hnd]. rewrite (IH _ Hnd). cbn.
      rewrite elem_of_cons, not_elem_of_cons.
      destruct (decide (k = k')) as [->|Hne].
      + rewrite lookup_insert_eq. split.
        * intros [Hin|[Hn [= ->]]]; [|by left; left].
          destruct Hk'. by apply (list_elem_of_fmap_2 fst l (k', v)).
        * intros [[[= ->]|Hin]|[[Hn _] _]]; [|by left|done].
          right. split; [done|done].
      + rewrite lookup_insert_ne by done. split.
        * intros [Hin|[Hn Hm]]; [by left; right|]. right. split; [by split|done].
        * intros [[[= E _]|Hin]|[[_ Hn] Hm]]; [done|by left|]. right. by split. }
  intros Hnd. rewrite (H ∅ Hnd). rewrite lookup_empty. split; [|by left].
  by intros [Hin|[_ Hm]].
Qed.

Section columns.

Variable dict_items : forall V, gmap string V -> list (string * V).
Hypothesis dict_items_perm : forall V (m : gmap string V), dict_items V m ≡ₚ map_to_list m.

Lemma column_pairs (l ys : list (string * string)) :
  Forall2 (fun (x y : string * string) =>
             (let '(column_name, column_type) := x in
              match types.getattr column_type with
              | Some t => Ok (column_name, t)
              | None => Raise (AttributeError column_type)
              end) = Ok y) l ys ->
  ys.*1 = l.*1 /\
  forall k v, (k, v) ∈ ys <-> exists t, (k, t) ∈ l /\ types.getattr t = Some v.
Proof.
  induction 1 as [|[n t] [n' t'] l ys Hxy Hl [IH1 IH2]]; cbn.
  - split; [done|]. intros k v. split; [intros H; by apply elem_of_nil in H|].
    intros (t & H & _). by apply elem_of_nil in H.
  - destruct (types.getattr t) as [t0|] eqn:Et; [|done]. injection Hxy as <- <-.
    split; [by rewrite IH1|]. intros k v. rewrite elem_of_cons, IH2. split.
    + intros [[= -> ->]|(t1 & Hin & Ht1)].
      * exists t. split; [left|done].
      * exists t1. split; [by right|done].
    + intros (t1 & Hin & Ht1). apply elem_of_cons in Hin as [[= -> ->]|Hin].
      * left. congruence.
      * right. eauto.
Qed.

(** X7: for a table whose columns the configuration declares, all of them
    with a data type that [boto.dynamodb2.types] has, [get_table_columns]
    returns the dict of the same column names, each with the constant of
    its type, whatever the order in which the columns are iterated. *)
Theorem get_table_columns_returns
    (w : World) (c : Config) (table_name : string) (columns : gmap string string) :
  _cached_config w = Some c ->
  yaml_columns (yaml c) ≫= (fun cols => cols !! table_name) = Some columns ->
  map_Forall (fun _ column_type => is_Some (types.getattr column_type)) columns ->
  get_table_columns dict_items table_name w = (w, Ok (omap types.getattr columns)).
Proof.
  intros Hc Hcols Hall. unfold get_table_columns. unfold_monad.
  rewrite (get_config_cached _ _ _ Hc), Hcols.
  destruct (comprehension _ (dict_items string columns)) as [pairs|e] eqn:E.
  - apply comprehension_Ok, column_pairs in E as [Hfst Hin].
    do 2 f_equal. apply map_eq. intros k. apply option_eq. intros v.
    rewrite dict_of_pairs_NoDup.
    2:{ rewrite Hfst, dict_items_perm. apply NoDup_fst_map_to_list. }
    rewrite Hin, lookup_omap. split.
    + intros (t & Ht & Hv). apply (dict_items_lookup dict_items dict_items_perm) in Ht.
      by rewrite Ht.
    + intros Hv. destruct (columns !! k) as [t|] eqn:Ek; [|done]. exists t.
      split; [|done]. by apply (dict_items_lookup dict_items dict_items_perm).
  - apply comprehension_Raise in E as ([n t] & Hin & Hf).
    apply (dict_items_lookup dict_items dict_items_perm) in Hin.
    destruct (Hall _ _ Hin) as [t0 Ht0]. by rewrite Ht0 in Hf.
Qed.

(** X8: [get_table_columns] raises [UnknownTableException] exactly for a
    table without an entry in the [columns] section (or without that
    section): the [KeyError] of the lookup is logged and becomes
    [UnknownTableException] with the name as it was given.  For a table
    with declared columns it raises no [UnknownTableException], whatever
    else the lookup of the data types does. *)
Theorem get_table_columns_errors (w : World) (c : Config) (table_name : string) :
  _cached_config w = Some c ->
  (yaml_columns (yaml c) ≫= (fun cols => cols !! table_name) = None ->
   get_table_columns dict_items table_name w
   = (add_log (LogException "UnknownTable") w,
      Raise (UnknownTableException ("Unknown table: " ++ table_name)))) /\
  (is_Some (yaml_columns (yaml c) ≫= (fun cols => cols !! table_name)) ->
   forall msg,
     (get_table_columns dict_items table_name w).2 <> Raise (UnknownTableException msg)).
Proof.
  intros Hc. unfold get_table_columns. unfold_monad.
  rewrite (get_config_cached _ _ _ Hc). split.
  - by intros ->.
  - intros [columns ->] msg.
    destruct (comprehension _ (dict_items string columns)) as [pairs|e] eqn:E; [done|].
    apply comprehension_Raise in E as ([n t] & _ & Hf).
    destruct (types.getattr t); [done|]. by injection Hf as <-.
Qed.

(** X9: [list_table_names] lists each table that has a schema in the
    configuration once, and nothing else; without a [schemas] section it
    raises [KeyError]. *)
Theorem list_table_names_lists_the_schemas (w : World) (c : Config) :
  _cached_config w = Some c ->
  (is_Some (yaml_schemas (yaml c)) ->
   exists names, list_table_names dict_items w = (w, Ok names) /\
     NoDup names /\ forall table_name, table_name ∈ names <-> declares_table c table_name) /\
  (yaml_schemas (yaml c) = None ->
   list_table_names dict_items w = (w, Raise (KeyError "schemas"))).
Proof.
  intros Hc. unfold list_table_names, declares_table. unfold_monad.
  rewrite (get_config_cached _ _ _ Hc). split.
  - intros [schemas ->]. eexists. split; [reflexivity|]. split.
    + unfold dict_keys. rewrite dict_items_perm. apply NoDup_fst_map_to_list.
    + intros n. cbn. apply (dict_keys_lookup dict_items dict_items_perm).
  - by intros ->.
Qed.

End columns.

(** ** Building keys and indexes *)

Lemma _build_key_built (d : KeyDetails) (k : Key) : _build_key d = Ok k <-> built_from d k.
Proof.
  unfold _build_key, built_from.
  destruct (fields.getattr (kd_type d)) as [[a|cls g|v]|];
    destruct (types.getattr (kd_data_type d)) as [t|]; split; try done;
    try (by intros ([= ?] & _)); try (by intros (_ & _ & [= ?])).
  - intros [= <-]. done.
  - destruct k as [a' n' t']. cbn. by intros ([= ->] & -> & [= ->]).
Qed.

Lemma _build_key_buildable (d : KeyDetails) :
  buildable_key d -> exists k, _build_key d = Ok k.
Proof.
  unfold _build_key, buildable_key. intros [[a ->] [t ->]]. eauto.
Qed.

Lemma comprehension_is_Ok {A B} (f : A -> result B) (l : list A) :
  (exists ys, comprehension f l = Ok ys) <-> Forall (fun x => exists y, f x = Ok y) l.
Proof.
  induction l as [|x l IH]; cbn.
  - split; [constructor|eauto].
  - rewrite Forall_cons, <- IH. destruct (f x) as [y|e].
    + destruct (comprehension f l) as [ys|e'].
      * split; eauto.
      * split; [by intros [ys [=]]|]. by intros [_ [ys [=]]].
    + split; [by intros [ys [=]]|]. by intros [[y [=]] _].
Qed.

(** X10: the keys that [_build_keys] returns are one per entry, in the order
    of the entries and under their names, each of the class and with the
    data type constant that the entry names; and it returns when every
    entry names a key class and a data type constant. *)
Theorem _build_keys_builds_every_entry (keys_config : list KeyDetails) :
  (forall keys, _build_keys keys_config = Ok keys <-> Forall2 built_from keys_config keys) /\
  (forall keys, _build_keys keys_config = Ok keys ->
     key_name <$> keys = kd_name <$> keys_config) /\
  (Forall buildable_key keys_config -> exists keys, _build_keys keys_config = Ok keys).
Proof.
  unfold _build_keys.
  assert (H1 : forall keys, comprehension _build_key keys_config = Ok keys
                 <-> Forall2 built_from keys_config keys).
  { intros keys. rewrite comprehension_Ok.
    split; intros H; (eapply Forall2_impl; [exact H|]); intros d k; apply _build_key_built. }
  split; [exact H1|]. split.
  - intros keys Hk. apply H1 in Hk. clear H1.
    induction Hk as [|d k ds ks Hdk _ IH]; [done|].
    cbn. f_equal; [apply Hdk|exact IH].
  - intros H. apply comprehension_is_Ok.
    eapply Forall_impl; [exact H|]. intros d. apply _build_key_buildable.
Qed.

Lemma _build_secondary_index_built (d : IndexDetails) (i : Index) :
  _build_secondary_index d = Ok i ->
  index_name i = id_name d /\ index_class i = id_type d /\
  _build_keys (default [] (id_parts d)) = Ok (index_parts i) /\
  (index_throughput i = Some fields.default_index_throughput /\ global_class (id_type d)
   \/ index_throughput i = None /\ ~ global_class (id_type d)).
Proof.
  unfold _build_secondary_index, _build_keys, global_class. unfold mbind, result_bind.
  destruct (fields.getattr (id_type d)) as [[a|cls g|v]|] eqn:E; [| | |done].
  - by destruct (comprehension _ _).
  - destruct (comprehension _build_key _) as [parts|e]; [|done]. intros [= <-]. cbn.
    assert (cls = id_type d) as ->.
    { unfold fields.getattr in E.
      repeat (destruct (String.eqb (id_type d) _); [by injection E as <- <- || discriminate E|]).
      discriminate E. }
    repeat split. destruct g.
    + left. eauto.
    + right. split; [done|]. by intros [cls' [=]].
  - by destruct (comprehension _ _).
Qed.

(** X11: [_build_secondary_indexes] builds one index per entry, in the order
    of the entries, under the entry's name and class and with the keys built
    from its parts (none when the entry has no parts).  The built index
    carries a throughput, boto's default, exactly when its class is one of
    the [Global*] classes. *)
Theorem _build_secondary_indexes_builds_every_entry
    (indexes_config : list IndexDetails) (built : list Index) :
  _build_secondary_indexes indexes_config = Ok built ->
  index_name <$> built = id_name <$> indexes_config /\
  index_class <$> built = id_type <$> indexes_config /\
  Forall2 (fun d i =>
             _build_keys (default [] (id_parts d)) = Ok (index_parts i) /\
             (is_Some (index_throughput i) <-> global_class (id_type d)) /\
             (forall t, index_throughput i = Some t -> t = fields.default_index_throughput))
    indexes_config built.
Proof.
  unfold _build_secondary_indexes. rewrite comprehension_Ok.
  induction 1 as [|d i ds built' Hdi _ (IH1 & IH2 & IH3)]; [done|].
  apply _build_secondary_index_built in Hdi as (Hn & Hc & Hp & Ht). cbn.
  split; [by f_equal|]. split; [by f_equal|]. constructor; [|done].
  split; [done|]. destruct Ht as [[-> Hg]|[-> Hg]].
  - split; [done|]. by intros t [= <-].
  - split; [|done]. split; [by intros [t [=]]|done].
Qed.

(** ** Table names, the other way round *)

Lemma app_slice_from_prefix (ns s : string) :
  (ns ++ slice_from (String.length ns) s)%string = s <-> String.prefix ns s = true.
Proof.
  revert s. induction ns as [|a ns IH]; intros s.
  - by destruct s.
  - destruct s as [|b s]; [done|]. cbn.
    destruct (ascii_dec a b) as [->|Hne].
    + rewrite <- IH. split; [by intros [= E]|]. intros E.
      change (String b (ns ++ slice_from (String.length ns) s) = String b s). by rewrite E.
    + split; [|done]. by intros [= ? _].
Qed.

(** X12: taking the namespace off a name and putting it on again gives the
    name back exactly when the name starts with the namespace:
    [get_reverse_table_name] cuts off as many characters as the namespace
    has, whatever they are. *)
Theorem get_table_name_after_get_reverse_table_name
    (w : World) (c : Config) (ns name : string) :
  _cached_config w = Some c ->
  namespace c = PStr ns ->
  get_reverse_table_name name w = (w, Ok (slice_from (String.length ns) name)) /\
  ((get_reverse_table_name name ≫= get_table_name) w = (w, Ok name)
   <-> String.prefix ns name = true).
Proof.
  intros Hc Hns. unfold get_table_name, get_reverse_table_name. unfold_monad.
  rewrite !(get_config_cached _ _ _ Hc), Hns. cbn.
  rewrite !(get_config_cached _ _ _ Hc), Hns. cbn.
  split; [done|]. rewrite <- app_slice_from_prefix. split; [by intros [= ->]|by intros ->].
Qed.

(** ** With a loaded configuration *)

Lemma get_connection_cached (w : World) (c : Config) :
  _cached_config w = Some c -> exists conn, get_connection w = (w, Ok conn).
Proof.
  intros Hc. unfold get_connection. unfold_monad. rewrite (get_config_cached _ _ _ Hc).
  destruct (truthy (host c)); eauto.
Qed.

Lemma connection_or_default_cached (w : World) (c : Config) (connection : option Connection) :
  _cached_config w = Some c ->
  exists conn, connection_or_default connection w = (w, Ok conn) /\
    forall conn', connection = Some conn' -> conn = conn'.
Proof.
  intros Hc. destruct connection as [conn|]; cbn.
  - exists conn. split; [done|]. by intros conn' [= ->].
  - destruct (get_connection_cached w c Hc) as [conn ->]. by exists conn.
Qed.

Lemma _get_or_default_throughput_cached (w : World) (c : Config) (thr : throughput_arg) :
  _cached_config w = Some c ->
  (forall t, resolves_to thr c t -> _get_or_default_throughput thr w = (w, Ok t)) /\
  ((forall t, ~ resolves_to thr c t) ->
   thr = ThroughputFalse /\
   _get_or_default_throughput thr w = (w, Raise (KeyError "default_throughput"))).
Proof.
  intros Hc. unfold _get_or_default_throughput, resolves_to. destruct thr as [|t0].
  - unfold_monad. rewrite (get_config_cached _ _ _ Hc).
    destruct (yaml_default_throughput (yaml c)) as [t0|].
    + split; [by intros t [= ->]|]. intros H. by destruct (H t0).
    + split; [by intros t|done].
  - split; [by intros t ->|]. intros H. by destruct (H t0).
Qed.

Lemma _get_table_metadata_undeclared (w : World) (c : Config) (table_name : string) :
  _cached_config w = Some c -> ~ declares_table c table_name ->
  _get_table_metadata table_name w
  = (add_log (LogException "cc_dynamodb.UnknownTable") w,
     Raise (UnknownTableException ("Unknown table: " ++ table_name))).
Proof.
  intros Hc Hn. unfold _get_table_metadata, declares_table in *. unfold_monad.
  rewrite (get_config_cached _ _ _ Hc).
  destruct (option_bind _ _ _ (yaml_schemas (yaml c))) as [kc|]; [|done]. by destruct Hn.
Qed.

Lemma _get_table_metadata_declared (w w1 : World) (c : Config) (table_name : string)
    (md : TableMetadata) :
  _cached_config w = Some c ->
  _get_table_metadata table_name w = (w1, Ok md) ->
  w1 = w /\
  exists keys_config,
    yaml_schemas (yaml c) ≫= (fun schemas => schemas !! table_name) = Some keys_config /\
    _build_keys keys_config = Ok (md_schema md) /\
    _build_secondary_indexes
      (default [] (default ∅ (yaml_global_indexes (yaml c)) !! table_name))
      = Ok (md_global_indexes md) /\
    _build_secondary_indexes (default [] (default ∅ (yaml_indexes (yaml c)) !! table_name))
      = Ok (md_indexes md).
Proof.
  intros Hc. unfold _get_table_metadata. unfold_monad.
  rewrite (get_config_cached _ _ _ Hc).
  destruct (option_bind _ _ _ (yaml_schemas (yaml c))) as [kc|]; [|done].
  destruct (_build_keys kc) as [ks|e] eqn:Hks; [|done].
  destruct (_build_secondary_indexes (default [] (default ∅ (yaml_global_indexes _) !! _)))
    as [gs|e]; [|done].
  destruct (_build_secondary_indexes (default [] (default ∅ (yaml_indexes _) !! _)))
    as [ls|e]; [|done].
  intros [= <- <-]. split; [done|]. by exists kc.
Qed.

(** What is known of the init data once they are built. *)
Lemma _get_table_init_data_built
    (w w1 : World) (table_name : string) (connection : option Connection)
    (thr : throughput_arg) (d : Table) :
  _get_table_init_data table_name connection thr w = (w1, Ok d) ->
  exists c ns keys_config,
    get_config ∅ w = (w1, Ok c) /\ _cached_config w1 = Some c /\
    namespace c = PStr ns /\ table.table_name d = (ns ++ table_name)%string /\
    resolves_to thr c (table.throughput d) /\
    (forall conn, connection = Some conn -> table.connection d = conn) /\
    yaml_schemas (yaml c) ≫= (fun schemas => schemas !! table_name) = Some keys_config /\
    _build_keys keys_config = Ok (table.schema d) /\
    _build_secondary_indexes
      (default [] (default ∅ (yaml_global_indexes (yaml c)) !! table_name))
      = Ok (table.global_indexes d) /\
    _build_secondary_indexes (default [] (default ∅ (yaml_indexes (yaml c)) !! table_name))
      = Ok (table.indexes d).
Proof.
  unfold _get_table_init_data, get_table_name. unfold_monad.
  destruct (get_config ∅ w) as [w' [c|e]] eqn:Hg; [|done].
  pose proof (get_config_caches _ _ _ _ Hg) as Hc.
  destruct (namespace c) as [| | |ns] eqn:Hns; try done.
  destruct (connection_or_default_cached w' c connection Hc) as (conn & -> & Hconn).
  destruct (_get_or_default_throughput_cached w' c thr Hc) as [Hthr _].
  destruct (_get_or_default_throughput thr w') as [w2 [t|e]] eqn:Ht; [|done].
  assert (w2 = w' /\ resolves_to thr c t) as [-> Hres].
  { revert Ht. unfold _get_or_default_throughput, resolves_to. destruct thr as [|t0].
    - unfold_monad. rewrite (get_config_cached _ _ _ Hc).
      destruct (yaml_default_throughput (yaml c)); [|done]. by intros [= <- <-].
    - by intros [= <- <-]. }
  destruct (_get_table_metadata table_name w') as [w3 [md|e]] eqn:Hmd; [|done].
  destruct (_get_table_metadata_declared _ _ _ _ _ Hc Hmd) as (-> & kc & Hkc & Hs & Hgs & Hls).
  intros [= <- <-]. exists c, ns, kc. cbn. repeat split; eauto.
Qed.

(** ** Tables the configuration does not have *)

(** X13: for a table without a schema in the configuration, [get_table],
    [create_table] and [update_table] log the [KeyError] and raise
    [UnknownTableException] with the name as it was given; no call is made
    on the service. *)
Theorem unknown_table_is_rejected_before_any_call
    (dict_items : forall V, gmap string V -> list (string * V))
    (w : World) (c : Config) (ns table_name : string)
    (connection : option Connection) (thr : throughput_arg) (t : Throughput) :
  _cached_config w = Some c ->
  namespace c = PStr ns ->
  resolves_to thr c t ->
  ~ declares_table c table_name ->
  let w' := add_log (LogException "cc_dynamodb.UnknownTable") w in
  let e := UnknownTableException ("Unknown table: " ++ table_name) in
  get_table table_name connection w = (w', Raise e) /\
  create_table table_name connection thr w = (w', Raise e) /\
  update_table dict_items table_name connection thr w = (w', Raise e) /\
  calls w' = calls w.
Proof.
  intros Hc Hns Hthr Hn w' e.
  destruct (connection_or_default_cached w c connection Hc) as (conn & Hconn & _).
  destruct (_get_or_default_throughput_cached w c thr Hc) as [Ht _].
  assert (Hinit : _get_table_init_data table_name connection thr w = (w', Raise e)).
  { unfold _get_table_init_data, get_table_name. unfold_monad.
    rewrite (get_config_cached _ _ _ Hc), Hns, Hconn, (Ht _ Hthr).
    by rewrite (_get_table_metadata_undeclared _ _ _ Hc Hn). }
  split; [|split; [|split]].
  - unfold get_table, get_table_name. unfold_monad.
    rewrite (get_config_cached _ _ _ Hc), Hns, Hconn.
    by rewrite (_get_table_metadata_undeclared _ _ _ Hc Hn).
  - unfold create_table, try_except. unfold_monad. by rewrite Hinit.
  - unfold update_table. unfold_monad. by rewrite Hinit.
  - done.
Qed.

(** X14: without a throughput argument and without [default_throughput] in
    the configuration, [create_table] and [update_table] raise the
    [KeyError] of the missing entry, whether the table is declared or not,
    and make no call. *)
Theorem missing_default_throughput_is_a_KeyError
    (dict_items : forall V, gmap string V -> list (string * V))
    (w : World) (c : Config) (ns table_name : string) (connection : option Connection) :
  _cached_config w = Some c ->
  namespace c = PStr ns ->
  yaml_default_throughput (yaml c) = None ->
  create_table table_name connection ThroughputFalse w
    = (w, Raise (KeyError "default_throughput")) /\
  update_table dict_items table_name connection ThroughputFalse w
    = (w, Raise (KeyError "default_throughput")).
Proof.
  intros Hc Hns Hthr.
  destruct (connection_or_default_cached w c connection Hc) as (conn & Hconn & _).
  assert (Hinit : _get_table_init_data table_name connection ThroughputFalse w
                  = (w, Raise (KeyError "default_throughput"))).
  { unfold _get_table_init_data, get_table_name, _get_or_default_throughput. unfold_monad.
    rewrite (get_config_cached _ _ _ Hc), Hns, Hconn.
    by rewrite (get_config_cached _ _ _ Hc), Hthr. }
  split.
  - unfold create_table, try_except. unfold_monad. by rewrite Hinit.
  - unfold update_table. unfold_monad. by rewrite Hinit.
Qed.

(** ** The handle *)

(** X15: [get_table] builds the handle that [create_table] and [update_table]
    build, with boto's default throughput in place of the given one. *)
Theorem get_table_builds_the_init_data
    (w : World) (table_name : string) (connection : option Connection) (t : Throughput) :
  get_table table_name connection w
  = match _get_table_init_data table_name connection (ThroughputDict t) w with
    | (w1, Ok d) => (w1, Ok (with_throughput {| read := 5; write := 5 |} d))
    | (w1, Raise e) => (w1, Raise e)
    end.
Proof.
  unfold get_table, _get_table_init_data. unfold_monad.
  destruct (get_table_name table_name w) as [w1 [n|e]]; [|done].
  destruct (connection_or_default connection w1) as [w2 [conn|e]]; [|done]. cbn.
  by destruct (_get_table_metadata table_name w2) as [w3 [md|e]].
Qed.

(** ** Table creation *)

Lemma create_table_run
    (w : World) (table_name : string) (connection : option Connection) (thr : throughput_arg) :
  create_table table_name connection thr w
  = match _get_table_init_data table_name connection thr w with
    | (w0, Ok d) =>
        (add_call (Create d) w0,
         match response (remote w0) (calls w0) (Create d) with
         | None => Ok d
         | Some e => Raise (raised_by_create_table e)
         end)
    | (w0, Raise e) => (w0, Raise (raised_by_create_table e))
    end.
Proof.
  unfold create_table, try_except, service_call. unfold_monad.
  destruct (_get_table_init_data table_name connection thr w) as [w0 [d|e]].
  - destruct (response (remote w0) (calls w0) (Create d)) as [e|]; [|done].
    destruct e; try done. cbn. by destruct ((status =? 400) && bool_decide _).
  - destruct e; try done. cbn. by destruct ((status =? 400) && bool_decide _).
Qed.

(** X16: when [create_table] returns, it returns the init data: the name is
    the namespace followed by the given name, the throughput is the given
    one or else the configured default, the key schema and the indexes are
    built from the table's entries in the configuration; and it has made one
    call, the creation with these init data, which the service accepted. *)
Theorem create_table_returns_the_init_data
    (w w1 : World) (table_name : string) (connection : option Connection)
    (thr : throughput_arg) (d : Table) :
  create_table table_name connection thr w = (w1, Ok d) ->
  (exists c ns keys_config,
     _cached_config w1 = Some c /\ namespace c = PStr ns /\
     table.table_name d = (ns ++ table_name)%string /\
     resolves_to thr c (table.throughput d) /\
     (forall conn, connection = Some conn -> table.connection d = conn) /\
     yaml_schemas (yaml c) ≫= (fun schemas => schemas !! table_name) = Some keys_config /\
     _build_keys keys_config = Ok (table.schema d) /\
     _build_secondary_indexes
       (default [] (default ∅ (yaml_global_indexes (yaml c)) !! table_name))
       = Ok (table.global_indexes d)) /\
  calls w1 = (calls w ++ [Create d])%list /\
  response (remote w) (calls w) (Create d) = None.
Proof.
  rewrite create_table_run.
  destruct (_get_table_init_data table_name connection thr w) as [w0 [d0|e]] eqn:Hinit;
    [|done].
  pose proof (quiet__get_table_init_data table_name connection thr w) as [Hcalls Hremote].
  rewrite Hinit in Hcalls, Hremote. cbn in Hcalls, Hremote. rewrite Hremote, Hcalls.
  destruct (response (remote w) (calls w) (Create d0)) as [e|] eqn:Hresp; [done|].
  intros [= <- <-].
  destruct (_get_table_init_data_built _ _ _ _ _ _ Hinit)
    as (c & ns & kc & _ & Hc & Hns & Hn & Hres & Hconn & Hkc & Hs & Hgs & _).
  split; [|split; [by cbn; rewrite Hcalls|done]].
  exists c, ns, kc. repeat split; eauto.
Qed.

(** X17: whatever happens, [create_table] makes at most one call on the
    service, and if it makes one it is the creation with the init data. *)
Theorem create_table_makes_at_most_one_call
    (w : World) (table_name : string) (connection : option Connection) (thr : throughput_arg) :
  let w' := (create_table table_name connection thr w).1 in
  remote w' = remote w /\
  (calls w' = calls w \/
   exists d, (_get_table_init_data table_name connection thr w).2 = Ok d /\
     calls w' = (calls w ++ [Create d])%list).
Proof.
  cbv zeta. rewrite create_table_run.
  pose proof (quiet__get_table_init_data table_name connection thr w) as [Hcalls Hremote].
  destruct (_get_table_init_data table_name connection thr w) as [w0 [d0|e]];
    cbn in Hcalls, Hremote |- *.
  - split; [done|]. right. exists d0. by rewrite Hcalls.
  - split; [done|by left].
Qed.

(** ** The calls of [update_table] *)

Lemma quiet_calling {A} (P : Call -> Prop) (m : M A) : quiet m -> calling P m.
Proof.
  intros H w. destruct (H w) as [Hc Hr]. split; [done|].
  exists []. by rewrite app_nil_r.
Qed.

Lemma calling_bind {A B} (P : Call -> Prop) (m : M A) (f : A -> M B) :
  calling P m -> (forall a, calling P (f a)) -> calling P (m ≫= f).
Proof.
  intros Hm Hf w. unfold mbind, M_bind. destruct (Hm w) as (Hr & made & Hc & HP).
  destruct (m w) as [w' [a|e]]; cbn in *; [|eauto].
  destruct (Hf a w') as (Hr' & made' & Hc' & HP'). split; [congruence|].
  exists (made ++ made')%list. rewrite Hc', Hc, app_assoc. split; [done|].
  by apply Forall_app.
Qed.

Lemma calling_try_except {A} (P : Call -> Prop) (body : M A) (handler : exn -> M A) :
  calling P body -> (forall e, calling P (handler e)) -> calling P (try_except body handler).
Proof.
  intros Hm Hf w. unfold try_except. destruct (Hm w) as (Hr & made & Hc & HP).
  destruct (body w) as [w' [a|e]]; cbn in *; [eauto|].
  destruct (Hf e w') as (Hr' & made' & Hc' & HP'). split; [congruence|].
  exists (made ++ made')%list. rewrite Hc', Hc, app_assoc. split; [done|].
  by apply Forall_app.
Qed.

Lemma calling_service_call (P : Call -> Prop) (c : Call) : P c -> calling P (service_call c).
Proof. intros H w. split; [done|]. exists [c]. split; [done|]. by constructor. Qed.

Lemma calling_describe (P : Call -> Prop) (t : string) :
  P (Describe t) -> calling P (describe t).
Proof. intros H w. split; [done|]. exists [Describe t]. split; [done|]. by constructor. Qed.

Lemma calling_for_each {A} (P : Call -> Prop) (xs : list A) (body : A -> M unit) :
  (forall x, calling P (body x)) -> calling P (for_each xs body).
Proof.
  intros H. induction xs as [|x xs IH]; cbn.
  - apply quiet_calling, quiet_ret.
  - by apply calling_bind.
Qed.

Lemma calling_reconcile_local (db_table : Table) (name : string)
    (U : gmap string UpstreamIndex) (item : string * Index) :
  calling (on_existing_table (table.table_name db_table))
    (reconcile_local db_table name U item).
Proof.
  destruct item as [n idx]. unfold reconcile_local.
  destruct (U !! n); [destruct (index_throughput idx)|].
  - apply calling_bind; [by apply calling_service_call|].
    intros _. apply quiet_calling, quiet_logger.
  - apply quiet_calling, quiet_raise.
  - apply calling_bind; [by apply calling_service_call|].
    intros _. apply quiet_calling, quiet_logger.
Qed.

Lemma calling_reconcile_upstream (db_table : Table) (name : string)
    (L : gmap string Index) (n : string) :
  calling (on_existing_table (table.table_name db_table))
    (reconcile_upstream db_table name L n).
Proof.
  unfold reconcile_upstream. destruct (L !! n).
  - apply quiet_calling, quiet_ret.
  - apply calling_bind; [by apply calling_service_call|].
    intros _. apply quiet_calling, quiet_logger.
Qed.

(** X18: once the handle is built, every call of [update_table] is a call on
    the namespaced table and none creates a table; the first one is the
    describe call, whatever the service answers and in whatever order the
    dicts are iterated. *)
Theorem update_table_calls_are_on_the_table
    (dict_items : forall V, gmap string V -> list (string * V))
    (w w1 : World) (name : string) (conn : option Connection) (thr : throughput_arg)
    (db_table : Table) :
  _get_table_init_data name conn thr w = (w1, Ok db_table) ->
  let tn := table.table_name db_table in
  let r := update_table dict_items name conn thr w in
  remote r.1 = remote w /\
  exists made, calls r.1 = (calls w ++ Describe tn :: made)%list /\
    Forall (on_existing_table tn) made.
Proof.
  intros Hinit tn r.
  pose proof (quiet__get_table_init_data name conn thr w) as [Hcalls Hremote].
  rewrite Hinit in Hcalls, Hremote. cbn in Hcalls, Hremote.
  subst r. unfold update_table.
  match goal with |- context [_get_table_init_data name conn thr ≫= ?k] => set (rest := k) end.
  change ((_get_table_init_data name conn thr ≫= rest) w)
    with (@M_bind _ _ rest (_get_table_init_data name conn thr) w).
  unfold M_bind. rewrite Hinit. subst rest. cbv beta zeta.
  match goal with |- context [try_except (describe _ ≫= ?k) ?h] =>
    set (body := k); set (handler := h) end.
  assert (Hbody : forall meta, calling (on_existing_table tn) (body meta)).
  { intros meta. subst body. cbv beta.
    apply calling_bind; [apply quiet_calling, quiet_lift|]. intros _.
    apply calling_bind; [by apply calling_service_call|]. intros _.
    apply calling_bind; [apply calling_for_each; intros x; apply calling_reconcile_local|].
    intros _. apply calling_for_each. intros x. apply calling_reconcile_upstream. }
  assert (Hhandler : forall e, quiet (handler e)).
  { intros e. subst handler. cbv beta. destruct e; auto with quiet.
    destruct (_ && _); auto with quiet. }
  unfold mbind, M_bind, try_except, describe.
  fold tn.
  destruct (describe_response (remote w1) (calls w1) tn) as [meta|e].
  - destruct (Hbody meta (add_call (Describe tn) w1)) as (Hr & made & Hc & HP).
    destruct (body meta (add_call (Describe tn) w1)) as [w2 [[]|e]]; cbn in Hr, Hc |- *.
    + split; [congruence|].
      exists made. rewrite Hc, Hcalls, <- app_assoc. done.
    + destruct (Hhandler e w2) as [Hc' Hr'].
      destruct (handler e w2) as [w3 [[]|e']]; cbn in Hr', Hc' |- *.
      * split; [congruence|].
        exists made. rewrite Hc', Hc, Hcalls, <- app_assoc. done.
      * split; [congruence|].
        exists made. rewrite Hc', Hc, Hcalls, <- app_assoc. done.
  - destruct (Hhandler e (add_call (Describe tn) w1)) as [Hc' Hr'].
    destruct (handler e (add_call (Describe tn) w1)) as [w3 [[]|e']]; cbn in Hr', Hc' |- *.
    + split; [congruence|].
      exists []. rewrite Hc', Hcalls. done.
    + split; [congruence|].
      exists []. rewrite Hc', Hcalls. done.
Qed.

(** X19: the outcome of [update_table] when the describe call fails.  The
    "table not found" answer becomes [UnknownTableException] with the name
    as it was given; an exception that is not a [JSONResponseError] is
    raised as it is; in both cases nothing is called after the describe
    call. *)
Theorem update_table_describe_fails
    (dict_items : forall V, gmap string V -> list (string * V))
    (w w1 : World) (name : string) (conn : option Connection) (thr : throughput_arg)
    (db_table : Table) (e : exn) :
  _get_table_init_data name conn thr w = (w1, Ok db_table) ->
  describe_response (remote w1) (calls w1) (table.table_name db_table) = Raise e ->
  let r := update_table dict_items name conn thr w in
  calls r.1 = (calls w ++ [Describe (table.table_name db_table)])%list /\
  (not_found e -> r.2 = Raise (UnknownTableException ("Unknown table: " ++ name))) /\
  ((forall status error_code body, e <> JSONResponseError status error_code body) ->
   r.2 = Raise e).
Proof.
  intros Hinit Hdesc r. subst r.
  pose proof (quiet__get_table_init_data name conn thr w) as [Hcalls _].
  rewrite Hinit in Hcalls. cbn in Hcalls.
  unfold update_table, try_except, describe. unfold_monad.
  rewrite Hinit, Hdesc. cbn. split; [|split].
  - destruct e; cbn; try (by rewrite Hcalls).
    destruct (_ && _); cbn; by rewrite Hcalls.
  - intros [body ->]. cbn. by rewrite bool_decide_eq_true_2.
  - intros Hne. destruct e; try done. by destruct (Hne status error_code body).
Qed.

(** X26: once the handle is built, no [JSONResponseError] leaves
    [update_table], whatever the service answers to whichever call: the
    handler takes every one of them, and raises [UnknownTableException] or
    nothing. *)
Theorem update_table_lets_no_JSONResponseError_through
    (dict_items : forall V, gmap string V -> list (string * V))
    (w w1 : World) (name : string) (conn : option Connection) (thr : throughput_arg)
    (db_table : Table) (status : Z) (error_code : option string) (body : string) :
  _get_table_init_data name conn thr w = (w1, Ok db_table) ->
  (update_table dict_items name conn thr w).2
    <> Raise (JSONResponseError status error_code body).
Proof.
  intros Hinit. unfold update_table.
  match goal with |- context [_get_table_init_data name conn thr ≫= ?k] => set (rest := k) end.
  change ((_get_table_init_data name conn thr ≫= rest) w)
    with (@M_bind _ _ rest (_get_table_init_data name conn thr) w).
  unfold M_bind. rewrite Hinit. subst rest. cbv beta zeta.
  match goal with |- context [try_except ?b ?h] => generalize b; intros run end.
  unfold mbind, M_bind, try_except.
  destruct (run w1) as [w2 [[]|e]]; [done|].
  destruct e; try done. unfold_monad.
  by destruct (_ && _).
Qed.

(** ** The index calls, by name *)

Lemma dict_of_pairs_by_name {V} (key : V -> string) (l : list V) (k : string) (v : V) :
  NoDup (key <$> l) ->
  dict_of_pairs ((fun x => (key x, x)) <$> l) !! k = Some v <-> v ∈ l /\ key v = k.
Proof.
  intros Hnd. rewrite dict_of_pairs_NoDup.
  2:{ rewrite <- list_fmap_compose. exact Hnd. }
  rewrite list_elem_of_fmap. split.
  - by intros (x & [= -> ->] & Hin).
  - intros [Hin <-]. by exists v.
Qed.

Lemma dict_of_pairs_names {V} (key : V -> string) (l : list V) (k : string) :
  NoDup (key <$> l) ->
  is_Some (dict_of_pairs ((fun x => (key x, x)) <$> l) !! k) <-> k ∈ key <$> l.
Proof.
  intros Hnd. rewrite list_elem_of_fmap. split.
  - intros [v Hv]. apply dict_of_pairs_by_name in Hv as [Hin <-]; [|done]. by exists v.
  - intros (v & -> & Hin). exists v. by apply dict_of_pairs_by_name.
Qed.

(** The calls read off the two lists are the planned ones, each once. *)
Lemma planned_calls_planned (tn : string) (db_table : Table) (meta : TableDescription) :
  let locals := table.global_indexes db_table in
  let upstream := default [] (GlobalSecondaryIndexes meta) in
  NoDup (index_name <$> locals) -> NoDup (IndexName <$> upstream) ->
  NoDup (planned_calls tn locals upstream) /\
  forall c, c ∈ planned_calls tn locals upstream <->
            planned tn (local_indexes_by_name db_table) (upstream_indexes_by_name meta) c.
Proof.
  intros locals upstream HL HU.
  assert (Hl : forall n idx, local_indexes_by_name db_table !! n = Some idx
                 <-> idx ∈ locals /\ index_name idx = n).
  { intros n idx. by apply dict_of_pairs_by_name. }
  assert (Hln : forall n, local_indexes_by_name db_table !! n = None
                  <-> n ∉ index_name <$> locals).
  { intros n. rewrite <- (dict_of_pairs_names index_name locals n HL).
    by rewrite eq_None_not_Some. }
  assert (Hu : forall n, is_Some (upstream_indexes_by_name meta !! n)
                 <-> n ∈ IndexName <$> upstream).
  { intros n. by apply dict_of_pairs_names. }
  assert (Hun : forall n, upstream_indexes_by_name meta !! n = None
                  <-> n ∉ IndexName <$> upstream).
  { intros n. rewrite <- Hu. by rewrite eq_None_not_Some. }
  assert (Hinj : forall x y, x ∈ locals -> y ∈ locals -> index_name x = index_name y -> x = y).
  { intros x y Hx Hy E.
    assert (H1 : local_indexes_by_name db_table !! index_name x = Some x) by by apply Hl.
    assert (H2 : local_indexes_by_name db_table !! index_name x = Some y) by by apply Hl.
    congruence. }
  unfold planned_calls. fold locals upstream. split.
  - apply NoDup_app. split; [|split].
    + apply NoDup_fmap_2; [by intros x y [=]|].
      apply NoDup_filter. by apply NoDup_fmap_1 in HL.
    + intros c Hc Hc'. apply list_elem_of_fmap in Hc as (idx & -> & _).
      apply elem_of_app in Hc' as [Hc'|Hc'].
      * apply list_elem_of_omap in Hc' as (idx' & _ & Hf). unfold throughput_update in Hf.
        by destruct (index_throughput idx').
      * by apply list_elem_of_fmap in Hc' as (n & [=] & _).
    + apply NoDup_app. split; [|split].
      * apply NoDup_omap_inj.
        -- apply NoDup_filter. by apply NoDup_fmap_1 in HL.
        -- intros x y b Hx Hy Hfx Hfy.
           apply list_elem_of_filter in Hx as [_ Hx]. apply list_elem_of_filter in Hy as [_ Hy].
           apply Hinj; [done|done|]. unfold throughput_update in Hfx, Hfy.
           destruct (index_throughput x), (index_throughput y); cbn in *; congruence.
      * intros c Hc Hc'. apply list_elem_of_omap in Hc as (idx & _ & Hf).
        apply list_elem_of_fmap in Hc' as (n & -> & _). unfold throughput_update in Hf.
        by destruct (index_throughput idx).
      * apply NoDup_fmap_2; [by intros x y [=]|]. by apply NoDup_filter.
  - intros c. rewrite !elem_of_app, !list_elem_of_fmap, list_elem_of_omap. split.
    + intros [(idx & -> & Hin)|[(idx & Hin & Hf)|(n & -> & Hin)]].
      * apply list_elem_of_filter in Hin as [Hn Hin].
        apply (planned_create _ _ _ (index_name idx)); [by apply Hl|by apply Hun].
      * apply list_elem_of_filter in Hin as [Hn Hin]. unfold throughput_update in Hf.
        destruct (index_throughput idx) as [t|] eqn:Ht; [|done]. injection Hf as <-.
        apply (planned_update _ _ _ (index_name idx) idx t); [by apply Hl|by apply Hu|done].
      * apply list_elem_of_filter in Hin as [Hn Hin].
        apply planned_delete; [by apply Hu|by apply Hln].
    + intros [n idx Hidx HUn|n idx t Hidx HUn Ht|n HUn Hidx].
      * apply Hl in Hidx as [Hin <-]. left. exists idx. split; [done|].
        apply list_elem_of_filter. split; [by apply Hun|done].
      * apply Hl in Hidx as [Hin <-]. right. left. exists idx. split.
        -- apply list_elem_of_filter. split; [by apply Hu|done].
        -- unfold throughput_update. by rewrite Ht.
      * right. right. exists n. split; [done|].
        apply list_elem_of_filter. split; [by apply Hln|by apply Hu].
Qed.

Lemma built_index_throughput (indexes_config : list IndexDetails) (built : list Index) :
  _build_secondary_indexes indexes_config = Ok built ->
  Forall (fun index => forall t, index_throughput index = Some t ->
                                 t = fields.default_index_throughput) built.
Proof.
  unfold _build_secondary_indexes. rewrite comprehension_Ok.
  induction 1 as [|d i ds built' Hdi _ IH]; constructor; [|done].
  apply _build_secondary_index_built in Hdi as (_ & _ & _ & [[-> _]|[-> _]]).
  - by intros t [= <-].
  - done.
Qed.

Lemma filter_all {A} (P : A -> Prop) `{forall x, Decision (P x)} (l : list A) :
  (forall x, x ∈ l -> P x) -> filter P l = l.
Proof.
  induction l as [|x l IH]; intros Hall; [done|].
  rewrite filter_cons_True by (apply Hall; left).
  f_equal. apply IH. intros y Hy. apply Hall. by right.
Qed.

Lemma filter_none {A} (P : A -> Prop) `{forall x, Decision (P x)} (l : list A) :
  (forall x, x ∈ l -> ~ P x) -> filter P l = [].
Proof.
  induction l as [|x l IH]; intros Hnone; [done|].
  rewrite filter_cons_False by (apply Hnone; left).
  apply IH. intros y Hy. apply Hnone. by right.
Qed.

Section reconciliation.

Variable dict_items : forall V, gmap string V -> list (string * V).
Hypothesis dict_items_perm : forall V (m : gmap string V), dict_items V m ≡ₚ map_to_list m.

(** The index calls of an uninterrupted run, up to their order. *)
Lemma update_table_makes_the_planned_calls
    (w w1 : World) (name : string) (conn : option Connection) (thr : throughput_arg)
    (db_table : Table) (meta : TableDescription) :
  _get_table_init_data name conn thr w = (w1, Ok db_table) ->
  describe_response (remote w1) (calls w1) (table.table_name db_table) = Ok meta ->
  _validate_schema (table.schema db_table) meta = Ok tt ->
  accepting (remote w1) ->
  let tn := table.table_name db_table in
  let locals := table.global_indexes db_table in
  let upstream := default [] (GlobalSecondaryIndexes meta) in
  NoDup (index_name <$> locals) ->
  NoDup (IndexName <$> upstream) ->
  Forall (fun index => is_Some (index_throughput index)) locals ->
  exists ops,
    calls (update_table dict_items name conn thr w).1
      = (calls w ++ Describe tn :: Update tn thr :: ops)%list /\
    ops ≡ₚ planned_calls tn locals upstream.
Proof.
  intros Hinit Hdesc Hvalid Hacc tn locals upstream HL HU Hthr.
  destruct (update_table_run dict_items dict_items_perm w w1 name conn thr db_table meta)
    as [_ Hcalls]; try done.
  destruct (loops_make_the_planned_calls dict_items dict_items_perm tn db_table
              (upstream_indexes_by_name meta) Hthr) as [Hnd Hops].
  destruct (planned_calls_planned tn db_table meta HL HU) as [Hnd' Hplan].
  eexists. split; [exact Hcalls|].
  apply NoDup_Permutation; [exact Hnd|exact Hnd'|].
  intros c. etrans; [exact (Hops c)|]. symmetry. exact (Hplan c).
Qed.

(** C3: on a run that is not interrupted (the description is obtained, the
    primary key is valid, the service accepts every call), with local and
    upstream global indexes of distinct names and local indexes of the
    [Global*] classes: after the describe call and the table's throughput
    update, the index calls of [update_table] are, in some order, exactly
    one creation for each local index whose name is not upstream, with the
    index as built; one throughput update for each local index whose name
    is upstream, with the throughput of the built index; and one deletion
    for each upstream name that is not local.  The throughput of a built
    index is boto's default, read 5 and write 5: the builder passes no
    throughput on, whatever the entry of the index declares. *)
Theorem update_table_reconciles_indexes
    (w w1 : World) (name : string) (conn : option Connection) (thr : throughput_arg)
    (db_table : Table) (meta : TableDescription) :
  _get_table_init_data name conn thr w = (w1, Ok db_table) ->
  describe_response (remote w1) (calls w1) (table.table_name db_table) = Ok meta ->
  _validate_schema (table.schema db_table) meta = Ok tt ->
  accepting (remote w1) ->
  let tn := table.table_name db_table in
  let locals := table.global_indexes db_table in
  let upstream := default [] (GlobalSecondaryIndexes meta) in
  NoDup (index_name <$> locals) ->
  NoDup (IndexName <$> upstream) ->
  Forall (fun index => is_Some (index_throughput index)) locals ->
  Forall (fun index => index_throughput index = Some fields.default_index_throughput) locals /\
  exists thr' ops,
    calls (update_table dict_items name conn thr w).1
      = (calls w ++ Describe tn :: Update tn thr' :: ops)%list /\
    ops ≡ₚ planned_calls tn locals upstream.
Proof.
  intros Hinit Hdesc Hvalid Hacc tn locals upstream HL HU Hthr. split.
  - destruct (_get_table_init_data_built _ _ _ _ _ _ Hinit)
      as (c & ns & kc & _ & _ & _ & _ & _ & _ & _ & _ & Hgs & _).
    apply built_index_throughput in Hgs. fold locals in Hgs.
    rewrite Forall_forall in Hthr, Hgs. apply Forall_forall. intros idx Hin.
    destruct (Hthr idx Hin) as [t Ht]. by rewrite Ht, (Hgs idx Hin t Ht).
  - exists thr.
    by apply (update_table_makes_the_planned_calls w w1 name conn thr db_table meta).
Qed.

(** X20: on an uninterrupted run of [update_table], the index calls come in
    two groups: first the creations and the throughput updates, then the
    deletions. *)
Theorem update_table_deletes_last
    (w w1 : World) (name : string) (conn : option Connection) (thr : throughput_arg)
    (db_table : Table) (meta : TableDescription) :
  _get_table_init_data name conn thr w = (w1, Ok db_table) ->
  describe_response (remote w1) (calls w1) (table.table_name db_table) = Ok meta ->
  _validate_schema (table.schema db_table) meta = Ok tt ->
  accepting (remote w1) ->
  Forall (fun index => is_Some (index_throughput index)) (table.global_indexes db_table) ->
  let tn := table.table_name db_table in
  exists changes deletions,
    calls (update_table dict_items name conn thr w).1
      = (calls w ++ Describe tn :: Update tn thr :: changes ++ deletions)%list /\
    Forall is_create_or_update changes /\ Forall is_delete deletions.
Proof.
  intros Hinit Hdesc Hvalid Hacc Hthr tn.
  destruct (update_table_run dict_items dict_items_perm w w1 name conn thr db_table meta)
    as [_ Hcalls]; try done.
  eexists _, _. split; [exact Hcalls|]. split.
  - apply Forall_forall. intros c Hc.
    apply list_elem_of_omap in Hc as ([n idx] & _ & Hf). unfold local_call in Hf. cbn in Hf.
    destruct (upstream_indexes_by_name meta !! n).
    + destruct (index_throughput idx) as [t|]; [|done]. injection Hf as <-.
      right. by eexists _, _, _.
    + injection Hf as <-. left. by eexists _, _.
  - apply Forall_forall. intros c Hc.
    apply list_elem_of_omap in Hc as (n & _ & Hf). unfold upstream_call in Hf.
    destruct (local_indexes_by_name db_table !! n); [done|]. injection Hf as <-.
    by eexists _, _.
Qed.

(** X21: when the upstream table has global indexes of exactly the local
    names, an uninterrupted run of [update_table] creates and deletes
    nothing: after the describe call and the table's throughput update, its
    index calls are, in some order, one throughput update for each local
    index, with the throughput of that index. *)
Theorem update_table_in_sync_only_updates
    (w w1 : World) (name : string) (conn : option Connection) (thr : throughput_arg)
    (db_table : Table) (meta : TableDescription) :
  _get_table_init_data name conn thr w = (w1, Ok db_table) ->
  describe_response (remote w1) (calls w1) (table.table_name db_table) = Ok meta ->
  _validate_schema (table.schema db_table) meta = Ok tt ->
  accepting (remote w1) ->
  let tn := table.table_name db_table in
  let locals := table.global_indexes db_table in
  let upstream := default [] (GlobalSecondaryIndexes meta) in
  NoDup (index_name <$> locals) ->
  NoDup (IndexName <$> upstream) ->
  Forall (fun index => is_Some (index_throughput index)) locals ->
  (forall n, n ∈ index_name <$> locals <-> n ∈ IndexName <$> upstream) ->
  exists thr' updates,
    calls (update_table dict_items name conn thr w).1
      = (calls w ++ Describe tn :: Update tn thr' :: updates)%list /\
    updates ≡ₚ omap (throughput_update tn) locals /\
    List.length updates = List.length locals.
Proof.
  intros Hinit Hdesc Hvalid Hacc tn locals upstream HL HU Hthr Hsync.
  destruct (update_table_makes_the_planned_calls w w1 name conn thr db_table meta)
    as (ops & Hcalls & Hperm); try done.
  assert (Hplan : planned_calls tn locals upstream = omap (throughput_update tn) locals).
  { unfold planned_calls. fold locals upstream.
    rewrite (filter_none (fun index => index_name index ∉ IndexName <$> upstream)).
    2:{ intros idx Hin Hn. apply Hn, Hsync. by apply list_elem_of_fmap_2. }
    rewrite (filter_all (fun index => index_name index ∈ IndexName <$> upstream)).
    2:{ intros idx Hin. apply Hsync. by apply list_elem_of_fmap_2. }
    rewrite (filter_none (fun n => n ∉ index_name <$> locals)).
    2:{ intros n Hin Hn. by apply Hn, Hsync. }
    cbn. by rewrite app_nil_r. }
  assert (Hperm' : ops ≡ₚ omap (throughput_update tn) locals).
  { rewrite <- Hplan. exact Hperm. }
  exists thr, ops. split; [exact Hcalls|]. split; [exact Hperm'|].
  rewrite Hperm'. clear -Hthr.
  induction Hthr as [|idx l [t Ht] _ IH]; [done|].
  cbn. unfold throughput_update at 1. rewrite Ht. cbn. by rewrite IH.
Qed.

End reconciliation.

(** ** [sorted] *)

Lemma string_leb_trans (a b c : string) :
  String.leb a b = true -> String.leb b c = true -> String.leb a c = true.
Proof.
  unfold String.leb. revert b c.
  induction a as [|x a IH]; intros [|y b] [|z c]; cbn; try done.
  unfold Ascii.compare.
  destruct (N.compare_spec (N_of_ascii x) (N_of_ascii y)) as [E1|L1|G1]; [|intros _|done].
  - rewrite E1.
    destruct (N.compare_spec (N_of_ascii y) (N_of_ascii z)) as [E2|L2|G2]; [|done|done].
    apply IH.
  - destruct (N.compare_spec (N_of_ascii y) (N_of_ascii z)) as [E2|L2|G2]; [| |done]; intros _.
    + rewrite <- E2. by apply N.compare_lt_iff in L1 as ->.
    + assert (L : (N_of_ascii x < N_of_ascii z)%N) by lia.
      by apply N.compare_lt_iff in L as ->.
Qed.

Section sorting.
Context {A : Type} (key : A -> string).

Lemma insert_by_perm (x : A) (l : list A) : insert_by key x l ≡ₚ x :: l.
Proof.
  induction l as [|y l IH]; cbn; [done|].
  destruct (String.leb (key x) (key y)); [done|].
  rewrite IH. apply Permutation_swap.
Qed.

Lemma sorted_perm (l : list A) : sorted key l ≡ₚ l.
Proof.
  induction l as [|x l IH]; cbn; [done|].
  fold (sorted key l). by rewrite insert_by_perm, IH.
Qed.

Lemma insert_by_sorted (x : A) (l : list A) :
  StronglySorted (key_le key) l -> StronglySorted (key_le key) (insert_by key x l).
Proof.
  induction 1 as [|y l Hl IH Hy]; cbn.
  { repeat constructor. }
  destruct (String.leb (key x) (key y)) eqn:E.
  - constructor; [by constructor|]. constructor; [done|].
    eapply Forall_impl; [exact Hy|]. intros z Hz. by eapply string_leb_trans.
  - constructor; [done|]. rewrite insert_by_perm. constructor; [|done].
    destruct (String.leb_total (key x) (key y)) as [H|H]; [congruence|done].
Qed.

Lemma sorted_sorted (l : list A) : StronglySorted (key_le key) (sorted key l).
Proof.
  induction l as [|x l IH]; cbn; [constructor|]. by apply insert_by_sorted.
Qed.

(** Two lists with the same elements, no two of them with the same key,
    are sorted to the same list. *)
Lemma sorted_unique (l1 l2 : list A) :
  NoDup (key <$> l1) -> l1 ≡ₚ l2 -> sorted key l1 = sorted key l2.
Proof.
  intros Hnd Hp. apply (StronglySorted_unique_strong (key_le key)).
  - intros x1 x2 H1 H2 H12 H21.
    rewrite sorted_perm in H1. rewrite sorted_perm, <- Hp in H2.
    assert (E : key x1 = key x2) by by apply String.leb_antisym.
    apply list_elem_of_lookup in H1 as [i Hi]. apply list_elem_of_lookup in H2 as [j Hj].
    assert (i = j) as ->.
    { eapply NoDup_lookup; [exact Hnd| |].
      - by rewrite list_lookup_fmap, Hi.
      - rewrite list_lookup_fmap, Hj. cbn. by rewrite E. }
    congruence.
  - apply sorted_sorted.
  - apply sorted_sorted.
  - by rewrite !sorted_perm.
Qed.

Lemma sorted_eq_perm (l1 l2 : list A) : sorted key l1 = sorted key l2 -> l1 ≡ₚ l2.
Proof. intros E. by rewrite <- (sorted_perm l1), E, sorted_perm. Qed.

End sorting.

(** ** What [_validate_schema] accepts *)

(** X22: for a local key with distinct attribute names, [_validate_schema]
    accepts exactly when the upstream key schema has the same entries as
    the local one, and the upstream definitions of the key attributes are
    the same as the local ones, each in any order.  A difference in the key
    schema is reported before one in the attribute definitions. *)
Theorem _validate_schema_compares_up_to_order (schema : list Key) (meta : TableDescription) :
  NoDup (key_name <$> schema) ->
  let same_key_schema := KeySchema meta ≡ₚ key_schema <$> schema in
  let same_attributes := upstream_key_attributes meta ≡ₚ key_definition <$> schema in
  (_validate_schema schema meta = Ok tt <-> same_key_schema /\ same_attributes) /\
  (_validate_schema schema meta = Raise (UpdateTableException "Mismatched schema")
   <-> ~ same_key_schema) /\
  (_validate_schema schema meta = Raise (UpdateTableException "Mismatched attributes")
   <-> same_key_schema /\ ~ same_attributes).
Proof.
  intros Hnd same_key_schema same_attributes.
  assert (H1 : sorted ks_AttributeName (KeySchema meta)
               = sorted ks_AttributeName (key_schema <$> schema) <-> same_key_schema).
  { split; [apply sorted_eq_perm|]. intros Hp. symmetry. apply sorted_unique; [|done].
    by rewrite <- list_fmap_compose. }
  assert (H2 : sorted ad_AttributeName (upstream_key_attributes meta)
               = sorted ad_AttributeName (key_definition <$> schema) <-> same_attributes).
  { split; [apply sorted_eq_perm|]. intros Hp. symmetry. apply sorted_unique; [|done].
    by rewrite <- list_fmap_compose. }
  clearbody same_key_schema same_attributes.
  unfold _validate_schema. rewrite local_attributes_all.
  fold (upstream_key_attributes meta).
  repeat case_bool_decide; split_and!; split; try done; try tauto.
  all: try (intros [? ?]; tauto).
Qed.

(** ** Lookups leave the service alone *)

(** X23: reading the configuration makes no call on the service, whether it
    succeeds or raises: [get_table] (which does not check that the table
    exists), [get_connection], [get_table_columns], [get_table_index],
    [list_table_names] and the two functions on table names. *)
Theorem lookups_make_no_call
    (dict_items : forall V, gmap string V -> list (string * V))
    (table_name index_name : string) (connection : option Connection) :
  quiet (get_table table_name connection) /\
  quiet get_connection /\
  quiet (get_table_columns dict_items table_name) /\
  quiet (get_table_index dict_items table_name index_name) /\
  quiet (list_table_names dict_items) /\
  quiet (get_table_name table_name) /\
  quiet (get_reverse_table_name table_name).
Proof.
  split_and!.
  - unfold get_table, connection_or_default. quiet_tac.
  - apply quiet_get_connection.
  - unfold get_table_columns. quiet_tac.
  - unfold get_table_index. quiet_tac.
  - unfold list_table_names. quiet_tac.
  - apply quiet_get_table_name.
  - unfold get_reverse_table_name. quiet_tac.
Qed.

(** * The statements at work on the examples *)

Lemma items_in_map_order_perm :
  forall V (m : gmap string V), items_in_map_order V m ≡ₚ map_to_list m.
Proof. intros V m. reflexivity. Defined.

Lemma set_config_ConfigurationError_iff_witness :
  load_yaml (config_path_of ∅ example_world_no_secret) example_world_no_secret
    = (example_world_no_secret, Ok example_yaml) /\
  (exists msg, (set_config ∅ example_world_no_secret).2 = Raise (ConfigurationError msg)) /\
  calls (set_config ∅ example_world_no_secret).1 = [] /\
  malformed_port example_kwargs_bad_port (example_world example_service) /\
  (exists msg, (set_config example_kwargs_bad_port (example_world example_service)).2
               = Raise (ConfigurationError msg)) /\
  (set_config ∅ (example_world example_service)).2 = Ok tt.
Proof.
  assert (H : load_yaml (config_path_of ∅ example_world_no_secret) example_world_no_secret
              = (example_world_no_secret, Ok example_yaml)).
  { vm_compute. reflexivity. }
  assert (H' : load_yaml (config_path_of example_kwargs_bad_port
                            (example_world example_service))
                 (example_world example_service)
               = (example_world example_service, Ok example_yaml)).
  { vm_compute. reflexivity. }
  assert (H'' : load_yaml (config_path_of ∅ (example_world example_service))
                  (example_world example_service)
                = (example_world example_service, Ok example_yaml)).
  { vm_compute. reflexivity. }
  assert (P : malformed_port example_kwargs_bad_port (example_world example_service)).
  { split; [vm_compute; reflexivity|]. intros n. vm_compute. discriminate. }
  split; [exact H|].
  destruct (set_config_ConfigurationError_iff ∅ example_world_no_secret example_yaml H)
    as (Hiff & _ & Hcalls).
  split; [|split; [exact Hcalls|]].
  { apply Hiff. right. right. left. split; vm_compute; reflexivity. }
  split; [exact P|]. split.
  - destruct (set_config_ConfigurationError_iff example_kwargs_bad_port
                (example_world example_service) example_yaml H') as (Hiff' & _ & _).
    apply Hiff'. right. right. right. exact P.
  - destruct (set_config_ConfigurationError_iff ∅ (example_world example_service)
                example_yaml H'') as (Hiff'' & [Hok|[msg Hmsg]] & _); [exact Hok|].
    vm_compute in Hmsg. discriminate Hmsg.
Defined.

(** The claim without the proviso: nothing resolves the namespace, and the
    configuration file is not there.  [set_config] raises the error of the
    read, not [ConfigurationError]: the file is opened before the fields
    are looked at. *)
Lemma set_config_unreadable_file_is_not_a_ConfigurationError :
  no_value ∅ example_world_unconfigured "namespace" "CC_DYNAMODB_NAMESPACE" /\
  (set_config ∅ example_world_unconfigured).2 = Raise (IOError "/etc/cc_dynamodb.yaml") /\
  ~ (exists msg,
       (set_config ∅ example_world_unconfigured).2 = Raise (ConfigurationError msg)).
Proof.
  split; [split; vm_compute; reflexivity|]. split; [vm_compute; reflexivity|].
  intros [msg Hmsg]. vm_compute in Hmsg. discriminate Hmsg.
Qed.

Lemma set_config_falsy_override_reads_environment_witness :
  load_yaml (config_path_of example_falsy_kwargs (example_world example_service))
      (example_world example_service)
    = (example_world example_service, Ok example_yaml) /\
  exists c,
    _cached_config (set_config example_falsy_kwargs (example_world example_service)).1
      = Some c /\
    namespace c = PStr "dev_" /\ host c = PNone /\ port c = PInt 8000.
Proof.
  assert (H : load_yaml (config_path_of example_falsy_kwargs (example_world example_service))
                (example_world example_service)
              = (example_world example_service, Ok example_yaml)).
  { vm_compute. reflexivity. }
  split; [exact H|].
  destruct (set_config_falsy_override_reads_environment example_falsy_kwargs
              (example_world example_service) example_yaml H)
    as (c & Hc & Hns & _ & _ & Hhost & Hport & _).
  exists c. split; [exact Hc|]. split; [|split].
  - rewrite Hns; [|vm_compute; reflexivity]. vm_compute. reflexivity.
  - rewrite Hhost; [|vm_compute; reflexivity]. vm_compute. reflexivity.
  - destruct Hport as [Hp|(n & Hn & Hp)]; [vm_compute; reflexivity| |].
    + vm_compute in Hc. injection Hc as <-. vm_compute in Hp. discriminate Hp.
    + vm_compute in Hn. injection Hn as <-. exact Hp.
Defined.

Lemma get_reverse_table_name_inverts_get_table_name_witness :
  _cached_config (example_loaded example_service) = Some example_config /\
  namespace example_config = PStr "dev_" /\
  get_table_name "users" (example_loaded example_service)
    = (example_loaded example_service, Ok "dev_users") /\
  (get_table_name "users" ≫= get_reverse_table_name) (example_loaded example_service)
    = (example_loaded example_service, Ok "users").
Proof.
  split; [reflexivity|]. split; [reflexivity|].
  apply (get_reverse_table_name_inverts_get_table_name
           (example_loaded example_service) example_config "dev_" "users");
    reflexivity.
Defined.

Lemma example_declares_no_index_Z : ~ declares_index example_yaml "users" "Z".
Proof.
  intros [(m & ti & i & Hsec & _)|(m & ti & i & Hsec & Hl & Hin & Hn)].
  - discriminate Hsec.
  - injection Hsec as <-. vm_compute in Hl. injection Hl as <-.
    apply elem_of_cons in Hin as [->|Hin]; [discriminate Hn|].
    apply elem_of_cons in Hin as [->|Hin]; [discriminate Hn|].
    inversion Hin.
Defined.

Lemma get_table_index_undeclared_returns_None_witness :
  _cached_config (example_loaded example_service) = Some example_config /\
  ~ declares_index (yaml example_config) "users" "Z" /\
  get_table_index items_in_map_order "users" "Z" (example_loaded example_service)
    = (example_loaded example_service, Ok None).
Proof.
  split; [reflexivity|]. split; [exact example_declares_no_index_Z|].
  apply (get_table_index_undeclared_returns_None items_in_map_order
           items_in_map_order_perm (example_loaded example_service) example_config
           "users" "Z").
  - reflexivity.
  - exact example_declares_no_index_Z.
Defined.

Lemma create_table_error_translation_witness :
  _get_table_init_data "users" None ThroughputFalse (example_loaded example_service_in_use)
    = (example_loaded example_service_in_use, Ok example_table) /\
  (create_table "users" None ThroughputFalse (example_loaded example_service_in_use)).2
    = Raise (TableAlreadyExistsException "Table already exists: dev_users").
Proof.
  assert (H : _get_table_init_data "users" None ThroughputFalse
                (example_loaded example_service_in_use)
              = (example_loaded example_service_in_use, Ok example_table)).
  { vm_compute. reflexivity. }
  split; [exact H|].
  destruct (create_table_error_translation (example_loaded example_service_in_use)
              (example_loaded example_service_in_use) "users" None ThroughputFalse
              example_table
              (JSONResponseError 400 (Some "ResourceInUseException")
                 "Table already exists: dev_users") H eq_refl) as [Hin_use _].
  apply Hin_use. reflexivity.
Defined.

Lemma update_table_schema_mismatch_witness :
  _get_table_init_data "users" None ThroughputFalse (example_loaded example_service_number)
    = (example_loaded example_service_number, Ok example_table) /\
  schema_differs (table.schema example_table) example_upstream_number /\
  (exists msg,
     (update_table items_in_map_order "users" None ThroughputFalse
        (example_loaded example_service_number)).2 = Raise (UpdateTableException msg)) /\
  calls (update_table items_in_map_order "users" None ThroughputFalse
           (example_loaded example_service_number)).1
    = [Describe "dev_users"].
Proof.
  assert (H : _get_table_init_data "users" None ThroughputFalse
                (example_loaded example_service_number)
              = (example_loaded example_service_number, Ok example_table)).
  { vm_compute. reflexivity. }
  assert (D : schema_differs (table.schema example_table) example_upstream_number).
  { right. vm_compute. intros E. discriminate E. }
  split; [exact H|]. split; [exact D|].
  apply (update_table_schema_mismatch items_in_map_order
           (example_loaded example_service_number) (example_loaded example_service_number)
           "users" None ThroughputFalse example_table example_upstream_number H);
    [reflexivity|exact D].
Defined.

Lemma example_local_names_distinct :
  NoDup (index_name <$> table.global_indexes example_table).
Proof. apply (bool_decide_unpack _). vm_compute. reflexivity. Defined.

Lemma example_global_indexes_have_throughput :
  Forall (fun index => is_Some (index_throughput index)) (table.global_indexes example_table).
Proof. repeat constructor; eexists; reflexivity. Defined.

Lemma update_table_reconciles_indexes_witness :
  _get_table_init_data "users" None ThroughputFalse (example_loaded example_service)
    = (example_loaded example_service, Ok example_table) /\
  _validate_schema (table.schema example_table) example_upstream = Ok tt /\
  accepting example_service /\
  exists thr' ops,
    calls (update_table items_in_reverse_order "users" None ThroughputFalse
             (example_loaded example_service)).1
      = (Describe "dev_users" :: Update "dev_users" thr' :: ops)%list /\
    ops ≡ₚ [ CreateGlobalSecondaryIndex "dev_users" example_index_A;
             UpdateGlobalSecondaryIndex "dev_users" "B" {| read := 5; write := 5 |};
             DeleteGlobalSecondaryIndex "dev_users" "C" ].
Proof.
  assert (H : _get_table_init_data "users" None ThroughputFalse
                (example_loaded example_service)
              = (example_loaded example_service, Ok example_table)).
  { vm_compute. reflexivity. }
  assert (V : _validate_schema (table.schema example_table) example_upstream = Ok tt).
  { vm_compute. reflexivity. }
  assert (A : accepting example_service).
  { intros hist c. reflexivity. }
  assert (U : NoDup (IndexName <$> default [] (GlobalSecondaryIndexes example_upstream))).
  { apply (bool_decide_unpack _). vm_compute. reflexivity. }
  split; [exact H|]. split; [exact V|]. split; [exact A|].
  destruct (update_table_reconciles_indexes items_in_reverse_order
              (fun V m => reverse_Permutation (map_to_list m))
              (example_loaded example_service) (example_loaded example_service)
              "users" None ThroughputFalse example_table example_upstream H eq_refl V A
              example_local_names_distinct U example_global_indexes_have_throughput)
    as [_ (thr' & ops & Hcalls & Hperm)].
  exists thr', ops. split; [exact Hcalls|]. exact Hperm.
Defined.

(** The claim with the throughput that the entry of the index declares: the
    entry of [B] declares read 20 and write 20, the configured default is
    read 10 and write 10, and the update of [B] is made with read 5 and
    write 5. *)
Lemma update_table_ignores_the_declared_throughput :
  yaml_global_indexes example_yaml_declared ≫= (fun m => m !! "users")
    = Some [ {| id_type := "GlobalAllIndex"; id_name := "A";
                id_parts := Some [ {| kd_type := "HashKey"; kd_name := "email";
                                      kd_data_type := "STRING" |} ];
                id_throughput := None |};
             example_index_B_declared ] /\
  id_throughput example_index_B_declared = Some {| read := 20; write := 20 |} /\
  yaml_default_throughput example_yaml_declared = Some {| read := 10; write := 10 |} /\
  calls (update_table items_in_map_order "users" None ThroughputFalse
           example_loaded_declared).1
    = [ Describe "dev_users";
        Update "dev_users" ThroughputFalse;
        CreateGlobalSecondaryIndex "dev_users" example_index_A;
        UpdateGlobalSecondaryIndex "dev_users" "B" {| read := 5; write := 5 |};
        DeleteGlobalSecondaryIndex "dev_users" "C" ] /\
  ~ (exists t, t <> {| read := 5; write := 5 |} /\
       UpdateGlobalSecondaryIndex "dev_users" "B" t
       ∈ calls (update_table items_in_map_order "users" None ThroughputFalse
                  example_loaded_declared).1).
Proof.
  assert (C : calls (update_table items_in_map_order "users" None ThroughputFalse
                       example_loaded_declared).1
              = [ Describe "dev_users";
                  Update "dev_users" ThroughputFalse;
                  CreateGlobalSecondaryIndex "dev_users" example_index_A;
                  UpdateGlobalSecondaryIndex "dev_users" "B" {| read := 5; write := 5 |};
                  DeleteGlobalSecondaryIndex "dev_users" "C" ]).
  { vm_compute. reflexivity. }
  split; [vm_compute; reflexivity|]. split; [reflexivity|]. split; [reflexivity|].
  split; [exact C|]. rewrite C. intros (t & Hne & Hin).
  repeat (apply elem_of_cons in Hin as [Hin|Hin]; [try discriminate Hin|]).
  - injection Hin as ->. by destruct Hne.
  - by apply elem_of_nil in Hin.
Qed.

Lemma get_config_copy_is_independent_witness :
  Store.closed (Store.heap_of example_state) = true /\
  Store.get_config 10 ∅ example_state = Some (example_state_after, Ok example_copy) /\
  Store._cached_config example_state = Some 5%nat /\
  Store.reify 10
    (Store.apply_mutations example_copy example_mutations
       (Store.heap_of example_state_after)) (Store.VRef 5)
    = Store.reify 10 (Store.heap_of example_state) (Store.VRef 5) /\
  exists s3 r',
    Store.get_config 10 ∅
      (Store.with_heap
         (Store.apply_mutations example_copy example_mutations
            (Store.heap_of example_state_after)) example_state_after)
      = Some (s3, Ok r') /\
    Store.reify 10 (Store.heap_of s3) r' = Some example_cached_tree.
Proof.
  assert (C : Store.closed (Store.heap_of example_state) = true).
  { vm_compute. reflexivity. }
  assert (G : Store.get_config 10 ∅ example_state
              = Some (example_state_after, Ok example_copy)).
  { vm_compute. reflexivity. }
  split; [exact C|]. split; [exact G|]. split; [reflexivity|].
  destruct (StoreFacts.get_config_copy_is_independent 10 ∅ example_state
              example_state_after example_copy example_mutations C G)
    as (c & Hc & _ & _ & Hframe & t & Ht & _ & Hlater & _).
  assert (c = 5%nat) as -> by (vm_compute in Hc; congruence).
  split; [exact (Hframe 10%nat)|].
  destruct (Hlater ∅) as (s3 & r' & Hg & Hr).
  exists s3, r'. split; [exact Hg|].
  rewrite Hr. rewrite <- Ht. vm_compute. reflexivity.
Defined.

(** * The further properties at work on the examples *)

Lemma get_config_keeps_first_configuration_witness :
  exists w1 c,
    get_config ∅ (example_world example_service) = (w1, Ok c) /\
    get_config {[ "namespace" := PStr "prod_" ]} w1 = (w1, Ok c).
Proof.
  assert (H : get_config ∅ (example_world example_service)
              = (add_log (LogEvent "cc_dynamodb.set_config") (example_loaded example_service),
                 Ok example_config)).
  { vm_compute. reflexivity. }
  eexists _, _. split; [exact H|].
  exact (get_config_keeps_first_configuration ∅ {[ "namespace" := PStr "prod_" ]} _ _ _ H).
Defined.

Lemma set_config_failure_stays_cached_witness :
  load_yaml (config_path_of ∅ example_world_no_secret) example_world_no_secret
    = (example_world_no_secret, Ok example_yaml) /\
  (exists msg, (set_config ∅ example_world_no_secret).2 = Raise (ConfigurationError msg)) /\
  forall kwargs,
    (get_config kwargs (set_config ∅ example_world_no_secret).1).2
    = Ok (resolved_config ∅ example_world_no_secret example_yaml).
Proof.
  assert (H : load_yaml (config_path_of ∅ example_world_no_secret) example_world_no_secret
              = (example_world_no_secret, Ok example_yaml)).
  { vm_compute. reflexivity. }
  assert (E : (set_config ∅ example_world_no_secret).2
              = Raise (ConfigurationError
                  "Missing aws_secret_access_key kwarg OR environment variable CC_DYNAMODB_SECRET_ACCESS_KEY")).
  { vm_compute. reflexivity. }
  split; [exact H|]. split; [eexists; exact E|].
  destruct (set_config_failure_stays_cached ∅ example_world_no_secret example_yaml _ H E)
    as [_ Hget].
  intros kwargs. by rewrite Hget.
Defined.

Lemma set_config_success_witness :
  (set_config ∅ (example_world example_service)).2 = Ok tt /\
  exists c,
    _cached_config (set_config ∅ (example_world example_service)).1 = Some c /\
    truthy (aws_secret_access_key c) = true /\
    (truthy (port c) = false \/ exists n, port c = PInt n).
Proof.
  assert (H : (set_config ∅ (example_world example_service)).2 = Ok tt).
  { vm_compute. reflexivity. }
  split; [exact H|].
  destruct (set_config_success ∅ (example_world example_service) H)
    as (c & Hc & _ & _ & Hs & Hp & _).
  exists c. split; [exact Hc|]. split; [exact Hs|exact Hp].
Defined.

Lemma get_config_unreadable_file_witness :
  _cached_config example_world_no_file = None /\
  load_yaml (config_path_of ∅ example_world_no_file) example_world_no_file
    = (example_world_no_file, Raise (IOError "/etc/cc_dynamodb.yaml")) /\
  get_config ∅ example_world_no_file
    = (example_world_no_file, Raise (IOError "/etc/cc_dynamodb.yaml")).
Proof.
  assert (H : load_yaml (config_path_of ∅ example_world_no_file) example_world_no_file
              = (example_world_no_file, Raise (IOError "/etc/cc_dynamodb.yaml"))).
  { vm_compute. reflexivity. }
  split; [reflexivity|]. split; [exact H|].
  exact (get_config_unreadable_file ∅ example_world_no_file _ eq_refl H).
Defined.

Lemma get_table_index_is_a_lookup_witness :
  _cached_config example_loaded_columns = Some example_config_columns /\
  found_index (yaml example_config_columns) "users" "A" = Some example_local_index_A /\
  get_table_index items_in_map_order "users" "A" example_loaded_columns
    = (example_loaded_columns, Ok (found_index (yaml example_config_columns) "users" "A")).
Proof.
  split; [reflexivity|]. split; [vm_compute; reflexivity|].
  apply (get_table_index_is_a_lookup items_in_map_order items_in_map_order_perm
           example_loaded_columns example_config_columns "users" "A").
  reflexivity.
Defined.

Lemma get_table_index_sound_and_complete_witness :
  _cached_config example_loaded_columns = Some example_config_columns /\
  exists r,
    get_table_index items_in_reverse_order "users" "B" example_loaded_columns
      = (example_loaded_columns, Ok r) /\
    (forall index, r = Some index ->
       id_name index = "B" /\ declared_for (yaml example_config_columns) "users" index) /\
    (declares_index (yaml example_config_columns) "users" "B" -> is_Some r).
Proof.
  split; [reflexivity|].
  apply (get_table_index_sound_and_complete items_in_reverse_order).
  - intros V m. apply reverse_Permutation.
  - reflexivity.
Defined.

Lemma example_columns_known :
  map_Forall (fun _ column_type => is_Some (types.getattr column_type)) example_columns.
Proof.
  intros k t Hk. apply elem_of_map_to_list in Hk. vm_compute map_to_list in Hk.
  apply elem_of_cons in Hk as [[= -> ->]|Hk]; [by eexists|].
  apply elem_of_cons in Hk as [[= -> ->]|Hk]; [by eexists|].
  by apply elem_of_nil in Hk.
Defined.

Lemma get_table_columns_returns_witness :
  _cached_config example_loaded_columns = Some example_config_columns /\
  yaml_columns (yaml example_config_columns) ≫= (fun cols => cols !! "users")
    = Some example_columns /\
  get_table_columns items_in_map_order "users" example_loaded_columns
    = (example_loaded_columns, Ok (omap types.getattr example_columns)).
Proof.
  assert (H : yaml_columns (yaml example_config_columns) ≫= (fun cols => cols !! "users")
              = Some example_columns).
  { vm_compute. reflexivity. }
  split; [reflexivity|]. split; [exact H|].
  apply (get_table_columns_returns items_in_map_order items_in_map_order_perm
           example_loaded_columns example_config_columns "users" example_columns);
    [reflexivity|exact H|exact example_columns_known].
Defined.

Lemma get_table_columns_errors_witness :
  _cached_config (example_loaded example_service) = Some example_config /\
  yaml_columns (yaml example_config) ≫= (fun cols => cols !! "users") = None /\
  get_table_columns items_in_map_order "users" (example_loaded example_service)
    = (add_log (LogException "UnknownTable") (example_loaded example_service),
       Raise (UnknownTableException "Unknown table: users")) /\
  is_Some (yaml_columns (yaml example_config_columns) ≫= (fun cols => cols !! "users")) /\
  forall msg,
    (get_table_columns items_in_map_order "users" example_loaded_columns).2
    <> Raise (UnknownTableException msg).
Proof.
  split; [reflexivity|]. split; [reflexivity|].
  destruct (get_table_columns_errors items_in_map_order
              (example_loaded example_service) example_config "users" eq_refl) as [H _].
  split; [apply H; reflexivity|].
  assert (S : is_Some (yaml_columns (yaml example_config_columns)
                         ≫= (fun cols => cols !! "users"))).
  { exists example_columns. vm_compute. reflexivity. }
  split; [exact S|].
  destruct (get_table_columns_errors items_in_map_order
              example_loaded_columns example_config_columns "users" eq_refl) as [_ H'].
  exact (H' S).
Defined.

Lemma list_table_names_lists_the_schemas_witness :
  _cached_config (example_loaded example_service) = Some example_config /\
  is_Some (yaml_schemas (yaml example_config)) /\
  exists names,
    list_table_names items_in_map_order (example_loaded example_service)
      = (example_loaded example_service, Ok names) /\
    NoDup names /\
    forall table_name, table_name ∈ names <-> declares_table example_config table_name.
Proof.
  split; [reflexivity|]. split; [by eexists|].
  destruct (list_table_names_lists_the_schemas items_in_map_order items_in_map_order_perm
              (example_loaded example_service) example_config eq_refl) as [H _].
  apply H. by eexists.
Defined.

Lemma _build_keys_builds_every_entry_witness :
  Forall buildable_key
    [ {| kd_type := "HashKey"; kd_name := "id"; kd_data_type := "STRING" |};
      {| kd_type := "RangeKey"; kd_name := "created"; kd_data_type := "NUMBER" |} ] /\
  _build_keys
    [ {| kd_type := "HashKey"; kd_name := "id"; kd_data_type := "STRING" |};
      {| kd_type := "RangeKey"; kd_name := "created"; kd_data_type := "NUMBER" |} ]
  = Ok example_keys.
Proof.
  assert (H : Forall buildable_key
    [ {| kd_type := "HashKey"; kd_name := "id"; kd_data_type := "STRING" |};
      {| kd_type := "RangeKey"; kd_name := "created"; kd_data_type := "NUMBER" |} ]).
  { repeat constructor; by eexists. }
  split; [exact H|].
  destruct (_build_keys_builds_every_entry
    [ {| kd_type := "HashKey"; kd_name := "id"; kd_data_type := "STRING" |};
      {| kd_type := "RangeKey"; kd_name := "created"; kd_data_type := "NUMBER" |} ])
    as (Hiff & _ & Hbuilds).
  destruct (Hbuilds H) as [keys Hkeys]. rewrite Hkeys. f_equal.
  apply Hiff in Hkeys. vm_compute in Hkeys.
  apply Forall2_cons_inv_l in Hkeys as (k1 & keys1 & (Ha1 & Hn1 & Ht1) & Hkeys & ->).
  apply Forall2_cons_inv_l in Hkeys as (k2 & keys2 & (Ha2 & Hn2 & Ht2) & Hkeys & ->).
  apply Forall2_nil_inv_l in Hkeys as ->.
  destruct k1 as [a1 n1 t1], k2 as [a2 n2 t2]. cbn in *. simplify_eq. reflexivity.
Defined.

Lemma _build_secondary_indexes_builds_every_entry_witness :
  _build_secondary_indexes
    [ {| id_type := "GlobalAllIndex"; id_name := "B"; id_parts := None;
         id_throughput := None |};
      example_local_index_A ]
  = Ok [ example_index_B;
         {| index_class := "AllIndex"; index_name := "A"; index_parts := [];
            index_throughput := None |} ] /\
  index_name <$> [ example_index_B;
                   {| index_class := "AllIndex"; index_name := "A"; index_parts := [];
                      index_throughput := None |} ]
  = id_name <$> [ {| id_type := "GlobalAllIndex"; id_name := "B"; id_parts := None;
                     id_throughput := None |};
                  example_local_index_A ].
Proof.
  assert (H : _build_secondary_indexes
    [ {| id_type := "GlobalAllIndex"; id_name := "B"; id_parts := None;
         id_throughput := None |};
      example_local_index_A ]
  = Ok [ example_index_B;
         {| index_class := "AllIndex"; index_name := "A"; index_parts := [];
            index_throughput := None |} ]).
  { vm_compute. reflexivity. }
  split; [exact H|].
  destruct (_build_secondary_indexes_builds_every_entry _ _ H) as [Hn _]. exact Hn.
Defined.

Lemma get_table_name_after_get_reverse_table_name_witness :
  _cached_config (example_loaded example_service) = Some example_config /\
  namespace example_config = PStr "dev_" /\
  get_reverse_table_name "dev_users" (example_loaded example_service)
    = (example_loaded example_service, Ok "users") /\
  ((get_reverse_table_name "prod_users" ≫= get_table_name) (example_loaded example_service)
   <> (example_loaded example_service, Ok "prod_users")).
Proof.
  split; [reflexivity|]. split; [reflexivity|]. split.
  - apply (get_table_name_after_get_reverse_table_name (example_loaded example_service)
             example_config "dev_" "dev_users"); reflexivity.
  - intros H.
    apply (get_table_name_after_get_reverse_table_name (example_loaded example_service)
             example_config "dev_" "prod_users") in H; [|reflexivity|reflexivity].
    vm_compute in H. discriminate H.
Defined.

Lemma example_declares_no_orders : ~ declares_table example_config "orders".
Proof. intros [x Hx]. vm_compute in Hx. discriminate Hx. Defined.

Lemma unknown_table_is_rejected_before_any_call_witness :
  _cached_config (example_loaded example_service) = Some example_config /\
  namespace example_config = PStr "dev_" /\
  resolves_to ThroughputFalse example_config {| read := 10; write := 10 |} /\
  ~ declares_table example_config "orders" /\
  (update_table items_in_map_order "orders" None ThroughputFalse
     (example_loaded example_service)).2
    = Raise (UnknownTableException "Unknown table: orders") /\
  calls (update_table items_in_map_order "orders" None ThroughputFalse
           (example_loaded example_service)).1 = [].
Proof.
  split; [reflexivity|]. split; [reflexivity|]. split; [reflexivity|].
  split; [exact example_declares_no_orders|].
  destruct (unknown_table_is_rejected_before_any_call items_in_map_order
              (example_loaded example_service) example_config "dev_" "orders" None
              ThroughputFalse {| read := 10; write := 10 |} eq_refl eq_refl eq_refl
              example_declares_no_orders) as (_ & _ & -> & _).
  split; reflexivity.
Defined.

Lemma missing_default_throughput_is_a_KeyError_witness :
  _cached_config example_loaded_columns = Some example_config_columns /\
  namespace example_config_columns = PStr "dev_" /\
  yaml_default_throughput (yaml example_config_columns) = None /\
  create_table "users" None ThroughputFalse example_loaded_columns
    = (example_loaded_columns, Raise (KeyError "default_throughput")).
Proof.
  split; [reflexivity|]. split; [reflexivity|]. split; [reflexivity|].
  apply (missing_default_throughput_is_a_KeyError items_in_map_order example_loaded_columns
           example_config_columns "dev_" "users" None); reflexivity.
Defined.

Lemma create_table_returns_the_init_data_witness :
  create_table "users" None ThroughputFalse (example_loaded example_service)
    = (add_call (Create example_table) (example_loaded example_service), Ok example_table) /\
  table.table_name example_table = "dev_users" /\
  table.throughput example_table = {| read := 10; write := 10 |} /\
  response example_service [] (Create example_table) = None.
Proof.
  assert (H : create_table "users" None ThroughputFalse (example_loaded example_service)
    = (add_call (Create example_table) (example_loaded example_service), Ok example_table)).
  { vm_compute. reflexivity. }
  split; [exact H|].
  destruct (create_table_returns_the_init_data _ _ _ _ _ _ H) as (_ & _ & Hresp).
  split; [reflexivity|]. split; [reflexivity|exact Hresp].
Defined.

Lemma update_table_calls_are_on_the_table_witness :
  _get_table_init_data "users" None ThroughputFalse (example_loaded example_service_failing)
    = (example_loaded example_service_failing, Ok example_table) /\
  exists made,
    calls (update_table items_in_reverse_order "users" None ThroughputFalse
             (example_loaded example_service_failing)).1
      = (Describe "dev_users" :: made)%list /\
    Forall (on_existing_table "dev_users") made.
Proof.
  assert (H : _get_table_init_data "users" None ThroughputFalse
                (example_loaded example_service_failing)
              = (example_loaded example_service_failing, Ok example_table)).
  { vm_compute. reflexivity. }
  split; [exact H|].
  destruct (update_table_calls_are_on_the_table items_in_reverse_order _ _ _ _ _ _ H)
    as (_ & Hmade).
  exact Hmade.
Defined.

Lemma update_table_describe_fails_witness :
  _get_table_init_data "users" None ThroughputFalse (example_loaded example_service_not_found)
    = (example_loaded example_service_not_found, Ok example_table) /\
  not_found example_not_found /\
  (update_table items_in_map_order "users" None ThroughputFalse
     (example_loaded example_service_not_found)).2
    = Raise (UnknownTableException "Unknown table: users") /\
  calls (update_table items_in_map_order "users" None ThroughputFalse
           (example_loaded example_service_not_found)).1
    = [Describe "dev_users"].
Proof.
  assert (H : _get_table_init_data "users" None ThroughputFalse
                (example_loaded example_service_not_found)
              = (example_loaded example_service_not_found, Ok example_table)).
  { vm_compute. reflexivity. }
  assert (N : not_found example_not_found) by (by eexists).
  split; [exact H|]. split; [exact N|].
  destruct (update_table_describe_fails items_in_map_order _ _ _ _ _ _ example_not_found
              H eq_refl) as (Hcalls & Hnf & _).
  split; [exact (Hnf N)|exact Hcalls].
Defined.

Lemma update_table_deletes_last_witness :
  _get_table_init_data "users" None ThroughputFalse (example_loaded example_service)
    = (example_loaded example_service, Ok example_table) /\
  _validate_schema (table.schema example_table) example_upstream = Ok tt /\
  accepting example_service /\
  exists changes deletions,
    calls (update_table items_in_reverse_order "users" None ThroughputFalse
             (example_loaded example_service)).1
      = (Describe "dev_users" :: Update "dev_users" ThroughputFalse
           :: changes ++ deletions)%list /\
    Forall is_create_or_update changes /\ Forall is_delete deletions.
Proof.
  assert (H : _get_table_init_data "users" None ThroughputFalse
                (example_loaded example_service)
              = (example_loaded example_service, Ok example_table)).
  { vm_compute. reflexivity. }
  assert (V : _validate_schema (table.schema example_table) example_upstream = Ok tt).
  { vm_compute. reflexivity. }
  assert (A : accepting example_service).
  { intros hist c. reflexivity. }
  split; [exact H|]. split; [exact V|]. split; [exact A|].
  apply (update_table_deletes_last items_in_reverse_order
           (fun V m => reverse_Permutation (map_to_list m))
           (example_loaded example_service) (example_loaded example_service)
           "users" None ThroughputFalse example_table example_upstream H eq_refl V A
           example_global_indexes_have_throughput).
Defined.

Lemma update_table_in_sync_only_updates_witness :
  _get_table_init_data "users" None ThroughputFalse (example_loaded example_service_in_sync)
    = (example_loaded example_service_in_sync, Ok example_table) /\
  index_name <$> table.global_indexes example_table = ["A"; "B"] /\
  IndexName <$> default [] (GlobalSecondaryIndexes example_upstream_in_sync) = ["A"; "B"] /\
  exists thr' updates,
    calls (update_table items_in_reverse_order "users" None ThroughputFalse
             (example_loaded example_service_in_sync)).1
      = (Describe "dev_users" :: Update "dev_users" thr' :: updates)%list /\
    updates ≡ₚ [ UpdateGlobalSecondaryIndex "dev_users" "A" {| read := 5; write := 5 |};
                 UpdateGlobalSecondaryIndex "dev_users" "B" {| read := 5; write := 5 |} ].
Proof.
  assert (H : _get_table_init_data "users" None ThroughputFalse
                (example_loaded example_service_in_sync)
              = (example_loaded example_service_in_sync, Ok example_table)).
  { vm_compute. reflexivity. }
  assert (V : _validate_schema (table.schema example_table) example_upstream_in_sync = Ok tt).
  { vm_compute. reflexivity. }
  assert (A : accepting example_service_in_sync).
  { intros hist c. reflexivity. }
  assert (U : NoDup (IndexName <$> default [] (GlobalSecondaryIndexes example_upstream_in_sync))).
  { apply (bool_decide_unpack _). vm_compute. reflexivity. }
  split; [exact H|]. split; [reflexivity|]. split; [reflexivity|].
  destruct (update_table_in_sync_only_updates items_in_reverse_order
              (fun V m => reverse_Permutation (map_to_list m))
              (example_loaded example_service_in_sync)
              (example_loaded example_service_in_sync)
              "users" None ThroughputFalse example_table example_upstream_in_sync H eq_refl V A
              example_local_names_distinct U example_global_indexes_have_throughput
              (fun n => iff_refl _))
    as (thr' & updates & Hcalls & Hperm & _).
  exists thr', updates. split; [exact Hcalls|exact Hperm].
Defined.

Lemma _validate_schema_compares_up_to_order_witness :
  NoDup (key_name <$> example_keys) /\
  KeySchema example_upstream_keys ≡ₚ key_schema <$> example_keys /\
  upstream_key_attributes example_upstream_keys ≡ₚ key_definition <$> example_keys /\
  _validate_schema example_keys example_upstream_keys = Ok tt.
Proof.
  assert (N : NoDup (key_name <$> example_keys)).
  { apply (bool_decide_unpack _). vm_compute. reflexivity. }
  assert (P1 : KeySchema example_upstream_keys ≡ₚ key_schema <$> example_keys).
  { apply Permutation_swap. }
  assert (P2 : upstream_key_attributes example_upstream_keys
               ≡ₚ key_definition <$> example_keys).
  { vm_compute. apply Permutation_swap. }
  split; [exact N|]. split; [exact P1|]. split; [exact P2|].
  destruct (_validate_schema_compares_up_to_order example_keys example_upstream_keys N)
    as [Hok _].
  apply Hok. split; [exact P1|exact P2].
Defined.

Lemma set_config_keyword_arguments_win_witness :
  load_yaml (config_path_of example_kwargs (example_world example_service))
      (example_world example_service)
    = (example_world example_service, Ok example_yaml) /\
  exists c,
    _cached_config (set_config example_kwargs (example_world example_service)).1 = Some c /\
    namespace c = PStr "prod_" /\ port c = PInt 9000.
Proof.
  assert (H : load_yaml (config_path_of example_kwargs (example_world example_service))
                (example_world example_service)
              = (example_world example_service, Ok example_yaml)).
  { vm_compute. reflexivity. }
  split; [exact H|].
  destruct (set_config_keyword_arguments_win example_kwargs
              (example_world example_service) example_yaml H)
    as (c & Hc & Hns & _ & _ & _ & Hport & _).
  exists c. split; [exact Hc|]. split.
  - rewrite Hns; [|vm_compute; reflexivity]. vm_compute. reflexivity.
  - destruct Hport as [Hp|(n & Hn & Hp)]; [vm_compute; reflexivity| |].
    + vm_compute in Hc. injection Hc as <-. vm_compute in Hp. discriminate Hp.
    + vm_compute in Hn. injection Hn as <-. exact Hp.
Defined.

Lemma set_config_reloads_witness :
  load_yaml (config_path_of example_kwargs (example_world example_service))
      (example_world example_service)
    = (example_world example_service, Ok example_yaml) /\
  set_config example_kwargs (example_loaded example_service)
    = set_config example_kwargs (example_world example_service).
Proof.
  assert (H : load_yaml (config_path_of example_kwargs (example_world example_service))
                (example_world example_service)
              = (example_world example_service, Ok example_yaml)).
  { vm_compute. reflexivity. }
  split; [exact H|].
  exact (set_config_reloads example_kwargs (example_world example_service) example_yaml
           (Some example_config) H).
Defined.

Lemma update_table_lets_no_JSONResponseError_through_witness :
  _get_table_init_data "users" None ThroughputFalse (example_loaded example_service_failing)
    = (example_loaded example_service_failing, Ok example_table) /\
  response example_service_failing [Describe "dev_users"]
    (Update "dev_users" ThroughputFalse) = Some example_internal_error /\
  (update_table items_in_map_order "users" None ThroughputFalse
     (example_loaded example_service_failing)).2
    <> Raise example_internal_error.
Proof.
  assert (H : _get_table_init_data "users" None ThroughputFalse
                (example_loaded example_service_failing)
              = (example_loaded example_service_failing, Ok example_table)).
  { vm_compute. reflexivity. }
  split; [exact H|]. split; [reflexivity|].
  exact (update_table_lets_no_JSONResponseError_through items_in_map_order _ _ _ _ _ _
           500 (Some "InternalServerError") "internal error" H).
Defined.
